(** * Papers Past METS/ALTO extraction: a shallow embedding

    The development follows [multiprocess_pp_issues_mets_alto_full.py].
    Python [str] values are sequences of code points; the model keeps the
    code points U+0000..U+00FF (one [ascii] each), on which the regular
    expression classes [\d] and [\s] are the ten ASCII digits and the
    characters for which [str.isspace] holds.  Python [float] values are
    binary64 numbers, taken from the Standard Library's [SpecFloat]. *)

From Stdlib Require Import String.
From Stdlib Require Import List Bool Arith ZArith Lia Ascii.
From Stdlib Require Import Floats.SpecFloat.
From Stdlib Require Import DecimalString DecimalN.
From Stdlib Require Import Permutation Sorted.
Import ListNotations.

Open Scope string_scope.
Open Scope list_scope.
Open Scope nat_scope.

Set Implicit Arguments.

(** ** Strings and character classes *)

Definition str := list ascii.

(** A literal of the source, written as a Rocq string. *)
Definition py (s : string) : str := String.list_ascii_of_string s.

Definition str_eqb (a b : str) : bool :=
  if list_eq_dec ascii_dec a b then true else false.

Definition hyphen : ascii := "-"%char.
Definition apostrophe : ascii := "'"%char.
Definition space : ascii := " "%char.
Definition underscore : ascii := "_"%char.
Definition backslash : ascii := "\"%char.
Definition newline : ascii := ascii_of_nat 10.

Definition is_hyphen (c : ascii) : bool := Ascii.eqb c hyphen.

(** [\d] on code points below 256. *)
Definition is_digit (c : ascii) : bool :=
  let n := nat_of_ascii c in (48 <=? n) && (n <=? 57).

(** [\s] and [str.isspace] on code points below 256:
    TAB..CR, FS..US, SPACE, NEL and NBSP. *)
Definition is_space (c : ascii) : bool :=
  let n := nat_of_ascii c in
  ((9 <=? n) && (n <=? 13)) || ((28 <=? n) && (n <=? 32))
  || (n =? 133) || (n =? 160).

(** The longest prefix of characters satisfying [p], and what follows it:
    what a greedy [p+] or [p*] consumes. *)
Fixpoint span (p : ascii -> bool) (s : str) : str * str :=
  match s with
  | [] => ([], [])
  | c :: s' =>
      if p c then let (a, b) := span p s' in (c :: a, b) else ([], s)
  end.

(** [$] holds at the end of the string and just before a final newline. *)
Definition at_dollar (rest : str) : bool :=
  match rest with
  | [] => true
  | [c] => Ascii.eqb c newline
  | _ => false
  end.

(** [re.match(r'^-{2,}$', s)] *)
Definition match_multi_hyphen (s : str) : bool :=
  let (run, rest) := span is_hyphen s in
  (2 <=? length run) && at_dollar rest.

(** [re.match(r'^\d+\'?$', s)] *)
Definition match_bare_number (s : str) : bool :=
  let (ds, rest) := span is_digit s in
  (1 <=? length ds) &&
  match rest with
  | c :: rest' => if Ascii.eqb c apostrophe then at_dollar rest' else at_dollar rest
  | [] => true
  end.

(** [re.match(r'^-+', s)] *)
Definition match_leading_hyphens (s : str) : bool :=
  match s with
  | c :: _ => is_hyphen c
  | [] => false
  end.

(** [re.search(r'-{2,}', s)] *)
Fixpoint search_multi_hyphen (s : str) : bool :=
  match s with
  | c :: (d :: _) as s' => (is_hyphen c && is_hyphen d) || search_multi_hyphen s'
  | _ => false
  end.

(** Truthiness of a Python string: non-empty. *)
Definition truthy (s : str) : bool :=
  match s with [] => false | _ => true end.

(** [sep.join(parts)] *)
Fixpoint join (sep : str) (parts : list str) : str :=
  match parts with
  | [] => []
  | [p] => p
  | p :: ps => p ++ sep ++ join sep ps
  end.

(** ** XML elements (lxml) *)

#[warnings="-register-all"]
Inductive element : Type :=
  Element (tag : str) (attrib : list (str * str)) (children : list element).

Definition tag_of (e : element) : str := let 'Element t _ _ := e in t.
Definition attrib_of (e : element) : list (str * str) := let 'Element _ a _ := e in a.
Definition children_of (e : element) : list element := let 'Element _ _ c := e in c.

Fixpoint assoc (k : str) (kvs : list (str * str)) : option str :=
  match kvs with
  | [] => None
  | (k', v) :: kvs' => if str_eqb k' k then Some v else assoc k kvs'
  end.

(** [e.get(name)] and [e.get(name, default)] *)
Definition get_opt (e : element) (name : string) : option str :=
  assoc (py name) (attrib_of e).

Definition get (e : element) (name : string) (default : string) : str :=
  match get_opt e name with
  | Some v => v
  | None => py default
  end.

(** What [ET.fromstring(text, parser)] gives with a recovering parser: a
    root element, an [XMLSyntaxError], or no element at all ([None]). *)
Inductive parsed : Type :=
| Root (e : element)
| XMLSyntaxError
| NoDocument.

(** ** Python exceptions and floats *)

Inductive exn : Type :=
  ValueError | OverflowError | AttributeError | XPathEvalError | OSError.

Inductive result (A : Type) : Type :=
| Ok (a : A)
| Raise (e : exn).
Arguments Ok {A} a.
Arguments Raise {A} e.

Definition pyfloat := spec_float.
Definition float_zero : pyfloat := S754_zero false.

(** binary64: 53 bits of precision, exponents below 1024. *)
Definition b64_normalize (m e : Z) : pyfloat := binary_normalize 53 1024 m e false.
Definition b64_div (x y : pyfloat) : pyfloat := SFdiv 53 1024 x y.

(** The whitespace [float()] strips from both ends of its argument. *)
Definition is_float_space (c : ascii) : bool :=
  let n := nat_of_ascii c in
  ((9 <=? n) && (n <=? 13)) || (n =? 32) || (n =? 133) || (n =? 160).

Fixpoint lstrip (p : ascii -> bool) (s : str) : str :=
  match s with
  | c :: s' => if p c then lstrip p s' else s
  | [] => []
  end.

Definition rstrip (p : ascii -> bool) (s : str) : str := rev (lstrip p (rev s)).

(** Underscores of a numeric literal: each one stands between two digits.
    [prev] is the previous character, if any. *)
Fixpoint drop_underscores (prev : option ascii) (s : str) : option str :=
  match s with
  | [] =>
      match prev with
      | Some p => if Ascii.eqb p underscore then None else Some []
      | None => Some []
      end
  | c :: s' =>
      let prev_digit := match prev with Some p => is_digit p | None => false end in
      let prev_us := match prev with Some p => Ascii.eqb p underscore | None => false end in
      if Ascii.eqb c underscore then
        if prev_digit then drop_underscores (Some c) s' else None
      else if prev_us && negb (is_digit c) then None
      else option_map (cons c) (drop_underscores (Some c) s')
  end.

(** The value of a string of decimal digits, and the decimal digits of a
    natural number. *)
Definition digits_value (ds : str) : Z :=
  match NilEmpty.uint_of_string (string_of_list_ascii ds) with
  | Some d => Z.of_N (N.of_uint d)
  | None => 0%Z
  end.

Definition str_of_N (n : N) : str :=
  list_ascii_of_string (NilEmpty.string_of_uint (N.to_uint n)).

Definition lower (c : ascii) : ascii :=
  let n := nat_of_ascii c in
  if (65 <=? n) && (n <=? 90) then ascii_of_nat (n + 32) else c.

(** An optional sign: [true] for a minus. *)
Definition take_sign (s : str) : bool * str :=
  match s with
  | c :: s' =>
      if Ascii.eqb c "-"%char then (true, s')
      else if Ascii.eqb c "+"%char then (false, s')
      else (false, s)
  | [] => (false, s)
  end.

(** The value [m * 10^e] rounded to binary64, to nearest and ties to even. *)
Definition decimal_to_float (neg : bool) (m e : Z) : pyfloat :=
  let x :=
    match m with
    | Zpos p =>
        if (0 <=? e)%Z then b64_normalize (m * 10 ^ e) 0
        else b64_div (S754_finite false p 0)
                     (S754_finite false (Z.to_pos (10 ^ (- e))) 0)
    | _ => S754_zero false
    end in
  if neg then SFopp x else x.

(** The exponent part of a literal: [[eE][+-]?\d+], taken only when it is
    complete. *)
Definition take_exponent (s : str) : Z * str :=
  match s with
  | c :: s' =>
      if Ascii.eqb (lower c) "e"%char then
        let (neg, s'') := take_sign s' in
        let (ds, rest) := span is_digit s'' in
        match ds with
        | [] => (0%Z, s)
        | _ => ((if neg then - digits_value ds else digits_value ds)%Z, rest)
        end
      else (0%Z, s)
  | [] => (0%Z, s)
  end.

(** [float(s)] for a string [s]; [None] stands for [ValueError]. *)
Definition py_float (s : str) : option pyfloat :=
  match drop_underscores None (rstrip is_float_space (lstrip is_float_space s)) with
  | None => None
  | Some t =>
      let (neg, u) := take_sign t in
      let lu := map lower u in
      if str_eqb lu (py "inf") || str_eqb lu (py "infinity") then Some (S754_infinity neg)
      else if str_eqb lu (py "nan") then Some S754_nan
      else
        let (ip, r1) := span is_digit u in
        let (fp, r2) :=
          match r1 with
          | c :: r1' => if Ascii.eqb c "."%char then span is_digit r1' else ([], r1)
          | [] => ([], r1)
          end in
        match ip ++ fp with
        | [] => None
        | ds =>
            let (ex, r3) := take_exponent r2 in
            match r3 with
            | [] => Some (decimal_to_float neg (digits_value ds) (ex - Z.of_nat (length fp)))
            | _ => None
            end
        end
  end.

(** [int(x)] for a float [x]: truncation towards zero. *)
Definition py_int_of_float (x : pyfloat) : result Z :=
  match x with
  | S754_zero _ => Ok 0%Z
  | S754_finite neg m e =>
      let a := (if (0 <=? e)%Z then Zpos m * 2 ^ e else Zpos m / 2 ^ (- e))%Z in
      Ok (if neg then (- a)%Z else a)
  | S754_infinity _ => Raise OverflowError
  | S754_nan => Raise ValueError
  end.

(** [int(float(s))] *)
Definition int_float (s : str) : result Z :=
  match py_float s with
  | Some x => py_int_of_float x
  | None => Raise ValueError
  end.

(** [int(s)] for a string [s], in base ten; [None] stands for [ValueError]. *)
Definition py_int (s : str) : option Z :=
  match drop_underscores None (rstrip is_float_space (lstrip is_float_space s)) with
  | None => None
  | Some t =>
      let (neg, u) := take_sign t in
      match u with
      | [] => None
      | _ =>
          if forallb is_digit u
          then Some (if neg then - digits_value u else digits_value u)%Z
          else None
      end
  end.

(** [str(z)] for an integer [z]. *)
Definition str_of_Z (z : Z) : str :=
  match z with
  | Zneg p => "-"%char :: str_of_N (Npos p)
  | _ => str_of_N (Z.to_N z)
  end.

(** ** Regular-expression substitution *)

(** What a pattern does at the start of a suffix of the subject: the
    replacement text and the number of characters matched (at least one). *)
Definition matcher := str -> option (str * nat).

(** [re.sub]: scan from the left; where the pattern matches, put the
    replacement and go on after the match; elsewhere keep the character.
    [skip] counts the characters of a match not yet passed. *)
Fixpoint re_sub_from (m : matcher) (skip : nat) (s : str) : str :=
  match s with
  | [] => []
  | c :: s' =>
      match skip with
      | S k => re_sub_from m k s'
      | 0 =>
          match m s with
          | Some (repl, n) => repl ++ re_sub_from m (n - 1) s'
          | None => c :: re_sub_from m 0 s'
          end
      end
  end.

Definition re_sub (m : matcher) (s : str) : str := re_sub_from m 0 s.

(** [s] starts with [p]: what is left of [s]. *)
Fixpoint strip_prefix (p s : str) : option str :=
  match p, s with
  | [], _ => Some s
  | a :: p', b :: s' => if Ascii.eqb a b then strip_prefix p' s' else None
  | _ :: _, [] => None
  end.

(** An optional apostrophe, as [\'?] takes it. *)
Definition take_apostrophe (s : str) : str * str :=
  match s with
  | c :: s' => if Ascii.eqb c apostrophe then ([c], s') else ([], s)
  | [] => ([], s)
  end.

(** ** Text normalisation: [clean_text] *)

Module CleanText.

(** The argument of [clean_text]: a string, [None], or another value. *)
Inductive pyval : Type :=
| PyNone
| PyStr (s : str)
| PyInt (z : Z)
| PyBool (b : bool).

(** [str(v)] *)
Definition py_str (v : pyval) : str :=
  match v with
  | PyNone => py "None"
  | PyStr s => s
  | PyInt z => str_of_Z z
  | PyBool true => py "True"
  | PyBool false => py "False"
  end.

Definition quote : ascii := ascii_of_nat 34.
Definition tab : ascii := ascii_of_nat 9.
Definition cr : ascii := ascii_of_nat 13.

(** The first [re.sub]: a backslash followed by one of apostrophe,
    quotation mark, newline, carriage return or tab is replaced by
    [' ' if m.group(1) in 'nrt' else m.group(1)], where [m.group(1)] is the
    character after the backslash. *)
Definition m_escape : matcher := fun s =>
  match s with
  | b :: c :: _ =>
      if Ascii.eqb b backslash
         && (Ascii.eqb c apostrophe || Ascii.eqb c quote || Ascii.eqb c newline
             || Ascii.eqb c cr || Ascii.eqb c tab)
      then Some ([if existsb (Ascii.eqb c) (py "nrt") then space else c], 2)
      else None
  | _ => None
  end.

Definition hyphen_marker (k : nat) : str :=
  py "__HYPHEN_" ++ str_of_N (N.of_nat k) ++ py "__".

(** [r'(\-{2,})'] with [lambda m: f'__HYPHEN_{len(m.group(1))}__'] *)
Definition m_protect_hyphens : matcher := fun s =>
  let (run, _) := span is_hyphen s in
  if 2 <=? length run then Some (hyphen_marker (length run), length run) else None.

(** [r'(\d+\'?)(\s+)(\-+)'] with [r'\1__NUMHYPH__\3'] *)
Definition m_protect_numhyph : matcher := fun s =>
  let (ds, r1) := span is_digit s in
  let (ap, r2) := take_apostrophe r1 in
  let (ws, r3) := span is_space r2 in
  let (hs, _) := span is_hyphen r3 in
  match ds, ws, hs with
  | _ :: _, _ :: _, _ :: _ =>
      Some (ds ++ ap ++ py "__NUMHYPH__" ++ hs,
            length ds + length ap + length ws + length hs)
  | _, _, _ => None
  end.

(** [r'__HYPHEN_(\d+)__'] with [lambda m: '-' * int(m.group(1))] *)
Definition m_restore_hyphens : matcher := fun s =>
  match strip_prefix (py "__HYPHEN_") s with
  | Some r =>
      let (ds, r1) := span is_digit r in
      match ds, strip_prefix (py "__") r1 with
      | _ :: _, Some _ =>
          Some (repeat hyphen (Z.to_nat (digits_value ds)), 9 + length ds + 2)
      | _, _ => None
      end
  | None => None
  end.

(** [r'__NUMHYPH__'] with ['-'] *)
Definition m_restore_numhyph : matcher := fun s =>
  match strip_prefix (py "__NUMHYPH__") s with
  | Some _ => Some ([hyphen], 11)
  | None => None
  end.

(** [r'(\d+\'?)-(\-+)'] with [r'\1-\2'] *)
Definition m_tighten : matcher := fun s =>
  let (ds, r1) := span is_digit s in
  let (ap, r2) := take_apostrophe r1 in
  match ds, r2 with
  | _ :: _, c :: r3 =>
      if is_hyphen c then
        let (hs, _) := span is_hyphen r3 in
        match hs with
        | _ :: _ =>
            Some (ds ++ ap ++ [hyphen] ++ hs, length ds + length ap + 1 + length hs)
        | [] => None
        end
      else None
  | _, _ => None
  end.

(** [text.split()]: the maximal runs of characters that are not
    whitespace. *)
Fixpoint split (s : str) : list str :=
  match s with
  | [] => []
  | c :: s' =>
      if is_space c then split s'
      else
        match s' with
        | d :: _ =>
            if is_space d then [c] :: split s'
            else
              match split s' with
              | w :: ws => (c :: w) :: ws
              | [] => [[c]]
              end
        | [] => [[c]]
        end
  end.

(** The body of [clean_text] on a string. *)
Definition clean_str (text : str) : str :=
  let text := re_sub m_escape text in
  let text := re_sub m_protect_hyphens text in
  let text := re_sub m_protect_numhyph text in
  let text := join (py " ") (split text) in
  let text := re_sub m_restore_hyphens text in
  let text := re_sub m_restore_numhyph text in
  let text := re_sub m_tighten text in
  text.

Definition clean_text (text : pyval) : str :=
  match text with
  | PyStr s => clean_str s
  | PyNone => []
  | other => py_str other
  end.

End CleanText.

(** ** The structure of a text between the passes of [clean_text] *)

Module Chunks.
Import CleanText.

(** A text without underscores, cut into its runs of whitespace, its runs
    of hyphens and its other characters; [NH] is the place of a run of
    whitespace that the third pass has taken out. *)
Inductive chunk : Type :=
| Sp (w : str)
| Hy (k : nat)
| Tx (c : ascii)
| NH.

Definition cons_char (c : ascii) (l : list chunk) : list chunk :=
  if is_space c then
    match l with
    | Sp w :: r => Sp (c :: w) :: r
    | _ => Sp [c] :: l
    end
  else if is_hyphen c then
    match l with
    | Hy k :: r => Hy (S k) :: r
    | _ => Hy 1 :: l
    end
  else Tx c :: l.

Definition lex (s : str) : list chunk := fold_right cons_char [] s.

(** The text itself. *)
Definition plain_of (x : chunk) : str :=
  match x with
  | Sp w => w
  | Hy k => repeat hyphen k
  | Tx c => [c]
  | NH => [hyphen]
  end.

Definition plain (l : list chunk) : str := flat_map plain_of l.

(** The text with its markers, as it is between the second and the fifth
    pass. *)
Definition marked_of (x : chunk) : str :=
  match x with
  | Sp w => w
  | Hy k => if 2 <=? k then hyphen_marker k else repeat hyphen k
  | Tx c => [c]
  | NH => py "__NUMHYPH__"
  end.

Definition marked (l : list chunk) : str := flat_map marked_of l.

(** The text between the fifth and the sixth pass. *)
Definition restored_of (x : chunk) : str :=
  match x with
  | NH => py "__NUMHYPH__"
  | _ => plain_of x
  end.

Definition restored (l : list chunk) : str := flat_map restored_of l.

(** What stands before a chunk: nothing of interest, digits, or digits and
    an apostrophe. *)
Inductive ctx : Type := N | D | Q.

Definition next_ctx (c : ctx) (x : chunk) : ctx :=
  match x with
  | Tx ch =>
      if is_digit ch then D
      else if Ascii.eqb ch apostrophe then match c with D => Q | _ => N end
      else N
  | _ => N
  end.

(** A run of whitespace between a number and a single hyphen. *)
Definition bridge (c : ctx) (x : chunk) (r : list chunk) : bool :=
  match c, x, r with
  | (D | Q), Sp _, Hy 1 :: _ => true
  | _, _, _ => false
  end.

(** The third pass on chunks. *)
Fixpoint N3 (c : ctx) (l : list chunk) : list chunk :=
  match l with
  | [] => []
  | x :: r => (if bridge c x r then NH else x) :: N3 (next_ctx c x) r
  end.

(** The fourth pass on chunks: runs of whitespace become one space, and
    those at the ends go. *)
Fixpoint WS1 (l : list chunk) : list chunk :=
  match l with
  | [] => []
  | Sp w :: r =>
      match r with
      | [] => []
      | _ => Sp [space] :: WS1 r
      end
  | x :: r => x :: WS1 r
  end.

Definition WS (l : list chunk) : list chunk :=
  WS1 (match l with Sp _ :: r => r | _ => l end).

(** The chunks of the text once the markers are hyphens again. *)
Fixpoint G (l : list chunk) : list chunk :=
  match l with
  | [] => []
  | NH :: r =>
      match r with
      | Hy k :: r' => Hy (S k) :: G r'
      | _ => Hy 1 :: G r
      end
  | x :: r => x :: G r
  end.

Definition ok_chunk (x : chunk) : bool :=
  match x with
  | Sp w => truthy w && forallb is_space w
  | Hy k => 1 <=? k
  | Tx c => negb (is_space c) && negb (is_hyphen c) && negb (Ascii.eqb c underscore)
  | NH => true
  end.

Definition ok_next (x : chunk) (r : list chunk) : bool :=
  match x, r with
  | Sp _, Sp _ :: _ => false
  | Hy _, Hy _ :: _ => false
  | Hy _, NH :: _ => false
  | NH, Hy 1 :: _ => true
  | NH, _ => false
  | _, _ => true
  end.

(** Runs are whole, and a taken-out run of whitespace stands before a
    single hyphen. *)
Fixpoint wf (l : list chunk) : bool :=
  match l with
  | [] => true
  | x :: r => ok_chunk x && ok_next x r && wf r
  end.

(** No run of whitespace of the list is between a number and a single
    hyphen. *)
Fixpoint nob (c : ctx) (l : list chunk) : bool :=
  match l with
  | [] => true
  | x :: r => negb (bridge c x r) && nob (next_ctx c x) r
  end.

(** The list starts with a single hyphen. *)
Definition hd1 (l : list chunk) : bool :=
  match l with
  | Hy 1 :: _ => true
  | _ => false
  end.

Definition nosp (l : list chunk) : bool :=
  forallb (fun x => match x with Sp _ => false | _ => true end) l.

(** [s] does not start with a character of the class [p]. *)
Definition stops (p : ascii -> bool) (s : str) : bool :=
  match s with [] => true | c :: _ => negb (p c) end.

(** What the third pattern needs after a number. *)
Definition numhyph_ahead (r : list chunk) : option (list chunk * str * list chunk) :=
  match r with
  | Sp w :: Hy 1 :: r4 => Some ([], w, r4)
  | Tx c :: Sp w :: Hy 1 :: r4 =>
      if Ascii.eqb c apostrophe then Some ([Tx c], w, r4) else None
  | _ => None
  end.

(** A text without underscore. *)
Definition no_underscore (s : str) : bool :=
  forallb (fun c => negb (Ascii.eqb c underscore)) s.

Definition no_backslash (s : str) : bool :=
  forallb (fun c => negb (Ascii.eqb c backslash)) s.

(** [\w] on code points below 256: letters, digits and the underscore. *)
Definition is_word (c : ascii) : bool :=
  let n := nat_of_ascii c in
  ((48 <=? n) && (n <=? 57)) || ((65 <=? n) && (n <=? 90))
  || ((97 <=? n) && (n <=? 122)) || (n =? 95)
  || (n =? 170) || (n =? 178) || (n =? 179) || (n =? 181) || (n =? 185)
  || (n =? 186) || ((188 <=? n) && (n <=? 190))
  || ((192 <=? n) && (n <=? 214)) || ((216 <=? n) && (n <=? 246))
  || (248 <=? n).

End Chunks.

(** ** Text reconstruction: [process_text_block] *)

Module TextBlock.

(** The variables of the [while] loop. *)
Record state : Type := mkState {
  i : nat;
  skip_next : bool;
  words : list str;
  word_confidences : list pyfloat
}.

Definition content (s : element) : str := get s "CONTENT" "".
Definition subs_type (s : element) : str := get s "SUBS_TYPE" "".
Definition subs_content (s : element) : str := get s "SUBS_CONTENT" "".

(** [float(wc)], and [0.0] when it raises. *)
Definition word_confidence (s : element) : pyfloat :=
  match py_float (get s "WC" "0") with
  | Some x => x
  | None => float_zero
  end.

Definition emit (st : state) (w : str) (wc : pyfloat) (skip : bool) : state :=
  {| i := S (i st); skip_next := skip;
     words := words st ++ [w];
     word_confidences := word_confidences st ++ [wc] |}.

(** Case 2, the test on the following token. *)
Definition numeric_next (next_s : element) : bool :=
  let next_content := content next_s in
  let next_subs_type := subs_type next_s in
  truthy next_content &&
  (match_leading_hyphens next_content
   || (str_eqb next_subs_type (py "HypPart2") && match_leading_hyphens next_content)).

(** Case 3, the test on the pair. *)
Definition merge_guard (s next_s : element) : bool :=
  truthy (subs_content s)
  && negb (search_multi_hyphen (subs_content s))
  && negb (truthy (content next_s) && match_multi_hyphen (content next_s)).

(** Cases 3 and 4 for the token [s] at index [i]. *)
Definition case34 (block_strings : list element) (st : state) (s : element) : state :=
  let wc := word_confidence s in
  match
    (if str_eqb (subs_type s) (py "HypPart1") && (i st + 1 <? length block_strings)
     then nth_error block_strings (i st + 1) else None)
  with
  | Some next_s =>
      if str_eqb (subs_type next_s) (py "HypPart2") then
        if merge_guard s next_s then emit st (subs_content s) wc true
        else emit st (content s) wc false
      else emit st (content s) wc false
  | None => emit st (content s) wc false
  end.

(** One pass through the body of the loop. *)
Definition body (block_strings : list element) (st : state) : state :=
  if skip_next st then
    {| i := S (i st); skip_next := false;
       words := words st; word_confidences := word_confidences st |}
  else
    match nth_error block_strings (i st) with
    | None => st
    | Some s =>
        let wc := word_confidence s in
        if truthy (content s) && match_multi_hyphen (content s) then
          emit st (content s) wc false
        else
          match
            (if match_bare_number (content s)
                && str_eqb (subs_type s) (py "HypPart1")
                && (i st + 1 <? length block_strings)
             then nth_error block_strings (i st + 1) else None)
          with
          | Some next_s =>
              if numeric_next next_s then emit st (content s ++ py "-") wc false
              else case34 block_strings st s
          | None => case34 block_strings st s
          end
    end.

(** [while i < len(block_strings): ...] *)
Fixpoint while (fuel : nat) (block_strings : list element) (st : state) : state :=
  match fuel with
  | 0 => st
  | S fuel' =>
      if i st <? length block_strings
      then while fuel' block_strings (body block_strings st)
      else st
  end.

Definition init : state :=
  {| i := 0; skip_next := false; words := []; word_confidences := [] |}.

(** The state when the loop is left. *)
Definition final (block_strings : list element) : state :=
  while (length block_strings) block_strings init.

Definition process_text_block (block_strings : list element) : str * list pyfloat :=
  match block_strings with
  | [] => ([], [])
  | _ =>
      let st := final block_strings in
      (join (py " ") (words st), word_confidences st)
  end.

(** The state after [k] passes through the body. *)
Definition run (block_strings : list element) (k : nat) : state :=
  Nat.iter k (body block_strings) init.

(** A [String] element with the four attributes the function reads. *)
Definition String_ (c st sc wc : string) : element :=
  Element (py "String")
    [(py "CONTENT", py c); (py "SUBS_TYPE", py st);
     (py "SUBS_CONTENT", py sc); (py "WC", py wc)] [].

End TextBlock.

(** ** Dictionaries and sorting *)

(** A [dict] with string keys, in insertion order. *)
Definition dict (V : Type) := list (str * V).

Fixpoint dict_get {V : Type} (d : dict V) (k : str) : option V :=
  match d with
  | [] => None
  | (k', v) :: d' => if str_eqb k' k then Some v else dict_get d' k
  end.

(** [d[k] = v]: a known key keeps its place, a new one goes last. *)
Fixpoint dict_set {V : Type} (d : dict V) (k : str) (v : V) : dict V :=
  match d with
  | [] => [(k, v)]
  | (k', v') :: d' =>
      if str_eqb k' k then (k', v) :: d' else (k', v') :: dict_set d' k v
  end.

Definition dict_keys {V : Type} (d : dict V) : list str := map fst d.

(** [x in l] for a list of strings. *)
Definition mem (x : str) (l : list str) : bool := existsb (str_eqb x) l.

(** [list.sort(key=...)] is stable: an element goes after the elements
    whose key is not greater than its own. *)
Section Sorting.
Variable A : Type.
Variable key : A -> Z.

Fixpoint insert_by (x : A) (l : list A) : list A :=
  match l with
  | [] => [x]
  | y :: l' =>
      if (key x <? key y)%Z then x :: l else y :: insert_by x l'
  end.

Definition sort_by (l : list A) : list A :=
  fold_left (fun acc x => insert_by x acc) l [].

End Sorting.

(** ** Logging and exceptions *)

Inductive level : Type := DEBUG | INFO | WARNING | ERROR.
Definition log_entry : Type := level * str.

(** A computation that logs and then returns or raises.  Of the log, the
    warnings and the errors are kept, and the summary of
    [extract_text_from_alto]. *)
Definition M (A : Type) : Type := list log_entry * result A.

Definition ret {A : Type} (a : A) : M A := ([], Ok a).
Definition raise {A : Type} (e : exn) : M A := ([], Raise e).
Definition logging (l : level) (msg : str) : M unit := ([(l, msg)], Ok tt).
Definition lift {A : Type} (r : result A) : M A := ([], r).

Definition bind {A B : Type} (m : M A) (f : A -> M B) : M B :=
  match m with
  | (l, Ok a) => let (l', r) := f a in (l ++ l', r)
  | (l, Raise e) => (l, Raise e)
  end.

Declare Scope monad_scope.
Delimit Scope monad_scope with monad.
Notation "x <- m ;; k" := (bind m (fun x => k))
  (at level 61, m at next level, right associativity) : monad_scope.
Notation "m ;;; k" := (bind m (fun _ => k))
  (at level 61, right associativity) : monad_scope.

(** [for x in xs: acc = f(acc, x)] *)
Fixpoint for_each {A S : Type} (xs : list A) (f : S -> A -> M S) (s : S) : M S :=
  match xs with
  | [] => ret s
  | x :: xs' => bind (f s x) (for_each xs' f)
  end.

(** ** The structural document: [mets2codes_inner] *)

Module Mets.

Definition mets (local : string) : str := py "{http://www.loc.gov/METS/}" ++ py local.

Fixpoint descendants (e : element) : list element :=
  match e with
  | Element _ _ cs =>
      (fix go (l : list element) : list element :=
         match l with
         | [] => []
         | c :: l' => c :: descendants c ++ go l'
         end) cs
  end.

Definition has_tag (t : str) (e : element) : bool := str_eqb (tag_of e) t.

Definition attr_is (name value : string) (e : element) : bool :=
  match get_opt e name with
  | Some v => str_eqb v (py value)
  | None => false
  end.

(** [e.xpath(".//mets:div[@TYPE='t']")] *)
Definition divs_of_type (t : string) (e : element) : list element :=
  filter (fun d => has_tag (mets "div") d && attr_is "TYPE" t d) (descendants e).

(** [e.xpath(".//mets:div[not(@TYPE='HEADING')]")] *)
Definition divs_not_heading (e : element) : list element :=
  filter (fun d => has_tag (mets "div") d && negb (attr_is "TYPE" "HEADING" d))
         (descendants e).

(** [e.xpath(".//mets:div")], [e.xpath("./mets:div")] *)
Definition all_divs (e : element) : list element :=
  filter (has_tag (mets "div")) (descendants e).
Definition child_divs (e : element) : list element :=
  filter (has_tag (mets "div")) (children_of e).

(** [e.xpath(".//mets:area")], [e.xpath("./mets:area")] *)
Definition all_areas (e : element) : list element :=
  filter (has_tag (mets "area")) (descendants e).
Definition child_areas (e : element) : list element :=
  filter (has_tag (mets "area")) (children_of e).

Definition exclude_content_types : list str :=
  [py "ILLUSTRATION"; py "IMAGE"; py "CAPTION"].

(** [area.get("BEGIN")] when it is truthy. *)
Definition begin_of (area : element) : option str :=
  match get_opt area "BEGIN" with
  | Some (c :: r) => Some (c :: r)
  | _ => None
  end.

(** Append the ids not yet in the list. *)
Definition add_new (ids : list str) (block_id : str) : list str :=
  if mem block_id ids then ids else ids ++ [block_id].

Definition title_block_ids (article : element) : list str :=
  fold_left
    (fun ids title_div =>
       fold_left
         (fun ids area =>
            match begin_of area with
            | Some block_id => add_new ids block_id
            | None => ids
            end)
         (all_areas title_div) ids)
    (divs_of_type "HEADING" article) [].

(** [int(order_str)], and 999 when it raises. *)
Definition order_val (div : element) : Z :=
  match py_int (get div "ORDER" "999") with
  | Some z => z
  | None => 999%Z
  end.

(** An entry of [all_content_divs]. *)
Definition contribution : Type := element * str * Z.

Definition contributions_of (div : element) : list contribution :=
  let div_type := get div "TYPE" "" in
  if negb (truthy div_type) then []
  else if mem div_type exclude_content_types then []
  else
    flat_map
      (fun area =>
         match begin_of area with
         | Some block_id => [(div, block_id, order_val div)]
         | None => []
         end)
      (child_areas div).

Definition all_content_divs (article : element) : list contribution :=
  sort_by (fun x : contribution => snd x)
          (flat_map contributions_of (divs_not_heading article)).

(** The loop over [enumerate(all_content_divs)]: the list of ids and the
    order map. *)
Fixpoint number_from (idx : nat) (l : list contribution)
    (acc : list str * dict Z) : list str * dict Z :=
  match l with
  | [] => acc
  | (_, block_id, _) :: l' =>
      let (text_block_ids, order_map) := acc in
      number_from (S idx) l'
        (if mem block_id text_block_ids then acc
         else (text_block_ids ++ [block_id],
               dict_set order_map block_id (Z.of_nat idx)))
  end.

Definition ordered_ids (l : list contribution) : list str * dict Z :=
  number_from 0 l ([], []).

(** The variables the last loop of an article updates. *)
Record acc : Type := mkAcc {
  text_block_ids : list str;
  order_map : dict Z;
  non_text_elements : list str
}.

Definition add_area (a : acc) (area : element) : acc :=
  match begin_of area with
  | Some block_id =>
      if mem block_id (text_block_ids a) then a
      else {| text_block_ids := text_block_ids a ++ [block_id];
              order_map := dict_set (order_map a) block_id
                             (Z.of_nat (length (order_map a)));
              non_text_elements := non_text_elements a |}
  | None => a
  end.

Definition flag (a : acc) (t : str) : acc :=
  {| text_block_ids := text_block_ids a;
     order_map := order_map a;
     non_text_elements := non_text_elements a ++ [t] |}.

Definition visit_sub_div (a : acc) (sub_div : element) : acc :=
  let sub_type := get sub_div "TYPE" "" in
  if truthy sub_type
     && negb (mem sub_type [py "TEXT"; py "HEADING"; py "BODY_CONTENT"])
  then
    let a := flag a sub_type in
    if negb (mem sub_type exclude_content_types)
    then fold_left add_area (all_areas sub_div) a
    else a
  else a.

Definition visit_child_div (a : acc) (child_div : element) : acc :=
  let div_type := get child_div "TYPE" "" in
  if truthy div_type && negb (mem div_type [py "HEADING"]) then
    let a :=
      if str_eqb div_type (py "BODY") then
        match divs_of_type "TEXT" child_div with
        | [] => flag a div_type
        | _ => a
        end
      else flag a div_type in
    fold_left visit_sub_div (all_divs child_div) a
  else a.

(** A value of [art_dict]. *)
Record article_codes : Type := mkCodes {
  article_title : str;
  codes_title_block_ids : list str;
  codes_text_block_ids : list str;
  codes_non_text_elements : list str;
  codes_order_map : dict Z
}.

Definition article_entry (article : element) : article_codes :=
  let (ids, om) := ordered_ids (all_content_divs article) in
  let a := fold_left visit_child_div (child_divs article)
             {| text_block_ids := ids; order_map := om; non_text_elements := [] |} in
  {| article_title := get article "LABEL" "UNTITLED";
     codes_title_block_ids := title_block_ids article;
     codes_text_block_ids := text_block_ids a;
     codes_non_text_elements := non_text_elements a;
     codes_order_map := order_map a |}.

Definition issue_article_id (issue_code article_id : str) : str :=
  if 7 <? length article_id
  then issue_code ++ py "_" ++ skipn 7 article_id
  else issue_code ++ py "_" ++ article_id.

(** [mets2codes_inner]; [text] is what [ET.fromstring] makes of the
    bytes.  Without a root element the first query raises. *)
Definition mets2codes_inner (text : parsed) (issue_code : str)
  : M (dict article_codes) :=
  match text with
  | XMLSyntaxError =>
      bind (logging ERROR (py "XML parsing error for " ++ issue_code))
           (fun _ => ret [])
  | NoDocument => raise AttributeError
  | Root mets_root =>
      ret (fold_left
            (fun art_dict article =>
               let article_id := get article "DMDID" "" in
               if negb (truthy article_id) then art_dict
               else dict_set art_dict (issue_article_id issue_code article_id)
                             (article_entry article))
            (divs_of_type "ARTICLE" mets_root) [])
  end.

(** *** Notions used to state the properties of the ids *)

Definition block_id_of (c : contribution) : str := snd (fst c).

(** The ids are distinct and the order map has them as its keys, in the
    same order. *)
Definition keyed_by (ids : list str) (om : dict Z) : Prop :=
  NoDup ids /\ dict_keys om = ids.

(** The positions of the order map are 0, 1, 2, ... in the order of its
    keys. *)
Definition dense (om : dict Z) : Prop :=
  map snd om = map Z.of_nat (seq 0 (length om)).

(** Elements for examples. *)
Definition area (begin : string) : element :=
  Element (mets "area") [(py "BEGIN", py begin)] [].
Definition div (type order : string) (cs : list element) : element :=
  Element (mets "div") [(py "TYPE", py type); (py "ORDER", py order)] cs.
Definition article (dmdid : string) (cs : list element) : element :=
  Element (mets "div")
    [(py "TYPE", py "ARTICLE"); (py "DMDID", py dmdid); (py "LABEL", py "A title")] cs.

(** An article in which the block [a] is pointed at twice. *)
Definition repeated_area : element :=
  article "MODSMD_ARTICLE1"
    [div "TEXT" "1" [area "a"; area "a"]; div "TEXT" "2" [area "b"]].

End Mets.

(** ** The page documents *)

Module Alto.
Import Mets.
Local Open Scope monad_scope.

Inductive block_type : Type := title | content.

Record layout : Type := mkLayout {
  line_widths : list Z;
  line_heights : list Z;
  line_hpos : list Z;
  line_vpos : list Z;
  block_hpos : list Z;
  block_vpos : list Z;
  block_widths : list Z;
  block_heights : list Z
}.

Definition no_layout : layout := mkLayout [] [] [] [] [] [] [] [].

Definition extend_layout (a b : layout) : layout :=
  {| line_widths := line_widths a ++ line_widths b;
     line_heights := line_heights a ++ line_heights b;
     line_hpos := line_hpos a ++ line_hpos b;
     line_vpos := line_vpos a ++ line_vpos b;
     block_hpos := block_hpos a ++ block_hpos b;
     block_vpos := block_vpos a ++ block_vpos b;
     block_widths := block_widths a ++ block_widths b;
     block_heights := block_heights a ++ block_heights b |}.

(** The dictionary [process_block] returns, and the accumulators of
    [process_title_blocks] and [process_content_blocks]; the keys of a title
    carry the prefix [title_]. *)
Record block_data : Type := mkBlock {
  text_blocks : list str;
  confidences : list pyfloat;
  geometry : layout;
  processed_block_ids : list str;
  block_order_positions : list Z
}.

Definition empty_data : block_data := mkBlock [] [] no_layout [] [].

(** [re.match(r"P(\d+)_", block_id)]: the digits. *)
Definition match_page (block_id : str) : option str :=
  match block_id with
  | c :: r =>
      if Ascii.eqb c "P"%char then
        let (ds, r') := span is_digit r in
        match ds, r' with
        | _ :: _, u :: _ => if Ascii.eqb u underscore then Some ds else None
        | _, _ => None
        end
      else None
  | [] => None
  end.

(** [sub in s] *)
Fixpoint contains (sub s : str) : bool :=
  match strip_prefix sub s with
  | Some _ => true
  | None => match s with [] => false | _ :: s' => contains sub s' end
  end.

(** [local-name()] of an element whose tag is in Clark notation. *)
Fixpoint after_brace (t : str) : str :=
  match t with
  | [] => []
  | c :: t' => if Ascii.eqb c "}"%char then t' else after_brace t'
  end.

Definition local_name (e : element) : str :=
  match tag_of e with
  | c :: t' => if Ascii.eqb c "{"%char then after_brace t' else c :: t'
  | [] => []
  end.

(** [e.xpath(".//*[local-name()='n']")] *)
Definition by_local_name (n : string) (e : element) : list element :=
  filter (fun d => str_eqb (local_name d) (py n)) (descendants e).

(** [page_root.xpath(f".//*[local-name()='{alto_block_type}' and @ID='{block_id}']")].
    The id is pasted into the query between apostrophes; for an id that
    has an apostrophe itself the query is another one, and the model lets
    the call raise. *)
Definition find_blocks (alto_block_type : string) (block_id : str) (page_root : element)
  : result (list element) :=
  if existsb (Ascii.eqb apostrophe) block_id then Raise XPathEvalError
  else Ok (filter (fun d => str_eqb (local_name d) (py alto_block_type)
                            && match get_opt d "ID" with
                               | Some v => str_eqb v block_id
                               | None => false
                               end)
                  (descendants page_root)).

(** The four [int(float(e.get(..., "0")))] of a block or of a line. *)
Definition dimensions (e : element) : result (Z * Z * Z * Z) :=
  match int_float (get e "HPOS" "0") with
  | Raise x => Raise x
  | Ok hpos =>
  match int_float (get e "VPOS" "0") with
  | Raise x => Raise x
  | Ok vpos =>
  match int_float (get e "WIDTH" "0") with
  | Raise x => Raise x
  | Ok width =>
  match int_float (get e "HEIGHT" "0") with
  | Raise x => Raise x
  | Ok height => Ok (hpos, vpos, width, height)
  end end end end.

(** [try: ... except ValueError: logging.warning(msg); all four are 0] *)
Definition dimensions_or_zero (msg : str) (e : element) : M (Z * Z * Z * Z) :=
  match dimensions e with
  | Ok d => ret d
  | Raise ValueError => logging WARNING msg ;;; ret (0, 0, 0, 0)%Z
  | Raise x => raise x
  end.

Definition add_line (block_id : str) (g : layout) (line : element) : M layout :=
  d <- dimensions_or_zero (py "Invalid dimension value for line in block " ++ block_id) line ;;
  let '(line_hpos_, line_vpos_, line_width, line_height) := d in
  ret {| line_widths := line_widths g ++ [line_width];
         line_heights := line_heights g ++ [line_height];
         line_hpos := line_hpos g ++ [line_hpos_];
         line_vpos := line_vpos g ++ [line_vpos_];
         block_hpos := block_hpos g;
         block_vpos := block_vpos g;
         block_widths := block_widths g;
         block_heights := block_heights g |}.

(** ["TextBlock" if "TB" in block_id else "ComposedBlock" if "CB" in block_id
    else None] *)
Definition alto_block_type_of (block_id : str) : option string :=
  if contains (py "TB") block_id then Some "TextBlock"
  else if contains (py "CB") block_id then Some "ComposedBlock"
  else None.

(** The pages: the root element of each parsed page under its key. *)
Definition page_info : Type := dict element.

Definition process_block (block_id : str) (pages : page_info) (bt : block_type)
  : M (option block_data) :=
  match match_page block_id with
  | None => ret None
  | Some digits =>
      match dict_get pages ("P"%char :: digits) with
      | None => ret None
      | Some page_root =>
          match alto_block_type_of block_id with
          | None => ret None
          | Some alto_block_type =>
              xml_blocks <- lift (find_blocks alto_block_type block_id page_root) ;;
              match xml_blocks with
              | [] => ret None
              | xml_block :: _ =>
                  let block_strings := by_local_name "String" xml_block in
                  let block_lines := by_local_name "TextLine" xml_block in
                  let (text, confs) :=
                    match block_strings with
                    | [] => ([], [])
                    | _ =>
                        let (t, c) := TextBlock.process_text_block block_strings in
                        ([t], c)
                    end in
                  d <- dimensions_or_zero
                         (py "Invalid dimension value for block " ++ block_id) xml_block ;;
                  let '(hpos, vpos, width, height) := d in
                  g <- for_each block_lines (add_line block_id)
                         (mkLayout [] [] [] [] [hpos] [vpos] [width] [height]) ;;
                  ret (Some {| text_blocks := text;
                               confidences := confs;
                               geometry := g;
                               processed_block_ids := [block_id];
                               block_order_positions := [] |})
              end
          end
      end
  end.

Definition extend_data (acc b : block_data) : block_data :=
  {| text_blocks := text_blocks acc ++ text_blocks b;
     confidences := confidences acc ++ confidences b;
     geometry := extend_layout (geometry acc) (geometry b);
     processed_block_ids := processed_block_ids acc ++ processed_block_ids b;
     block_order_positions := block_order_positions acc ++ block_order_positions b |}.

Definition process_title_blocks (title_block_ids : list str) (pages : page_info)
  : M block_data :=
  for_each title_block_ids
    (fun title_data block_id =>
       r <- process_block block_id pages title ;;
       match r with
       | Some b => ret (extend_data title_data b)
       | None => ret title_data
       end)
    empty_data.

Definition process_content_blocks (text_block_ids : list str) (pages : page_info)
    (order_map : dict Z) : M block_data :=
  blocks_data <-
    for_each text_block_ids
      (fun blocks_data block_id =>
         r <- process_block block_id pages content ;;
         match r with
         | Some b =>
             let position :=
               match order_map with
               | [] => 999%Z
               | _ => match dict_get order_map block_id with
                      | Some p => p
                      | None => 999%Z
                      end
               end in
             ret (blocks_data ++ [(block_id, b, position)])
         | None => ret blocks_data
         end)
      [] ;;
  let sorted := sort_by (fun x : str * block_data * Z => snd x) blocks_data in
  ret (fold_left
         (fun content_data x =>
            let '(_, b, position) := x in
            extend_data content_data
              {| text_blocks := text_blocks b;
                 confidences := confidences b;
                 geometry := geometry b;
                 processed_block_ids := processed_block_ids b;
                 block_order_positions :=
                   repeat position (length (text_blocks b)) |})
         sorted empty_data).

(** The tuple [combine_article_data] returns. *)
Record article_record : Type := mkRecord {
  mets_title : str;
  title_text : str;
  full_text : str;
  title_layout : layout;
  title_confidences : list pyfloat;
  title_block_ids : list str;
  content_layout : layout;
  word_confidences : list pyfloat;
  block_ids : list str;
  rec_non_text_elements : list str
}.

Definition combine_article_data (mets_title_ : str) (title_data content_data : block_data)
    (non_text : list str) : article_record :=
  let title_text_ :=
    match text_blocks title_data with
    | [] => mets_title_
    | ts => join (py " ") ts
    end in
  {| mets_title := mets_title_;
     title_text := CleanText.clean_str title_text_;
     full_text := CleanText.clean_str (join (py " ") (text_blocks content_data));
     title_layout := geometry title_data;
     title_confidences := confidences title_data;
     title_block_ids := processed_block_ids title_data;
     content_layout := geometry content_data;
     word_confidences := confidences content_data;
     block_ids := processed_block_ids content_data;
     rec_non_text_elements := non_text |}.

(** The body of the loop of [extract_text_from_alto] over the articles; its
    state is [texts_dict] and the counter [skipped_articles]. *)
Definition extract_step (pages : page_info) (st : dict article_record * nat)
    (kv : str * article_codes) : M (dict article_record * nat) :=
  let '(texts_dict, skipped_articles) := st in
  let '(article_id, data) := kv in
  match codes_title_block_ids data, codes_text_block_ids data with
  | [], [] =>
      logging WARNING
        (py "Skipping article '" ++ article_id ++ py "' with title '"
         ++ article_title data ++ py "' - No text or title blocks found") ;;;
      ret (texts_dict, S skipped_articles)
  | _, _ =>
      title_data <- process_title_blocks (codes_title_block_ids data) pages ;;
      content_data <- process_content_blocks (codes_text_block_ids data) pages
                        (codes_order_map data) ;;
      ret (dict_set texts_dict article_id
             (combine_article_data (article_title data) title_data content_data
                (codes_non_text_elements data)),
           skipped_articles)
  end.

(** [extract_text_from_alto]: the dictionary it returns, with the counter
    [skipped_articles] it keeps for its log. *)
Definition extract_text_from_alto (codes : dict article_codes) (pages : page_info)
    (issue_code : str) : M (dict article_record * nat) :=
  r <- for_each codes (extract_step pages) ([], 0) ;;
  let '(texts_dict, skipped_articles) := r in
  (if 0 <? skipped_articles
   then logging INFO
          (py "Issue " ++ issue_code ++ py ": Extracted "
           ++ str_of_N (N.of_nat (length texts_dict)) ++ py " articles, skipped "
           ++ str_of_N (N.of_nat skipped_articles) ++ py " articles")
   else ret tt) ;;;
  ret (texts_dict, skipped_articles).

(** [parse_pages]: page [i] is kept under the key [P{i+1}] when it parses. *)
Fixpoint parse_pages_from (i : nat) (pages_tarinfo : list parsed) (acc : page_info)
  : M page_info :=
  match pages_tarinfo with
  | [] => ret acc
  | page :: rest =>
      match page with
      | Root root =>
          parse_pages_from (S i) rest
            (dict_set acc ("P"%char :: str_of_N (N.of_nat (i + 1))) root)
      | XMLSyntaxError =>
          logging ERROR (py "XML parsing error for page " ++ str_of_N (N.of_nat (i + 1))) ;;;
          parse_pages_from (S i) rest acc
      | NoDocument => raise AttributeError
      end
  end.

Definition parse_pages (pages_tarinfo : list parsed) : M page_info :=
  parse_pages_from 0 pages_tarinfo [].

(** What [process_issue] finds on disk: whether the archive exists, the
    structural document and the page documents in it, as the parser reads
    them, and whether the table can be written. *)
Record issue_files : Type := mkFiles {
  tar_found : bool;
  mets_file : option parsed;
  page_files : list parsed;
  to_parquet_ok : bool
}.

(** The tuple [process_issue] returns, without the issue code. *)
Definition outcome : Type := bool * nat * nat * nat.

Definition failed : outcome := (false, 0, 0, 0).

(** The part of [process_issue] inside [with tarfile.open(...)]. *)
Definition process_tar (issue_code : str) (files : issue_files) : M outcome :=
  match mets_file files with
  | None => logging ERROR (py "METS file not found for " ++ issue_code) ;;; ret failed
  | Some mets_text =>
      match page_files files with
      | [] => logging ERROR (py "ALTO files not found for " ++ issue_code) ;;; ret failed
      | _ =>
          codes <- mets2codes_inner mets_text issue_code ;;
          match codes with
          | [] =>
              logging WARNING (py "No articles found in METS file for " ++ issue_code) ;;;
              ret failed
          | _ =>
              let total_articles_in_mets := length codes in
              pages <- parse_pages (page_files files) ;;
              match pages with
              | [] =>
                  logging ERROR (py "Failed to parse ALTO files for " ++ issue_code) ;;;
                  ret failed
              | _ =>
                  r <- extract_text_from_alto codes pages issue_code ;;
                  let articles_with_text := fst r in
                  let skipped_articles :=
                    total_articles_in_mets - length articles_with_text in
                  (if 0 <? skipped_articles
                   then logging WARNING
                          (py "Issue " ++ issue_code ++ py ": "
                           ++ str_of_N (N.of_nat skipped_articles) ++ py " out of "
                           ++ str_of_N (N.of_nat total_articles_in_mets)
                           ++ py " articles were skipped")
                   else ret tt) ;;;
                  (if to_parquet_ok files then ret tt else raise OSError) ;;;
                  ret (true, length articles_with_text, length (page_files files),
                       skipped_articles)
              end
          end
      end
  end.

(** [process_issue]: an exception of the inner part is logged and becomes a
    failure. *)
Definition process_issue (issue_code : str) (files : issue_files) : list log_entry * outcome :=
  if negb (tar_found files) then
    ([(ERROR, py "Tar file not found in any input paths")], failed)
  else
    match process_tar issue_code files with
    | (l, Ok o) => (l, o)
    | (l, Raise _) =>
        (l ++ [(ERROR, py "Error processing tar content for " ++ issue_code)], failed)
    end.

(** *** Notions used to state the properties of the geometry *)

Definition attr_int (e : element) (name : string) : result Z :=
  int_float (get e name "0").

Definition geometry_attributes : list string := ["HPOS"; "VPOS"; "WIDTH"; "HEIGHT"].

(** No geometry attribute of [e] parses as an infinite float. *)
Definition no_overflow (e : element) : Prop :=
  forall name : string,
    In name geometry_attributes -> attr_int e name <> Raise OverflowError.

Definition all_parse (e : element) : bool :=
  match attr_int e "HPOS", attr_int e "VPOS", attr_int e "WIDTH", attr_int e "HEIGHT" with
  | Ok _, Ok _, Ok _, Ok _ => true
  | _, _, _, _ => false
  end.

(** The four values when all four parse, and four zeros otherwise. *)
Definition all_or_nothing (e : element) : Z * Z * Z * Z :=
  match attr_int e "HPOS", attr_int e "VPOS", attr_int e "WIDTH", attr_int e "HEIGHT" with
  | Ok h, Ok v, Ok w, Ok ht => (h, v, w, ht)
  | _, _, _, _ => (0, 0, 0, 0)%Z
  end.

Definition dim_hpos (d : Z * Z * Z * Z) : Z := let '(h, _, _, _) := d in h.
Definition dim_vpos (d : Z * Z * Z * Z) : Z := let '(_, v, _, _) := d in v.
Definition dim_width (d : Z * Z * Z * Z) : Z := let '(_, _, w, _) := d in w.
Definition dim_height (d : Z * Z * Z * Z) : Z := let '(_, _, _, ht) := d in ht.

Definition warning_unless_all_parse (msg : str) (e : element) : list log_entry :=
  if all_parse e then [] else [(WARNING, msg)].

(** *** Notions used to state the properties of the assembly *)

(** The computation returns: it raises nothing. *)
Definition returns {A : Type} (m : M A) : Prop :=
  exists log a, m = (log, Ok a).

(** The article lists a title block or a content block: the test of
    [extract_text_from_alto], negated. *)
Definition has_blocks (data : article_codes) : bool :=
  match codes_title_block_ids data, codes_text_block_ids data with
  | [], [] => false
  | _, _ => true
  end.

Definition flag_of (o : outcome) : bool := let '(f, _, _, _) := o in f.

(** The computation raises. *)
Definition raises {A : Type} (m : M A) : Prop :=
  exists log e, m = (log, Raise e).

(** The block is found: [process_block] returns a dictionary for it. *)
Definition resolves (pages : page_info) (bt : block_type) (block_id : str) : bool :=
  match snd (process_block block_id pages bt) with
  | Ok (Some _) => true
  | _ => false
  end.

(** The lists of a dictionary of block data go together: one entry of each
    of the four block lists for each processed block, the four line lists
    of one length, and at most one text for each processed block. *)
Definition aligned (d : block_data) : Prop :=
  let g := geometry d in
  let n := length (processed_block_ids d) in
  length (block_hpos g) = n /\ length (block_vpos g) = n
  /\ length (block_widths g) = n /\ length (block_heights g) = n
  /\ length (line_vpos g) = length (line_hpos g)
  /\ length (line_widths g) = length (line_hpos g)
  /\ length (line_heights g) = length (line_hpos g)
  /\ length (text_blocks d) <= n.

(** The key of the page at index [n] of the list of page files. *)
Definition page_key (n : nat) : str := "P"%char :: str_of_N (N.of_nat (n + 1)).

(** [order_map.get(block_id, 999) if order_map else 999] *)
Definition position_of (order_map : dict Z) (block_id : str) : Z :=
  match order_map with
  | [] => 999%Z
  | _ => match dict_get order_map block_id with
         | Some p => p
         | None => 999%Z
         end
  end.

(** [n] lines more in [g'] than in [g], for the same blocks. *)
Definition lines_added (n : nat) (g g' : layout) : Prop :=
  block_hpos g' = block_hpos g /\ block_vpos g' = block_vpos g
  /\ block_widths g' = block_widths g /\ block_heights g' = block_heights g
  /\ length (line_hpos g') = length (line_hpos g) + n
  /\ length (line_vpos g') = length (line_vpos g) + n
  /\ length (line_widths g') = length (line_widths g) + n
  /\ length (line_heights g') = length (line_heights g) + n.

(** What [process_content_blocks] adds to [content_data] for an entry of
    [blocks_data]. *)
Definition placed (x : str * block_data * Z) : block_data :=
  let '(_, b, position) := x in
  {| text_blocks := text_blocks b;
     confidences := confidences b;
     geometry := geometry b;
     processed_block_ids := processed_block_ids b;
     block_order_positions := repeat position (length (text_blocks b)) |}.

(** Elements for examples. *)
Definition TextBlock_ (id hpos vpos width height : string) (cs : list element) : element :=
  Element (py "{http://www.loc.gov/standards/alto/ns-v2#}TextBlock")
    [(py "ID", py id); (py "HPOS", py hpos); (py "VPOS", py vpos);
     (py "WIDTH", py width); (py "HEIGHT", py height)] cs.
Definition TextLine_ (hpos vpos width height : string) (cs : list element) : element :=
  Element (py "{http://www.loc.gov/standards/alto/ns-v2#}TextLine")
    [(py "HPOS", py hpos); (py "VPOS", py vpos);
     (py "WIDTH", py width); (py "HEIGHT", py height)] cs.
Definition page (cs : list element) : element :=
  Element (py "{http://www.loc.gov/standards/alto/ns-v2#}alto") [] cs.

End Alto.

(** ** Paths of issues: [construct_issue_path] and the start of [process_issue] *)

Module Paths.

(** [s.split(sep)] for a separator that is not empty: the pieces between
    the occurrences of [sep], found from the left.  [cur] is the piece
    being read, last character first; [skip] counts the characters of an
    occurrence not yet passed. *)
Fixpoint split_on_from (sep : str) (skip : nat) (cur : str) (s : str) : list str :=
  match s with
  | [] => [rev cur]
  | c :: s' =>
      match skip with
      | S k => split_on_from sep k cur s'
      | 0 =>
          match strip_prefix sep s with
          | Some _ => rev cur :: split_on_from sep (length sep - 1) [] s'
          | None => split_on_from sep 0 (c :: cur) s'
          end
      end
  end.

Definition split_on (sep : str) (s : str) : list str := split_on_from sep 0 [] s.

(** What is before the last [c] of [s], when there is one. *)
Fixpoint before_last (c : ascii) (s : str) : option str :=
  match s with
  | [] => None
  | x :: s' =>
      match before_last c s' with
      | Some r => Some (x :: r)
      | None => if Ascii.eqb x c then Some [] else None
      end
  end.

(** [s.rsplit(c, 1)[0]] *)
Definition rsplit_head (c : ascii) (s : str) : str :=
  match before_last c s with
  | Some r => r
  | None => s
  end.

Definition slash : ascii := "/"%char.
Definition dot : ascii := "."%char.

(** [construct_issue_path] *)
Definition construct_issue_path (issue_code : str) : result str :=
  match split_on (py "_") issue_code with
  | [newspaper_title; date_str] =>
      if length date_str <? 4 then Raise ValueError
      else
        let year := firstn 4 date_str in
        let tar_path := newspaper_title ++ py "_" ++ year ++ py ".tar.gz" in
        let internal_path :=
          newspaper_title ++ py "/" ++ year ++ py "/" ++ issue_code
          ++ py "/MM_01/mets.xml" in
        Ok (tar_path ++ py "/" ++ internal_path)
  | _ => Raise ValueError
  end.

(** The first lines of [process_issue]: the name of the archive and the
    directory of the issue in it, from the path of the structural
    document.  Without [.tar.gz] in the path, [parts[1]] raises, which is
    [None] here. *)
Definition split_tar_path (tar_path_internal : str) : option (str * str) :=
  match split_on (py ".tar.gz") tar_path_internal with
  | p0 :: p1 :: _ => Some (p0 ++ py ".tar.gz", rsplit_head slash (skipn 1 p1))
  | _ => None
  end.

Definition no_dot (s : str) : bool :=
  forallb (fun c => negb (Ascii.eqb c dot)) s.

End Paths.

(** ** The members of an archive: [get_mets_and_alto_files] *)

Module Archive.











End Archive.

(** ** Many issues: [batch_process_issues] *)

Module Batch.

(** What [process_issue] returns after the issue code: the flag and the
    three counts. *)
Definition report : Type := bool * Z * Z * Z.

Definition flag_of (r : report) : bool := let '(f, _, _, _) := r in f.

(** [Pool(processes=n)] refuses a number below one. *)
Definition pool (processes : Z) : result unit :=
  if (processes <? 1)%Z then Raise ValueError else Ok tt.

(** An entry of [stats]. *)
Definition stats_entry : Type := Z * Z * Z.

Definition stats_of (r : report) : stats_entry :=
  let '(_, articles, pages, skipped) := r in (articles, pages, skipped).

(** [batch_process_issues]; [run] is [process_issue] with its other
    arguments given, without the issue code it returns first. *)
Definition batch_process_issues (run : str -> str -> report) (cpu_count : Z)
    (issues : dict str) (max_workers : option Z)
  : result (list str * list str * dict stats_entry) :=
  let max_workers :=
    match max_workers with
    | None => Z.min (cpu_count - 1) (Z.of_nat (length issues))
    | Some w => w
    end in
  match pool max_workers with
  | Raise e => Raise e
  | Ok _ =>
      let results := map (fun kv : str * str => (fst kv, run (fst kv) (snd kv))) issues in
      let successful :=
        map fst (filter (fun r : str * report => flag_of (snd r)) results) in
      let failed :=
        map fst (filter (fun r : str * report => negb (flag_of (snd r))) results) in
      let stats :=
        fold_left
          (fun (stats : dict stats_entry) (r : str * report) =>
             if flag_of (snd r) then dict_set stats (fst r) (stats_of (snd r)) else stats)
          results [] in
      Ok (successful, failed, stats)
  end.

End Batch.

(** * Properties *)

(** ** Strings *)

Lemma str_eqb_eq (a b : str) : str_eqb a b = true <-> a = b.
Proof.
  unfold str_eqb. destruct (list_eq_dec ascii_dec a b); split; congruence.
Qed.

Lemma str_eqb_neq (a b : str) : str_eqb a b = false <-> a <> b.
Proof.
  unfold str_eqb. destruct (list_eq_dec ascii_dec a b); split; congruence.
Qed.

Lemma str_eqb_refl (a : str) : str_eqb a a = true.
Proof. now apply str_eqb_eq. Qed.

Example int_float_100 : int_float (py "100") = Ok 100%Z.
Proof. vm_compute. reflexivity. Qed.

Example int_float_frac : int_float (py " 1_234.75e1 ") = Ok 12347%Z.
Proof. vm_compute. reflexivity. Qed.

Example int_float_round : int_float (py "0.99999999999999999999") = Ok 1%Z.
Proof. vm_compute. reflexivity. Qed.

Example int_float_big : int_float (py "9007199254740993") = Ok 9007199254740992%Z.
Proof. vm_compute. reflexivity. Qed.

Example int_float_neg : int_float (py "-7.9") = Ok (-7)%Z.
Proof. vm_compute. reflexivity. Qed.

Example int_float_abc : int_float (py "abc") = Raise ValueError.
Proof. vm_compute. reflexivity. Qed.

Example int_float_nan : int_float (py "NaN") = Raise ValueError.
Proof. vm_compute. reflexivity. Qed.

Example int_float_inf : int_float (py "-Infinity") = Raise OverflowError.
Proof. vm_compute. reflexivity. Qed.

Example int_float_huge : int_float (py "1e400") = Raise OverflowError.
Proof. vm_compute. reflexivity. Qed.

Example int_float_bad_exp : int_float (py "1e") = Raise ValueError.
Proof. vm_compute. reflexivity. Qed.

(** ** Text normalisation *)

Section CleanTextExamples.
Import CleanText.

Example clean_spaces : clean_str (py "  a   b  ") = py "a b".
Proof. vm_compute. reflexivity. Qed.
Example clean_hyphens : clean_str (py "a -----   b") = py "a ----- b".
Proof. vm_compute. reflexivity. Qed.
Example clean_numhyph : clean_str (py "12'   - x") = py "12'-- x".
Proof. vm_compute. reflexivity. Qed.
Example clean_escape : clean_str (py "it\'s") = py "it's".
Proof. vm_compute. reflexivity. Qed.
Example clean_marker : clean_str (py "__HYPHEN_12__") = py "------------".
Proof. vm_compute. reflexivity. Qed.
Example clean_int : clean_text (PyInt (-120)) = py "-120".
Proof. vm_compute. reflexivity. Qed.
Example py_int_ex : py_int (py " +1_000 ") = Some 1000%Z.
Proof. vm_compute. reflexivity. Qed.
Example py_int_bad : py_int (py "1__0") = None.
Proof. vm_compute. reflexivity. Qed.

End CleanTextExamples.

Section CleanTextConversion.
Import CleanText.

(** C7 (as amended).  For an argument that is not a string, [clean_text]
    gives the empty string when it is [None] and [str(text)] otherwise. *)
Theorem clean_text_non_string (text : pyval) :
  (forall s, text <> PyStr s) ->
  clean_text text = match text with PyNone => [] | other => py_str other end.
Proof.
  intros H. destruct text as [|s|z|b]; try reflexivity.
  exfalso. now apply (H s).
Qed.

Lemma clean_text_non_string_witness :
  clean_text PyNone = [] /\ clean_text (PyInt 5) = py "5"
  /\ clean_text (PyBool true) = py "True".
Proof.
  split; [|split].
  - rewrite (@clean_text_non_string PyNone); [reflexivity | discriminate].
  - rewrite (@clean_text_non_string (PyInt 5)); [reflexivity | discriminate].
  - rewrite (@clean_text_non_string (PyBool true)); [reflexivity | discriminate].
Defined.

(** C7 as stated fails: the integer 5 becomes ["5"], not the empty
    string. *)
Lemma clean_text_non_string_not_empty :
  ~ (forall text : pyval, (forall s, text <> PyStr s) -> clean_text text = []).
Proof.
  intros H. specialize (H (PyInt 5)).
  assert (E : clean_text (PyInt 5) = []) by (apply H; discriminate).
  vm_compute in E. discriminate.
Qed.

End CleanTextConversion.

(** ** Text reconstruction *)

Section TextBlockProperties.
Import TextBlock.

Variable block_strings : list element.

Example merge_computer :
  process_text_block
    [String_ "com-" "HypPart1" "computer" "0.5"; String_ "puter" "HypPart2" "computer" "0.25"]
  = (py "computer", [S754_finite false 4503599627370496 (-53)]).
Proof. vm_compute. reflexivity. Qed.

Example numeric_12 :
  fst (process_text_block
    [String_ "12" "HypPart1" "" "1"; String_ "--" "" "" "1"])
  = py "12- --".
Proof. vm_compute. reflexivity. Qed.

(** Split on the look-ahead of cases 2 and 3. *)
Ltac case_next next_s :=
  match goal with
  | |- context [match ?x with Some _ => _ | None => _ end] =>
      destruct x as [next_s|]
  end.

Lemma i_emit st w wc b : i (emit st w wc b) = S (i st).
Proof. reflexivity. Qed.

Lemma i_case34 st s : i (case34 block_strings st s) = S (i st).
Proof.
  unfold case34.
  case_next next_s; [|reflexivity].
  destruct (str_eqb (subs_type next_s) _); [|reflexivity].
  destruct (merge_guard s next_s); reflexivity.
Qed.

(** Every pass through the body advances the index by one. *)
Lemma i_body st :
  i st < length block_strings -> i (body block_strings st) = S (i st).
Proof.
  intros Hlt. unfold body.
  destruct (skip_next st); [reflexivity|].
  destruct (nth_error block_strings (i st)) as [s|] eqn:Hs.
  - destruct (truthy (content s) && match_multi_hyphen (content s)); [reflexivity|].
    case_next next_s.
    + destruct (numeric_next next_s); [reflexivity | apply i_case34].
    + apply i_case34.
  - apply nth_error_None in Hs. lia.
Qed.

Lemma run_S k : run block_strings (S k) = body block_strings (run block_strings k).
Proof. reflexivity. Qed.

Lemma i_run k : k <= length block_strings -> i (run block_strings k) = k.
Proof.
  induction k as [|k IH]; intros Hk; [reflexivity|].
  rewrite run_S, i_body; rewrite IH; lia.
Qed.

(** The loop leaves with the state reached after [len(block_strings)]
    passes: the fuel it is given is enough. *)
Lemma while_run fuel k :
  k + fuel = length block_strings ->
  while fuel block_strings (run block_strings k)
  = run block_strings (length block_strings).
Proof.
  revert k. induction fuel as [|fuel IH]; intros k Hk; simpl.
  - f_equal. lia.
  - rewrite i_run by lia.
    destruct (k <? length block_strings) eqn:Hlt.
    + rewrite <- run_S. apply IH. lia.
    + apply Nat.ltb_ge in Hlt. lia.
Qed.

Lemma final_run : final block_strings = run block_strings (length block_strings).
Proof. apply (while_run (length block_strings) 0). reflexivity. Qed.

Lemma final_exits : i (final block_strings) = length block_strings.
Proof. rewrite final_run. now apply i_run. Qed.

(** A token is skipped only as the second half of a merged pair. *)
Lemma skip_case34 st s :
  skip_next (case34 block_strings st s) = true ->
  exists next_s, nth_error block_strings (i st + 1) = Some next_s
                 /\ subs_type next_s = py "HypPart2".
Proof.
  unfold case34.
  destruct (str_eqb (subs_type s) _ && _); [|discriminate].
  destruct (nth_error block_strings (i st + 1)) as [next_s|]; [|discriminate].
  destruct (str_eqb (subs_type next_s) (py "HypPart2")) eqn:E; [|discriminate].
  intros _. exists next_s. split; [reflexivity | now apply str_eqb_eq].
Qed.

Lemma skip_body st :
  skip_next (body block_strings st) = true ->
  exists next_s, nth_error block_strings (i st + 1) = Some next_s
                 /\ subs_type next_s = py "HypPart2".
Proof.
  unfold body.
  destruct (skip_next st) eqn:Hsk; [discriminate|].
  destruct (nth_error block_strings (i st)) as [s|]; [|congruence].
  destruct (truthy (content s) && match_multi_hyphen (content s)); [discriminate|].
  case_next next_s.
  - destruct (numeric_next next_s); [discriminate | apply skip_case34].
  - apply skip_case34.
Qed.

Lemma skip_run k :
  k <= length block_strings ->
  skip_next (run block_strings k) = true ->
  exists t, nth_error block_strings k = Some t /\ subs_type t = py "HypPart2".
Proof.
  destruct k as [|k]; intros Hk; [discriminate|].
  rewrite run_S. intros H. apply skip_body in H.
  rewrite i_run in H by lia. now replace (k + 1) with (S k) in H by lia.
Qed.

(** So a first half is always looked at. *)
Lemma HypPart1_not_skipped k s :
  nth_error block_strings k = Some s ->
  subs_type s = py "HypPart1" ->
  skip_next (run block_strings k) = false.
Proof.
  intros Hs H1.
  destruct (skip_next (run block_strings k)) eqn:E; [|reflexivity].
  apply skip_run in E.
  - destruct E as (t & Ht & H2). rewrite Hs in Ht. injection Ht as <-.
    rewrite H1 in H2. discriminate.
  - apply Nat.lt_le_incl, nth_error_Some. congruence.
Qed.

(** Each emitted word comes with one confidence value. *)
Lemma lengths_case34 st s :
  length (words st) = length (word_confidences st) ->
  length (words (case34 block_strings st s))
  = length (word_confidences (case34 block_strings st s)).
Proof.
  intros H. unfold case34.
  case_next next_s;
    [destruct (str_eqb (subs_type next_s) _); [destruct (merge_guard s next_s)|]|];
    simpl; rewrite !length_app; simpl; lia.
Qed.

Lemma lengths_body st :
  length (words st) = length (word_confidences st) ->
  length (words (body block_strings st))
  = length (word_confidences (body block_strings st)).
Proof.
  intros H. unfold body.
  destruct (skip_next st); [exact H|].
  destruct (nth_error block_strings (i st)) as [s|]; [|exact H].
  destruct (truthy (content s) && match_multi_hyphen (content s)).
  { simpl. rewrite !length_app. simpl. lia. }
  case_next next_s.
  - destruct (numeric_next next_s).
    + simpl. rewrite !length_app. simpl. lia.
    + now apply lengths_case34.
  - now apply lengths_case34.
Qed.

Lemma lengths_run k :
  length (words (run block_strings k)) = length (word_confidences (run block_strings k)).
Proof.
  induction k as [|k IH]; [reflexivity|]. rewrite run_S. now apply lengths_body.
Qed.

(** Words are only ever appended. *)
Lemma words_case34 st s :
  exists ws, words (case34 block_strings st s) = words st ++ ws.
Proof.
  unfold case34.
  case_next next_s;
    [destruct (str_eqb (subs_type next_s) _); [destruct (merge_guard s next_s)|]|];
    simpl; eauto.
Qed.

Lemma words_body st :
  exists ws, words (body block_strings st) = words st ++ ws.
Proof.
  unfold body.
  destruct (skip_next st); [exists []; simpl; now rewrite app_nil_r|].
  destruct (nth_error block_strings (i st)) as [s|];
    [|exists []; now rewrite app_nil_r].
  destruct (truthy (content s) && match_multi_hyphen (content s)); [simpl; eauto|].
  case_next next_s.
  - destruct (numeric_next next_s); [simpl; eauto | apply words_case34].
  - apply words_case34.
Qed.

Lemma words_run_le k n :
  exists ws, words (run block_strings (k + n)) = words (run block_strings k) ++ ws.
Proof.
  induction n as [|n [ws IH]].
  - exists []. now rewrite Nat.add_0_r, app_nil_r.
  - replace (k + S n) with (S (k + n)) by lia. rewrite run_S.
    destruct (words_body (run block_strings (k + n))) as [ws' H].
    exists (ws ++ ws'). now rewrite H, IH, app_assoc.
Qed.

Lemma words_final k :
  k <= length block_strings ->
  exists ws, words (final block_strings) = words (run block_strings k) ++ ws.
Proof.
  intros Hk. rewrite final_run.
  destruct (words_run_le k (length block_strings - k)) as [ws H].
  exists ws. rewrite <- H. do 2 f_equal. lia.
Qed.

(** Words and confidence values are appended together. *)
Lemma emitted_case34 st s :
  exists ws cs,
    words (case34 block_strings st s) = words st ++ ws
    /\ word_confidences (case34 block_strings st s) = word_confidences st ++ cs
    /\ length ws = length cs.
Proof.
  unfold case34.
  case_next next_s;
    [destruct (str_eqb (subs_type next_s) _); [destruct (merge_guard s next_s)|]|];
    simpl; eexists [_], [_]; repeat split.
Qed.

Lemma emitted_body st :
  exists ws cs,
    words (body block_strings st) = words st ++ ws
    /\ word_confidences (body block_strings st) = word_confidences st ++ cs
    /\ length ws = length cs.
Proof.
  unfold body.
  destruct (skip_next st); [exists [], []; simpl; now rewrite !app_nil_r|].
  destruct (nth_error block_strings (i st)) as [s|];
    [|exists [], []; now rewrite !app_nil_r].
  destruct (truthy (content s) && match_multi_hyphen (content s));
    [simpl; eexists [_], [_]; repeat split|].
  case_next next_s.
  - destruct (numeric_next next_s);
      [simpl; eexists [_], [_]; repeat split | apply emitted_case34].
  - apply emitted_case34.
Qed.

Lemma emitted_run k n :
  exists ws cs,
    words (run block_strings (k + n)) = words (run block_strings k) ++ ws
    /\ word_confidences (run block_strings (k + n))
       = word_confidences (run block_strings k) ++ cs
    /\ length ws = length cs.
Proof.
  induction n as [|n (ws & cs & IHw & IHc & IHl)].
  - exists [], []. now rewrite Nat.add_0_r, !app_nil_r.
  - replace (k + S n) with (S (k + n)) by lia. rewrite run_S.
    destruct (emitted_body (run block_strings (k + n))) as (ws' & cs' & Hw & Hc & Hl).
    exists (ws ++ ws'), (cs ++ cs'). rewrite Hw, Hc, IHw, IHc, !app_assoc, !length_app.
    repeat split. lia.
Qed.

Lemma emitted_final k :
  k <= length block_strings ->
  exists ws cs,
    words (final block_strings) = words (run block_strings k) ++ ws
    /\ word_confidences (final block_strings)
       = word_confidences (run block_strings k) ++ cs
    /\ length ws = length cs.
Proof.
  intros Hk. rewrite final_run.
  destruct (emitted_run k (length block_strings - k)) as (ws & cs & Hw & Hc & Hl).
  exists ws, cs. rewrite <- Hw, <- Hc.
  replace (k + (length block_strings - k)) with (length block_strings) by lia.
  repeat split. exact Hl.
Qed.

(** Two words that follow each other in the list are one space apart in
    the text. *)
Lemma join_neighbours (sep : str) (a : list str) (x y : str) (b : list str) :
  exists pre post, join sep (a ++ x :: y :: b) = pre ++ x ++ sep ++ y ++ post.
Proof.
  induction a as [|w a (pre & post & IH)].
  - exists [], (match b with [] => [] | _ => sep ++ join sep b end).
    destruct b; simpl; [now rewrite app_nil_r | reflexivity].
  - exists (w ++ sep ++ pre), post.
    change ((w :: a) ++ x :: y :: b) with (w :: (a ++ x :: y :: b)).
    destruct (a ++ x :: y :: b) as [|z l] eqn:E.
    + destruct a; discriminate.
    + change (join sep (w :: z :: l)) with (w ++ sep ++ join sep (z :: l)).
      rewrite IH, <- !app_assoc. reflexivity.
Qed.

Lemma digit_not_hyphen c : is_digit c = true -> is_hyphen c = false.
Proof.
  destruct c as [b0 b1 b2 b3 b4 b5 b6 b7].
  destruct b0, b1, b2, b3, b4, b5, b6, b7; try reflexivity; discriminate.
Qed.

Lemma bare_number_not_multi_hyphen x :
  match_bare_number x = true -> match_multi_hyphen x = false.
Proof.
  destruct x as [|c r]; [discriminate|].
  unfold match_bare_number, match_multi_hyphen. simpl.
  destruct (is_digit c) eqn:D; [|discriminate].
  now rewrite (digit_not_hyphen _ D).
Qed.

Lemma process_text_block_final :
  process_text_block block_strings
  = (join (py " ") (words (final block_strings)), word_confidences (final block_strings)).
Proof. destruct block_strings; reflexivity. Qed.

(** The body at a token that is looked at. *)
Lemma body_at st s :
  skip_next st = false ->
  nth_error block_strings (i st) = Some s ->
  body block_strings st =
    if truthy (content s) && match_multi_hyphen (content s) then
      emit st (content s) (word_confidence s) false
    else
      match
        (if match_bare_number (content s)
            && str_eqb (subs_type s) (py "HypPart1")
            && (i st + 1 <? length block_strings)
         then nth_error block_strings (i st + 1) else None)
      with
      | Some next_s =>
          if numeric_next next_s
          then emit st (content s ++ py "-") (word_confidence s) false
          else case34 block_strings st s
      | None => case34 block_strings st s
      end.
Proof. intros Hsk Hs. unfold body. now rewrite Hsk, Hs. Qed.

Lemma numeric_next_leading next_s :
  numeric_next next_s = match_leading_hyphens (content next_s).
Proof.
  unfold numeric_next.
  destruct (content next_s) as [|c r]; [reflexivity|]. simpl.
  destruct (is_hyphen c); [reflexivity|].
  now rewrite andb_false_r.
Qed.

Lemma multi_hyphen_truthy x : match_multi_hyphen x = true -> truthy x = true.
Proof. destruct x; [discriminate | reflexivity]. Qed.

Lemma multi_hyphen_leading x :
  match_multi_hyphen x = true -> match_leading_hyphens x = true.
Proof.
  destruct x as [|c r]; [discriminate|].
  unfold match_multi_hyphen. simpl.
  destruct (is_hyphen c); [reflexivity | discriminate].
Qed.

Lemma merge_guard_spec s next_s :
  merge_guard s next_s = true <->
  subs_content s <> [] /\ search_multi_hyphen (subs_content s) = false
  /\ match_multi_hyphen (content next_s) = false.
Proof.
  unfold merge_guard. rewrite !andb_true_iff, !negb_true_iff. split.
  - intros [[Ht Hs] Hn]. repeat split; trivial.
    + intros E. rewrite E in Ht. discriminate.
    + destruct (match_multi_hyphen (content next_s)) eqn:E; [|reflexivity].
      now rewrite (multi_hyphen_truthy _ E) in Hn.
  - intros (Ht & Hs & Hn). repeat split; trivial.
    + destruct (subs_content s); [congruence | reflexivity].
    + rewrite Hn. apply andb_false_r.
Qed.

(** Cases 3 and 4 on a pair of halves. *)
Lemma case34_pair k s next_s :
  nth_error block_strings (S k) = Some next_s ->
  subs_type s = py "HypPart1" ->
  subs_type next_s = py "HypPart2" ->
  case34 block_strings (run block_strings k) s =
    if merge_guard s next_s
    then emit (run block_strings k) (subs_content s) (word_confidence s) true
    else emit (run block_strings k) (content s) (word_confidence s) false.
Proof.
  intros Hn H1 H2.
  assert (Hlt : S k < length block_strings) by (apply nth_error_Some; congruence).
  unfold case34. rewrite i_run by lia.
  replace (k + 1) with (S k) by lia.
  rewrite H1, str_eqb_refl, Hn. simpl.
  apply Nat.ltb_lt in Hlt. rewrite Hlt, H2, str_eqb_refl. reflexivity.
Qed.

End TextBlockProperties.

Section TextBlockClaims.
Import TextBlock.

(** C1 (as amended).  A first half at index [k] followed by a second half,
    when the first half is not itself a bare run of hyphens and the
    numeric-tabular rule does not apply to the pair, is merged into the one
    word [SUBS_CONTENT], with the confidence of the first token and the
    second token skipped, if and only if [SUBS_CONTENT] is non-empty and
    has no run of two or more hyphens and the second token is not a bare run
    of hyphens; otherwise the literal content of the first token is emitted
    and the second token is looked at on the next pass. *)
Theorem hyphenation_merge (block_strings : list element) (k : nat) (s next_s : element) :
  nth_error block_strings k = Some s ->
  nth_error block_strings (S k) = Some next_s ->
  subs_type s = py "HypPart1" ->
  subs_type next_s = py "HypPart2" ->
  match_multi_hyphen (content s) = false ->
  (match_bare_number (content s) && match_leading_hyphens (content next_s)) = false ->
  let st := run block_strings k in
  let guards :=
    subs_content s <> [] /\ search_multi_hyphen (subs_content s) = false
    /\ match_multi_hyphen (content next_s) = false in
  (skip_next (run block_strings (S k)) = true <-> guards)
  /\ (guards ->
      run block_strings (S k) = emit st (subs_content s) (word_confidence s) true
      /\ run block_strings (S (S k)) =
           {| i := S (S k); skip_next := false;
              words := words st ++ [subs_content s];
              word_confidences := word_confidences st ++ [word_confidence s] |})
  /\ (~ guards ->
      run block_strings (S k) = emit st (content s) (word_confidence s) false).
Proof.
  intros Hs Hn H1 H2 Hm Hnum st guards.
  assert (Hk : k < length block_strings) by (apply nth_error_Some; congruence).
  assert (Hstep : run block_strings (S k) =
                  if merge_guard s next_s
                  then emit st (subs_content s) (word_confidence s) true
                  else emit st (content s) (word_confidence s) false).
  { rewrite run_S, (@body_at block_strings _ s).
    - rewrite Hm, andb_false_r.
      rewrite i_run by lia. replace (k + 1) with (S k) by lia.
      rewrite H1, str_eqb_refl, Hn.
      assert (Hlt : (S k <? length block_strings) = true)
        by (apply Nat.ltb_lt, nth_error_Some; congruence).
      rewrite Hlt, andb_true_r, andb_true_r.
      destruct (match_bare_number (content s)); simpl in Hnum |- *.
      + rewrite numeric_next_leading, Hnum. now apply case34_pair.
      + now apply case34_pair.
    - now apply HypPart1_not_skipped with (s := s).
    - rewrite i_run by lia. exact Hs. }
  pose proof (merge_guard_spec s next_s) as G. fold guards in G.
  destruct (merge_guard s next_s) eqn:E.
  - assert (HG : guards) by now apply G.
    split; [|split].
    + split; [intros _; exact HG | intros _; now rewrite Hstep].
    + intros _. split; [exact Hstep|].
      rewrite run_S, Hstep. unfold body, emit; simpl.
      subst st. rewrite i_run by lia. reflexivity.
    + intros HnG. contradiction.
  - assert (HG : ~ guards) by (intros HG; apply G in HG; discriminate).
    split; [|split].
    + split; [rewrite Hstep; discriminate | intros HG'; contradiction].
    + intros HG'. contradiction.
    + intros _. exact Hstep.
Qed.

Lemma hyphenation_merge_witness :
  let bs := [String_ "com-" "HypPart1" "computer" "0.5";
             String_ "puter" "HypPart2" "computer" "0.25"] in
  words (run bs 2) = [py "computer"].
Proof.
  intros bs.
  assert (G : subs_content (String_ "com-" "HypPart1" "computer" "0.5") <> []
              /\ search_multi_hyphen (subs_content (String_ "com-" "HypPart1" "computer" "0.5")) = false
              /\ match_multi_hyphen (content (String_ "puter" "HypPart2" "computer" "0.25")) = false).
  { split; [discriminate | split; reflexivity]. }
  pose proof (@hyphenation_merge bs 0 _ _ eq_refl eq_refl eq_refl eq_refl eq_refl eq_refl)
    as (_ & Hm & _).
  destruct (Hm G) as [_ H2]. rewrite H2. reflexivity.
Defined.

(** C1 as stated fails: with the first half ["12"] and the second half
    ["-34"] every guard holds, and yet the numeric-tabular rule emits
    ["12-"] and nothing is merged. *)
Lemma hyphenation_merge_preempted :
  ~ (forall (block_strings : list element) (k : nat) (s next_s : element),
        nth_error block_strings k = Some s ->
        nth_error block_strings (S k) = Some next_s ->
        subs_type s = py "HypPart1" ->
        subs_type next_s = py "HypPart2" ->
        (skip_next (run block_strings (S k)) = true
         /\ words (run block_strings (S k))
            = words (run block_strings k) ++ [subs_content s]
         <->
         subs_content s <> [] /\ search_multi_hyphen (subs_content s) = false
         /\ match_multi_hyphen (content next_s) = false)).
Proof.
  intros H.
  pose (s := String_ "12" "HypPart1" "1234" "1").
  pose (next_s := String_ "-34" "HypPart2" "1234" "1").
  destruct (H [s; next_s] 0 s next_s eq_refl eq_refl eq_refl eq_refl) as [_ Hback].
  destruct Hback as [Hskip _].
  - split; [discriminate | split; reflexivity].
  - vm_compute in Hskip. discriminate.
Qed.

(** Case 2 at a bare number tagged as a first half. *)
Lemma numeric_step (block_strings : list element) (k : nat) (s next_s : element) :
  nth_error block_strings k = Some s ->
  nth_error block_strings (S k) = Some next_s ->
  match_bare_number (content s) = true ->
  subs_type s = py "HypPart1" ->
  run block_strings (S k) =
    if match_leading_hyphens (content next_s)
    then emit (run block_strings k) (content s ++ py "-") (word_confidence s) false
    else case34 block_strings (run block_strings k) s.
Proof.
  intros Hs Hn Hb H1.
  assert (Hk : k < length block_strings) by (apply nth_error_Some; congruence).
  assert (Hlt : (S k <? length block_strings) = true)
    by (apply Nat.ltb_lt, nth_error_Some; congruence).
  rewrite run_S, (@body_at block_strings _ s).
  - rewrite (bare_number_not_multi_hyphen _ Hb), andb_false_r.
    rewrite i_run by lia. replace (k + 1) with (S k) by lia.
    rewrite Hb, H1, str_eqb_refl, Hlt, Hn. simpl.
    now rewrite numeric_next_leading.
  - now apply HypPart1_not_skipped with (s := s).
  - rewrite i_run by lia. exact Hs.
Qed.

(** C2 (as amended).  A bare number, with or without a final apostrophe,
    tagged as a first half and followed by a token whose content starts with
    a hyphen, whatever the tag of that token, is emitted with one hyphen
    appended; a following token whose content is only hyphens, or a second
    half whose content starts with a hyphen, is a case of this.  When the
    following content does not start with a hyphen the rule does not fire
    and cases 3 and 4 decide. *)
Theorem numeric_tabular (block_strings : list element) (k : nat) (s next_s : element) :
  nth_error block_strings k = Some s ->
  nth_error block_strings (S k) = Some next_s ->
  match_bare_number (content s) = true ->
  subs_type s = py "HypPart1" ->
  let st := run block_strings k in
  let fires :=
    run block_strings (S k) = emit st (content s ++ py "-") (word_confidence s) false in
  (match_leading_hyphens (content next_s) = true -> fires)
  /\ ((content next_s <> [] /\ forallb is_hyphen (content next_s) = true)
      \/ (subs_type next_s = py "HypPart2"
          /\ match_leading_hyphens (content next_s) = true) -> fires)
  /\ (match_leading_hyphens (content next_s) = false ->
      run block_strings (S k) = case34 block_strings st s).
Proof.
  intros Hs Hn Hb H1 st fires.
  pose proof (numeric_step _ _ Hs Hn Hb H1) as Hstep.
  split; [|split].
  - intros L. unfold fires. now rewrite Hstep, L.
  - intros [[Hne Hall] | [_ L]]; unfold fires; rewrite Hstep.
    + destruct (content next_s) as [|c r]; [congruence|].
      simpl in Hall |- *. apply andb_true_iff in Hall as [-> _]. reflexivity.
    + now rewrite L.
  - intros L. now rewrite Hstep, L.
Qed.

Lemma numeric_tabular_witness :
  let bs := [String_ "12" "HypPart1" "" "1"; String_ "--" "" "" "1"] in
  words (run bs 1) = [py "12-"].
Proof.
  intros bs.
  pose proof (@numeric_tabular bs 0 _ _ eq_refl eq_refl eq_refl eq_refl) as (Hf & _ & _).
  rewrite (Hf eq_refl). reflexivity.
Defined.

(** C2 as stated fails in its last part: after ["12"], a token ["-abc"]
    that is not a second half and is not made of hyphens only still makes
    the rule fire. *)
Lemma numeric_tabular_fires_on_any_leading_hyphen :
  ~ (forall (block_strings : list element) (k : nat) (s next_s : element),
        nth_error block_strings k = Some s ->
        nth_error block_strings (S k) = Some next_s ->
        match_bare_number (content s) = true ->
        subs_type s = py "HypPart1" ->
        let hyphen_only :=
          content next_s <> [] /\ forallb is_hyphen (content next_s) = true in
        let second_half_hyphen :=
          subs_type next_s = py "HypPart2"
          /\ match_leading_hyphens (content next_s) = true in
        (hyphen_only \/ second_half_hyphen ->
         run block_strings (S k)
         = emit (run block_strings k) (content s ++ py "-") (word_confidence s) false)
        /\ (~ (hyphen_only \/ second_half_hyphen) ->
            run block_strings (S k) = case34 block_strings (run block_strings k) s)).
Proof.
  intros H.
  pose (s := String_ "12" "HypPart1" "" "1").
  pose (next_s := String_ "-abc" "" "" "1").
  destruct (H [s; next_s] 0 s next_s eq_refl eq_refl eq_refl eq_refl) as [_ Hno].
  assert (E : run [s; next_s] 1 = case34 [s; next_s] (run [s; next_s] 0) s).
  { apply Hno. intros [[_ Hall] | [H2 _]]; [vm_compute in Hall | vm_compute in H2]; discriminate. }
  vm_compute in E. discriminate.
Qed.

(** C10.  The numeric-tabular rule leaves the following token in place: a
    bare number tagged as a first half and followed by a bare run of two or
    more hyphens is emitted with a hyphen appended, and the run of hyphens
    is emitted as it is on the next pass, each with its own confidence
    value.  Both words are in the text that [process_text_block] returns,
    one space apart, and both confidence values are in the list it
    returns, at the place of the two words.  The function always returns
    as many confidence values as it emitted words. *)
Theorem numeric_rule_keeps_next (block_strings : list element) :
  process_text_block block_strings
  = (join (py " ") (words (final block_strings)), word_confidences (final block_strings))
  /\ length (words (final block_strings))
     = length (snd (process_text_block block_strings))
  /\ length (words (final block_strings))
     = length (word_confidences (final block_strings))
  /\ forall (k : nat) (s next_s : element),
      nth_error block_strings k = Some s ->
      nth_error block_strings (S k) = Some next_s ->
      match_bare_number (content s) = true ->
      subs_type s = py "HypPart1" ->
      match_multi_hyphen (content next_s) = true ->
      let st := run block_strings k in
      run block_strings (S k)
        = emit st (content s ++ py "-") (word_confidence s) false
      /\ run block_strings (S (S k)) =
           {| i := S (S k); skip_next := false;
              words := words st ++ [content s ++ py "-"; content next_s];
              word_confidences :=
                word_confidences st ++ [word_confidence s; word_confidence next_s] |}
      /\ (exists rest,
            words (final block_strings)
            = words st ++ [content s ++ py "-"; content next_s] ++ rest)
      /\ (exists rest confs,
            process_text_block block_strings
            = (join (py " ") (words st ++ [content s ++ py "-"; content next_s] ++ rest),
               word_confidences st ++ [word_confidence s; word_confidence next_s] ++ confs)
            /\ length (words st) = length (word_confidences st)
            /\ length rest = length confs)
      /\ (exists pre post,
            fst (process_text_block block_strings)
            = pre ++ (content s ++ py "-") ++ py " " ++ content next_s ++ post).
Proof.
  assert (Hfin : process_text_block block_strings
                 = (join (py " ") (words (final block_strings)),
                    word_confidences (final block_strings)))
    by apply process_text_block_final.
  assert (Hlen : length (words (final block_strings))
                 = length (word_confidences (final block_strings))).
  { rewrite final_run. apply lengths_run. }
  split; [exact Hfin|]. split; [now rewrite Hfin|]. split; [exact Hlen|].
  intros k s next_s Hs Hn Hb H1 Hm st.
  assert (Hk : S k < length block_strings) by (apply nth_error_Some; congruence).
  assert (Hstep1 : run block_strings (S k)
                   = emit st (content s ++ py "-") (word_confidence s) false).
  { rewrite (numeric_step _ _ Hs Hn Hb H1).
    now rewrite (multi_hyphen_leading _ Hm). }
  assert (Hstep2 : run block_strings (S (S k)) =
           {| i := S (S k); skip_next := false;
              words := words st ++ [content s ++ py "-"; content next_s];
              word_confidences :=
                word_confidences st ++ [word_confidence s; word_confidence next_s] |}).
  { rewrite run_S, Hstep1. unfold body, emit.
    cbn [skip_next i words word_confidences]. subst st.
    rewrite i_run by lia. rewrite Hn, Hm, (multi_hyphen_truthy _ Hm).
    cbn [andb i words word_confidences]. now rewrite <- !app_assoc. }
  destruct (@emitted_final block_strings (S (S k))) as (rest & confs & Hw & Hc & Hl);
    [lia|].
  rewrite Hstep2 in Hw, Hc. cbn [words word_confidences] in Hw, Hc.
  rewrite <- app_assoc in Hw, Hc.
  split; [exact Hstep1 | split; [exact Hstep2|]].
  split; [exists rest; exact Hw|]. split.
  - exists rest, confs. rewrite Hfin, Hw, Hc.
    split; [reflexivity|]. split; [apply lengths_run | exact Hl].
  - rewrite Hfin, Hw. cbn [fst].
    destruct (join_neighbours (py " ") (words st) (content s ++ py "-")
                (content next_s) rest) as (pre & post & E).
    exists pre, post. exact E.
Qed.

Lemma numeric_rule_keeps_next_witness :
  let bs := [String_ "12" "HypPart1" "" "0.5"; String_ "--" "" "" "0.25"] in
  words (run bs 2) = [py "12-"; py "--"]
  /\ length (word_confidences (run bs 2)) = 2
  /\ fst (process_text_block bs) = py "12- --"
  /\ length (snd (process_text_block bs)) = 2
  /\ (exists rest confs,
        process_text_block bs
        = (join (py " ") ([] ++ [py "12-"; py "--"] ++ rest),
           [] ++ [word_confidence (String_ "12" "HypPart1" "" "0.5");
                  word_confidence (String_ "--" "" "" "0.25")] ++ confs)
        /\ length rest = length confs).
Proof.
  intros bs.
  destruct (numeric_rule_keeps_next bs) as (_ & _ & _ & H).
  destruct (H 0 _ _ eq_refl eq_refl eq_refl eq_refl eq_refl)
    as (_ & H2 & _ & (rest & confs & H4 & _ & H5) & _).
  rewrite H2. split; [reflexivity|]. split; [reflexivity|].
  split; [reflexivity|]. split; [reflexivity|].
  exists rest, confs. split; [exact H4 | exact H5].
Defined.

End TextBlockClaims.

(** ** The structural document *)

Section MetsExamples.
Import Mets.

Example order_3112 :
  let art := article "MODSMD_ARTICLE1"
               [div "TEXT" "3" [area "a"]; div "TEXT" "1" [area "b"];
                div "TEXT" "1" [area "c"]; div "TEXT" "2" [area "d"]] in
  let e := article_entry art in
  codes_text_block_ids e = [py "b"; py "c"; py "d"; py "a"]
  /\ codes_order_map e = [(py "b", 0%Z); (py "c", 1%Z); (py "d", 2%Z); (py "a", 3%Z)].
Proof. vm_compute. split; reflexivity. Qed.

End MetsExamples.

Section MetsOrder.
Import Mets.

(** C4, on the code.  The order of the ids is the stable order by sequence
    number, without repetitions: sequence numbers 3,1,1,2 over a,b,c,d give
    b,c,d,a.  The order map, however, numbers an id by its index in the
    sorted list of all contributions, repetitions included: with [a] pointed
    at twice, [b] is given 2 and not 1. *)
Theorem order_map_counts_repetitions :
  codes_text_block_ids
    (article_entry
       (article "MODSMD_ARTICLE1"
          [div "TEXT" "3" [area "a"]; div "TEXT" "1" [area "b"];
           div "TEXT" "1" [area "c"]; div "TEXT" "2" [area "d"]]))
  = [py "b"; py "c"; py "d"; py "a"]
  /\ codes_text_block_ids (article_entry repeated_area) = [py "a"; py "b"]
  /\ codes_order_map (article_entry repeated_area) = [(py "a", 0%Z); (py "b", 2%Z)].
Proof. vm_compute. repeat split; reflexivity. Qed.

End MetsOrder.

(** ** Geometry of blocks and lines *)

Section Geometry.
Import Alto.

Lemma int_float_exn s x :
  int_float s = Raise x -> x = ValueError \/ x = OverflowError.
Proof.
  unfold int_float. destruct (py_float s) as [f|].
  - destruct f; simpl; intros H; inversion H; auto.
  - intros H. inversion H. auto.
Qed.

Lemma attr_int_cases e name :
  In name geometry_attributes ->
  no_overflow e ->
  (exists z, attr_int e name = Ok z) \/ attr_int e name = Raise ValueError.
Proof.
  intros Hin H. specialize (H name Hin). unfold attr_int in *.
  destruct (int_float (get e name "0")) as [z|x] eqn:E; [eauto|].
  right. destruct (int_float_exn _ E) as [->| ->]; congruence.
Qed.

(** One [try] around the four conversions: they succeed together or the
    handler runs. *)
Lemma dimensions_or_zero_spec msg e :
  no_overflow e ->
  dimensions_or_zero msg e = (warning_unless_all_parse msg e, Ok (all_or_nothing e)).
Proof.
  intros H.
  unfold dimensions_or_zero, dimensions, warning_unless_all_parse, all_parse, all_or_nothing.
  fold (attr_int e "HPOS") (attr_int e "VPOS") (attr_int e "WIDTH") (attr_int e "HEIGHT").
  assert (H1 : In "HPOS" geometry_attributes) by (simpl; auto).
  assert (H2 : In "VPOS" geometry_attributes) by (simpl; auto).
  assert (H3 : In "WIDTH" geometry_attributes) by (simpl; auto).
  assert (H4 : In "HEIGHT" geometry_attributes) by (simpl; auto 6).
  destruct (@attr_int_cases e "HPOS" H1 H) as [[h ->]| ->]; [|reflexivity].
  destruct (@attr_int_cases e "VPOS" H2 H) as [[v ->]| ->]; [|reflexivity].
  destruct (@attr_int_cases e "WIDTH" H3 H) as [[w ->]| ->]; [|reflexivity].
  destruct (@attr_int_cases e "HEIGHT" H4 H) as [[ht ->]| ->]; reflexivity.
Qed.

Lemma add_lines_spec block_id lines : forall g,
  Forall no_overflow lines ->
  for_each lines (add_line block_id) g =
    (flat_map (warning_unless_all_parse
                 (py "Invalid dimension value for line in block " ++ block_id)) lines,
     Ok {| line_widths := line_widths g ++ map (fun l => dim_width (all_or_nothing l)) lines;
           line_heights := line_heights g ++ map (fun l => dim_height (all_or_nothing l)) lines;
           line_hpos := line_hpos g ++ map (fun l => dim_hpos (all_or_nothing l)) lines;
           line_vpos := line_vpos g ++ map (fun l => dim_vpos (all_or_nothing l)) lines;
           block_hpos := block_hpos g;
           block_vpos := block_vpos g;
           block_widths := block_widths g;
           block_heights := block_heights g |}).
Proof.
  induction lines as [|l lines IH]; intros g HF.
  - simpl. rewrite !app_nil_r. now destruct g.
  - inversion HF as [|? ? Hl HF']; subst.
    simpl. unfold add_line at 1.
    rewrite (dimensions_or_zero_spec _ Hl).
    destruct (all_or_nothing l) as [[[h v] w] ht] eqn:E.
    unfold bind at 2. simpl. rewrite app_nil_r.
    unfold bind. rewrite (IH _ HF'). simpl.
    rewrite <- !app_assoc. reflexivity.
Qed.

(** C8 (as amended).  When a block is found and no geometry attribute of it
    or of its lines parses as an infinite float, [process_block] returns the
    block.  The four fields of the block, and of each line, are the
    float-parsed and truncated attributes when all four of that element
    parse; when any of them fails to parse, all four fields of that element
    are zero and one warning is logged for it. *)
Theorem geometry_all_or_nothing
    (block_id : str) (pages : page_info) (bt : block_type)
    (digits : str) (page_root : element) (alto_block_type : string)
    (xml_block : element) (others : list element) :
  match_page block_id = Some digits ->
  dict_get pages ("P"%char :: digits) = Some page_root ->
  alto_block_type_of block_id = Some alto_block_type ->
  find_blocks alto_block_type block_id page_root = Ok (xml_block :: others) ->
  no_overflow xml_block ->
  Forall no_overflow (by_local_name "TextLine" xml_block) ->
  let lines := by_local_name "TextLine" xml_block in
  exists b,
    process_block block_id pages bt =
      (warning_unless_all_parse (py "Invalid dimension value for block " ++ block_id) xml_block
       ++ flat_map (warning_unless_all_parse
                      (py "Invalid dimension value for line in block " ++ block_id)) lines,
       Ok (Some b))
    /\ block_hpos (geometry b) = [dim_hpos (all_or_nothing xml_block)]
    /\ block_vpos (geometry b) = [dim_vpos (all_or_nothing xml_block)]
    /\ block_widths (geometry b) = [dim_width (all_or_nothing xml_block)]
    /\ block_heights (geometry b) = [dim_height (all_or_nothing xml_block)]
    /\ line_hpos (geometry b) = map (fun l => dim_hpos (all_or_nothing l)) lines
    /\ line_vpos (geometry b) = map (fun l => dim_vpos (all_or_nothing l)) lines
    /\ line_widths (geometry b) = map (fun l => dim_width (all_or_nothing l)) lines
    /\ line_heights (geometry b) = map (fun l => dim_height (all_or_nothing l)) lines.
Proof.
  intros Hp Hd Ht Hf Hb Hl lines.
  unfold process_block. rewrite Hp, Hd, Ht, Hf.
  unfold lift, bind at 1. cbv beta iota.
  destruct (match by_local_name "String" xml_block with
            | [] => ([], [])
            | _ :: _ => let (t, c) := TextBlock.process_text_block
                                        (by_local_name "String" xml_block) in ([t], c)
            end) as [text confs].
  rewrite (dimensions_or_zero_spec _ Hb).
  destruct (all_or_nothing xml_block) as [[[h v] w] ht] eqn:E.
  unfold bind at 1. rewrite (add_lines_spec _ _ Hl).
  unfold bind, ret. simpl. rewrite app_nil_r.
  eexists. split; [reflexivity|]. simpl. repeat split; reflexivity.
Qed.

Lemma geometry_all_or_nothing_witness :
  exists b,
    snd (process_block (py "P1_TB1")
           [(py "P1", page [TextBlock_ "P1_TB1" "abc" "7" "100" "20"
                              [TextLine_ "1.9" "2" "3" "4" []]])] content)
    = Ok (Some b)
    /\ block_widths (geometry b) = [0%Z] /\ line_hpos (geometry b) = [1%Z].
Proof.
  pose (l := TextLine_ "1.9" "2" "3" "4" []).
  pose (x := TextBlock_ "P1_TB1" "abc" "7" "100" "20" [l]).
  assert (Hno : forall e, In e [x; l] -> no_overflow e).
  { intros e He name Hn.
    destruct He as [<-|[<-|[]]]; destruct Hn as [<-|[<-|[<-|[<-|[]]]]];
      vm_compute; discriminate. }
  destruct (@geometry_all_or_nothing (py "P1_TB1") [(py "P1", page [x])] content
              (py "1") (page [x]) "TextBlock" x [] eq_refl eq_refl eq_refl eq_refl)
    as (b & Hb & _ & _ & Hw & _ & Hh & _).
  - apply Hno. simpl. auto.
  - constructor; [apply Hno; simpl; auto | constructor].
  - exists b. fold l x. rewrite Hb. simpl. split; [reflexivity|]. split; assumption.
Defined.

(** C8 as stated fails: when [HPOS] does not parse, the width 100 that does
    parse is not kept. *)
Lemma parsed_attribute_not_kept :
  ~ (forall (block_id : str) (pages : page_info) (bt : block_type)
            (digits : str) (page_root : element) (alto_block_type : string)
            (xml_block : element) (others : list element) (w : Z),
        match_page block_id = Some digits ->
        dict_get pages ("P"%char :: digits) = Some page_root ->
        alto_block_type_of block_id = Some alto_block_type ->
        find_blocks alto_block_type block_id page_root = Ok (xml_block :: others) ->
        attr_int xml_block "WIDTH" = Ok w ->
        exists log b,
          process_block block_id pages bt = (log, Ok (Some b))
          /\ block_widths (geometry b) = [w]).
Proof.
  intros H.
  pose (x := TextBlock_ "P1_TB1" "abc" "7" "100" "20" []).
  destruct (H (py "P1_TB1") [(py "P1", page [x])] content (py "1") (page [x])
              "TextBlock" x [] 100%Z eq_refl eq_refl eq_refl eq_refl eq_refl)
    as (log & b & Hb & Hw).
  vm_compute in Hb. inversion Hb; subst. discriminate.
Qed.

End Geometry.

(** ** Assembly of the articles *)

Section Assembly.
Import Mets Alto.


Lemma dict_keys_set_new {V : Type} (d : dict V) k v :
  ~ In k (dict_keys d) -> dict_keys (dict_set d k v) = dict_keys d ++ [k].
Proof.
  induction d as [|[k' v'] d IH]; simpl; intros H; [reflexivity|].
  destruct (str_eqb k' k) eqn:E.
  - apply str_eqb_eq in E. tauto.
  - simpl. f_equal. apply IH. tauto.
Qed.

Lemma dict_set_not_nil {V : Type} (d : dict V) k v : dict_set d k v <> [].
Proof. destruct d as [|[k' v'] d]; simpl; [|destruct (str_eqb k' k)]; discriminate. Qed.



Lemma returns_logging l msg : returns (logging l msg).
Proof. now exists [(l, msg)], tt. Qed.




Lemma has_blocks_false data :
  has_blocks data = false ->
  codes_title_block_ids data = [] /\ codes_text_block_ids data = [].
Proof.
  unfold has_blocks.
  destruct (codes_title_block_ids data); [|discriminate].
  destruct (codes_text_block_ids data); [auto | discriminate].
Qed.

(** A pass over an article that lists no block. *)
Lemma extract_step_skip pages texts sk article_id data :
  has_blocks data = false ->
  exists log, extract_step pages (texts, sk) (article_id, data) = (log, Ok (texts, S sk)).
Proof.
  intros H. apply has_blocks_false in H as [H1 H2].
  unfold extract_step. rewrite H1, H2. eexists. reflexivity.
Qed.




Lemma filter_partition_length {A : Type} (p : A -> bool) (l : list A) :
  length (filter p l) + length (filter (fun x => negb (p x)) l) = length l.
Proof.
  induction l as [|x l IH]; [reflexivity|]. simpl.
  destruct (p x); simpl; lia.
Qed.




End Assembly.

(** ** The issue *)

Section Issue.
Import Mets Alto.

Lemma parse_pages_from_ok (ps : list parsed) : forall i acc,
  ~ In NoDocument ps ->
  exists log pages,
    parse_pages_from i ps acc = (log, Ok pages)
    /\ (acc <> [] \/ (exists root, In (Root root) ps) -> pages <> []).
Proof.
  induction ps as [|p ps IH]; intros i acc Hno.
  - exists [], acc. split; [reflexivity|]. intros [H|[root []]]. exact H.
  - assert (Hno' : ~ In NoDocument ps) by (intros H; apply Hno; simpl; auto).
    destruct p as [root| |].
    + simpl.
      destruct (IH (S i) (dict_set acc ("P"%char :: str_of_N (N.of_nat (i + 1))) root) Hno')
        as (log & pages & E & Hne).
      exists log, pages. split; [exact E|]. intros _. apply Hne. left.
      apply dict_set_not_nil.
    + simpl. destruct (IH (S i) acc Hno') as (log & pages & E & Hne).
      unfold logging, bind. rewrite E. eexists _, pages. split; [reflexivity|].
      intros [H|[root [H|H]]]; [auto | discriminate | apply Hne; eauto].
    + exfalso. apply Hno. simpl. auto.
Qed.

(** The loop over articles none of which lists a block. *)
Lemma extract_loop_all_skipped pages (cs : dict article_codes) : forall texts0 sk0,
  (forall article_id data, In (article_id, data) cs -> has_blocks data = false) ->
  exists log,
    for_each cs (extract_step pages) (texts0, sk0) = (log, Ok (texts0, sk0 + length cs)).
Proof.
  induction cs as [|[article_id data] cs IH]; intros texts0 sk0 H.
  - exists []. simpl. now rewrite Nat.add_0_r.
  - destruct (@extract_step_skip pages texts0 sk0 article_id data) as [l1 E1].
    { apply (H article_id). simpl. auto. }
    destruct (IH texts0 (S sk0)) as [log E].
    { intros a d Hin. apply (H a). simpl. auto. }
    exists (l1 ++ log). cbn [for_each]. rewrite E1. unfold bind. rewrite E.
    cbn [length]. do 3 f_equal. lia.
Qed.

(** C6 (as amended).  An issue whose structural document parses and holds
    articles, all of which list no title block and no content block, with a
    page that parses and a table that can be written, is reported as a
    success: the flag is [True], no article is extracted and every article
    is counted as skipped. *)
Theorem all_skipped_is_reported_as_success
    (issue_code : str) (files : issue_files) (mets_root : element)
    (log0 : list log_entry) (codes : dict article_codes) :
  tar_found files = true ->
  mets_file files = Some (Root mets_root) ->
  mets2codes_inner (Root mets_root) issue_code = (log0, Ok codes) ->
  codes <> [] ->
  (forall article_id data, In (article_id, data) codes -> has_blocks data = false) ->
  (exists root, In (Root root) (page_files files)) ->
  ~ In NoDocument (page_files files) ->
  to_parquet_ok files = true ->
  snd (process_issue issue_code files)
  = (true, 0, length (page_files files), length codes).
Proof.
  intros Htar Hmets Hcodes Hne Hskip Hroot Hno Hw.
  destruct (@parse_pages_from_ok (page_files files) 0 [] Hno) as (lp & pages & Ep & Hp).
  assert (Hpages : pages <> []) by (apply Hp; auto).
  destruct (@extract_loop_all_skipped pages codes [] 0 Hskip) as (le & Ee).
  unfold process_issue. rewrite Htar. cbn [negb].
  unfold process_tar. rewrite Hmets.
  destruct (page_files files) as [|p ps] eqn:Epf.
  { destruct Hroot as [root []]. }
  rewrite Hcodes. unfold bind at 1.
  destruct codes as [|c codes']; [congruence|].
  unfold parse_pages. rewrite Ep. unfold bind at 1.
  destruct pages as [|pg pages']; [congruence|].
  unfold extract_text_from_alto. unfold dict in *. rewrite Ee.
  rewrite Hw. cbn [Nat.add length].
  unfold bind, logging, ret. cbn [fst snd length Nat.sub Nat.ltb Nat.leb].
  reflexivity.
Qed.

Lemma all_skipped_is_reported_as_success_witness :
  snd (process_issue (py "X_18990101")
         {| tar_found := true;
            mets_file := Some (Root (Element (py "mets") [] [article "MODSMD_ARTICLE1" []]));
            page_files := [Root (page [])];
            to_parquet_ok := true |})
  = (true, 0, 1, 1).
Proof.
  refine (@all_skipped_is_reported_as_success (py "X_18990101")
            {| tar_found := true;
               mets_file := Some (Root (Element (py "mets") []
                                          [article "MODSMD_ARTICLE1" []]));
               page_files := [Root (page [])];
               to_parquet_ok := true |}
            (Element (py "mets") [] [article "MODSMD_ARTICLE1" []]) _ _
            eq_refl eq_refl eq_refl _ _ _ _ eq_refl).
  - discriminate.
  - intros a d [H|[]]. inversion H. reflexivity.
  - exists (page []). simpl. auto.
  - intros [H|[]]. discriminate.
Defined.

(** C6 as stated fails: such an issue does not report a failure. *)
Lemma all_skipped_is_not_a_failure :
  ~ (forall (issue_code : str) (files : issue_files) (mets_root : element)
            (log0 : list log_entry) (codes : dict article_codes),
        tar_found files = true ->
        mets_file files = Some (Root mets_root) ->
        mets2codes_inner (Root mets_root) issue_code = (log0, Ok codes) ->
        codes <> [] ->
        (forall article_id data, In (article_id, data) codes -> has_blocks data = false) ->
        (exists root, In (Root root) (page_files files)) ->
        ~ In NoDocument (page_files files) ->
        to_parquet_ok files = true ->
        flag_of (snd (process_issue issue_code files)) = false).
Proof.
  intros H.
  specialize (H (py "X_18990101")
                {| tar_found := true;
                   mets_file := Some (Root (Element (py "mets") []
                                              [article "MODSMD_ARTICLE1" []]));
                   page_files := [Root (page [])];
                   to_parquet_ok := true |}
                (Element (py "mets") [] [article "MODSMD_ARTICLE1" []]) _ _
                eq_refl eq_refl eq_refl).
  assert (E : flag_of (true, 0, 1, 1) = false).
  { apply H.
    - discriminate.
    - intros a d [Hin|[]]. inversion Hin. reflexivity.
    - exists (page []). simpl. auto.
    - intros [Hin|[]]. discriminate.
    - reflexivity. }
  discriminate.
Qed.

End Issue.

(** ** Substitution passes *)

Section Substitution.

Variable m : matcher.

Lemma re_sub_from_skipn : forall (s : str) (n : nat),
  re_sub_from m n s = re_sub m (skipn n s).
Proof.
  induction s as [|c s IH]; intros n.
  - now destruct n.
  - destruct n as [|n]; [reflexivity|]. simpl. apply IH.
Qed.

(** Where the pattern does not match, the character is kept. *)
Lemma re_sub_keep c s :
  m (c :: s) = None -> re_sub m (c :: s) = c :: re_sub m s.
Proof. intros H. unfold re_sub. simpl. now rewrite H. Qed.

(** Where it matches, the replacement is put and the scan goes on after
    the match. *)
Lemma re_sub_match c s repl n :
  m (c :: s) = Some (repl, S n) ->
  re_sub m (c :: s) = repl ++ re_sub m (skipn n s).
Proof.
  intros H. unfold re_sub at 1. simpl. rewrite H. simpl.
  now rewrite Nat.sub_0_r, re_sub_from_skipn.
Qed.

Lemma re_sub_match_app a b repl :
  a <> [] ->
  m (a ++ b) = Some (repl, length a) ->
  re_sub m (a ++ b) = repl ++ re_sub m b.
Proof.
  destruct a as [|c a]; [congruence|]. intros _ H. simpl in *.
  rewrite (re_sub_match H). f_equal. f_equal.
  rewrite skipn_app, skipn_all, Nat.sub_diag. reflexivity.
Qed.

(** A prefix in which no suffix starts a match is kept as it is. *)
Lemma re_sub_keep_app a b :
  (forall a1 c a2, a = a1 ++ c :: a2 -> m (c :: a2 ++ b) = None) ->
  re_sub m (a ++ b) = a ++ re_sub m b.
Proof.
  induction a as [|c a IH]; intros H; [reflexivity|].
  simpl. rewrite re_sub_keep by (apply (H [] c a); reflexivity).
  f_equal. apply IH. intros a1 c' a2 E. apply (H (c :: a1) c' a2). now rewrite E.
Qed.

(** A pattern whose matches all start with a character of the class [p]
    keeps every run of other characters. *)
Lemma re_sub_inert (p : ascii -> bool) a b :
  (forall c s, p c = false -> m (c :: s) = None) ->
  forallb (fun c => negb (p c)) a = true ->
  re_sub m (a ++ b) = a ++ re_sub m b.
Proof.
  intros Hm Ha. apply re_sub_keep_app. intros a1 c a2 E. apply Hm.
  rewrite E, forallb_app in Ha. simpl in Ha.
  apply andb_true_iff in Ha as [_ Ha]. apply andb_true_iff in Ha as [Ha _].
  now apply negb_true_iff.
Qed.

End Substitution.

(** ** Characters and decimal numbers *)

Ltac ascii_cases c :=
  let b0 := fresh in let b1 := fresh in let b2 := fresh in let b3 := fresh in
  let b4 := fresh in let b5 := fresh in let b6 := fresh in let b7 := fresh in
  destruct c as [b0 b1 b2 b3 b4 b5 b6 b7];
  destruct b0, b1, b2, b3, b4, b5, b6, b7;
  try reflexivity; try discriminate.

Lemma space_not_hyphen c : is_space c = true -> is_hyphen c = false.
Proof. ascii_cases c. Qed.

Lemma space_not_digit c : is_space c = true -> is_digit c = false.
Proof. ascii_cases c. Qed.

Lemma space_not_underscore c : is_space c = true -> Ascii.eqb c underscore = false.
Proof. ascii_cases c. Qed.

Lemma space_not_apostrophe c : is_space c = true -> Ascii.eqb c apostrophe = false.
Proof. ascii_cases c. Qed.

Lemma digit_not_space c : is_digit c = true -> is_space c = false.
Proof. ascii_cases c. Qed.

Lemma digit_not_underscore c : is_digit c = true -> Ascii.eqb c underscore = false.
Proof. ascii_cases c. Qed.

Lemma digit_not_apostrophe c : is_digit c = true -> Ascii.eqb c apostrophe = false.
Proof. ascii_cases c. Qed.

Lemma apostrophe_class c :
  Ascii.eqb c apostrophe = true ->
  is_space c = false /\ is_hyphen c = false /\ is_digit c = false
  /\ Ascii.eqb c underscore = false.
Proof. ascii_cases c. intros _. repeat split. Qed.

Lemma hyphen_class c :
  is_hyphen c = true ->
  c = hyphen /\ is_space c = false /\ is_digit c = false
  /\ Ascii.eqb c underscore = false /\ Ascii.eqb c apostrophe = false.
Proof. ascii_cases c. intros _. repeat split. Qed.

Lemma underscore_class c :
  Ascii.eqb c underscore = true ->
  c = underscore /\ is_space c = false /\ is_digit c = false /\ is_hyphen c = false.
Proof. ascii_cases c. intros _. repeat split. Qed.

Lemma word_class c :
  Chunks.is_word c = true ->
  is_space c = false /\ is_hyphen c = false /\ Ascii.eqb c backslash = false.
Proof. ascii_cases c; intros _; repeat split. Qed.

Lemma string_of_uint_digits d :
  forallb is_digit (list_ascii_of_string (NilEmpty.string_of_uint d)) = true.
Proof. induction d; simpl; auto. Qed.

Lemma str_of_N_digits n : forallb is_digit (str_of_N n) = true.
Proof. apply string_of_uint_digits. Qed.

Lemma str_of_N_nonempty n : str_of_N n <> [].
Proof.
  unfold str_of_N. destruct n as [|p]; [discriminate|].
  simpl. pose proof (DecimalPos.Unsigned.to_uint_nonnil p) as H.
  destruct (Pos.to_uint p); [congruence | discriminate ..].
Qed.

(** [int(str(n)) == n] *)
Lemma digits_value_str_of_N n : digits_value (str_of_N n) = Z.of_N n.
Proof.
  unfold digits_value, str_of_N.
  rewrite string_of_list_ascii_of_string, NilEmpty.usu.
  now rewrite DecimalN.Unsigned.of_to.
Qed.

Lemma span_all p (a b : str) :
  forallb p a = true ->
  match b with [] => true | c :: _ => negb (p c) end = true ->
  span p (a ++ b) = (a, b).
Proof.
  intros Ha Hb. induction a as [|x a IH]; simpl in *.
  - destruct b as [|c b]; [reflexivity|]. simpl.
    apply negb_true_iff in Hb. now rewrite Hb.
  - apply andb_true_iff in Ha as [Hx Ha]. now rewrite Hx, IH.
Qed.

Lemma span_none p (b : str) :
  match b with [] => true | c :: _ => negb (p c) end = true ->
  span p b = ([], b).
Proof. intros H. now apply (@span_all p [] b). Qed.

Lemma span_spec p (s : str) :
  let (a, b) := span p s in
  s = a ++ b /\ forallb p a = true
  /\ match b with [] => true | c :: _ => negb (p c) end = true.
Proof.
  induction s as [|c s IH]; simpl; [auto|].
  destruct (p c) eqn:E.
  - destruct (span p s) as [a b]. destruct IH as (-> & Ha & Hb).
    simpl. rewrite E. auto.
  - simpl. rewrite E. auto.
Qed.

Lemma strip_prefix_app p s : strip_prefix p (p ++ s) = Some s.
Proof.
  induction p as [|a p IH]; [reflexivity|]. simpl. now rewrite Ascii.eqb_refl.
Qed.

(** ** The passes of [clean_text] on chunks *)

Section Passes.
Import CleanText Chunks.

(** A substitution that puts back what it matched changes nothing. *)
Lemma re_sub_same (m : matcher) :
  (forall s repl n, m s = Some (repl, n) -> n <> 0 /\ s = repl ++ skipn n s) ->
  forall s, re_sub m s = s.
Proof.
  intros Hm s.
  induction s as [s IH] using (induction_ltof1 _ (@length ascii)). unfold ltof in IH.
  destruct s as [|c s]; [reflexivity|].
  destruct (m (c :: s)) as [[repl n]|] eqn:E.
  - destruct (Hm _ _ _ E) as [Hn Hs]. destruct n as [|n]; [congruence|].
    rewrite (@re_sub_match m c s repl n E). rewrite IH.
    + simpl in Hs. now rewrite <- Hs.
    + simpl. pose proof (length_skipn n s). lia.
  - rewrite re_sub_keep by exact E. f_equal. apply IH. simpl. lia.
Qed.

Lemma take_apostrophe_spec s :
  let (ap, r) := take_apostrophe s in
  s = ap ++ r /\ (ap = [] \/ ap = [apostrophe]).
Proof.
  destruct s as [|c s]; simpl; [auto|].
  destruct (Ascii.eqb c apostrophe) eqn:E; simpl; [|auto].
  apply Ascii.eqb_eq in E. subst. auto.
Qed.

Lemma hyphens_repeat (hs : str) :
  forallb is_hyphen hs = true -> hs = repeat hyphen (length hs).
Proof.
  induction hs as [|c hs IH]; simpl; [reflexivity|].
  intros H. apply andb_true_iff in H as [Hc H].
  apply hyphen_class in Hc as [-> _]. f_equal. now apply IH.
Qed.

(** The last pass puts back what it matched. *)
Lemma tighten_same s : re_sub m_tighten s = s.
Proof.
  apply re_sub_same. clear s. intros s repl n. unfold m_tighten.
  pose proof (span_spec is_digit s) as Hd.
  destruct (span is_digit s) as [ds r1]. destruct Hd as (-> & _ & _).
  pose proof (take_apostrophe_spec r1) as Ha.
  destruct (take_apostrophe r1) as [ap r2]. destruct Ha as [-> _].
  destruct ds as [|d ds]; [discriminate|].
  destruct r2 as [|c r3]; [discriminate|].
  destruct (is_hyphen c) eqn:Hc; [|discriminate].
  pose proof (span_spec is_hyphen r3) as Hh.
  destruct (span is_hyphen r3) as [hs r4]. destruct Hh as (-> & _ & _).
  destruct hs as [|h hs]; [discriminate|].
  intros [= <- <-]. apply hyphen_class in Hc as [-> _].
  split; [simpl; lia|].
  set (X := (d :: ds) ++ ap ++ hyphen :: h :: hs).
  assert (EX : (d :: ds) ++ ap ++ hyphen :: (h :: hs) ++ r4 = X ++ r4)
    by (unfold X; rewrite <- !app_assoc; reflexivity).
  match goal with
  | |- _ = _ ++ skipn ?n _ =>
      replace n with (length X) by (unfold X; rewrite !length_app; simpl; lia)
  end.
  rewrite EX. change (X ++ r4 = X ++ skipn (length X) (X ++ r4)).
  rewrite skipn_app, skipn_all, Nat.sub_diag. reflexivity.
Qed.

(** Reasoning on a text run of hyphens by run of hyphens. *)
Lemma hyphen_run_ind (P : str -> Prop) :
  P [] ->
  (forall c s, is_hyphen c = false -> P s -> P (c :: s)) ->
  (forall k r, 1 <= k -> match_leading_hyphens r = false -> P r ->
               P (repeat hyphen k ++ r)) ->
  forall s, P s.
Proof.
  intros H0 Hc Hr s.
  induction s as [s IH] using (induction_ltof1 _ (@length ascii)). unfold ltof in IH.
  destruct s as [|c s]; [exact H0|].
  destruct (is_hyphen c) eqn:E.
  - pose proof (span_spec is_hyphen (c :: s)) as Hs.
    destruct (span is_hyphen (c :: s)) as [run rest] eqn:Es.
    destruct Hs as (Heq & Hrun & Hrest).
    simpl in Es. rewrite E in Es. destruct (span is_hyphen s) as [a b].
    injection Es as <- <-.
    rewrite Heq, (hyphens_repeat _ Hrun). apply Hr.
    + simpl. lia.
    + destruct b as [|x b]; [reflexivity|]. simpl. now apply negb_true_iff.
    + apply IH. apply (f_equal (@length ascii)) in Heq.
      rewrite length_app in Heq. simpl in *. lia.
  - apply Hc; [exact E|]. apply IH. simpl. lia.
Qed.

Lemma lex_cons c s : lex (c :: s) = cons_char c (lex s).
Proof. reflexivity. Qed.

(** The first chunk of a text follows its first character. *)
Lemma lex_head_not_Hy r :
  match_leading_hyphens r = false ->
  match lex r with Hy _ :: _ => False | _ => True end.
Proof.
  destruct r as [|c r]; simpl; [auto|]. intros H. unfold cons_char.
  destruct (is_space c) eqn:Es.
  - destruct (lex r) as [|[w|k|x|] l]; exact I.
  - rewrite H. exact I.
Qed.

Lemma lex_head_not_Sp r :
  match r with c :: _ => is_space c | [] => false end = false ->
  match lex r with Sp _ :: _ => False | _ => True end.
Proof.
  destruct r as [|c r]; simpl; [auto|]. intros H. unfold cons_char. rewrite H.
  destruct (is_hyphen c).
  - destruct (lex r) as [|[w|k|x|] l]; exact I.
  - exact I.
Qed.

Lemma lex_head_not_NH r : match lex r with NH :: _ => False | _ => True end.
Proof.
  destruct r as [|c r]; simpl; [auto|]. unfold cons_char.
  destruct (is_space c); [destruct (lex r) as [|[w|k|x|] l]; exact I|].
  destruct (is_hyphen c); [destruct (lex r) as [|[w|k|x|] l]; exact I|exact I].
Qed.

Lemma lex_run k r :
  1 <= k -> match_leading_hyphens r = false ->
  lex (repeat hyphen k ++ r) = Hy k :: lex r.
Proof.
  intros Hk Hr. destruct k as [|k]; [lia|]. clear Hk.
  induction k as [|k IH].
  - simpl. unfold cons_char. simpl.
    pose proof (lex_head_not_Hy _ Hr) as H.
    destruct (lex r) as [|[w|j|x|] l]; try reflexivity. contradiction.
  - change (repeat hyphen (S (S k)) ++ r) with (hyphen :: (repeat hyphen (S k) ++ r)).
    rewrite lex_cons, IH. reflexivity.
Qed.

Lemma marked_cons_char c l :
  is_hyphen c = false -> marked (cons_char c l) = c :: marked l.
Proof.
  intros H. unfold cons_char. rewrite H.
  destruct (is_space c); [|reflexivity].
  destruct l as [|[w|k|x|] l]; reflexivity.
Qed.

Lemma plain_cons_char c l : plain (cons_char c l) = c :: plain l.
Proof.
  unfold cons_char.
  destruct (is_space c); [destruct l as [|[w|k|x|] l]; reflexivity|].
  destruct (is_hyphen c) eqn:H; [|reflexivity].
  apply hyphen_class in H as [-> _].
  destruct l as [|[w|k|x|] l]; reflexivity.
Qed.

(** The chunks of a text spell the text. *)
Lemma plain_lex s : plain (lex s) = s.
Proof.
  induction s as [|c s IH]; [reflexivity|].
  now rewrite lex_cons, plain_cons_char, IH.
Qed.

(** The second pass: each run of two or more hyphens becomes its marker. *)
Lemma protect_hyphens_lex s : re_sub m_protect_hyphens s = marked (lex s).
Proof.
  induction s as [|c s Hc IH|k r Hk Hr IH] using hyphen_run_ind.
  - reflexivity.
  - rewrite re_sub_keep, IH, lex_cons, marked_cons_char; trivial.
    unfold m_protect_hyphens. simpl. now rewrite Hc.
  - rewrite (lex_run _ Hk Hr).
    assert (Hs : span is_hyphen (repeat hyphen k ++ r) = (repeat hyphen k, r)).
    { apply span_all.
      - clear. induction k; simpl; auto.
      - destruct r as [|x r]; [reflexivity|]. simpl in Hr. now rewrite Hr. }
    destruct (2 <=? k) eqn:E2.
    + rewrite re_sub_match_app with (repl := hyphen_marker k).
      * cbn [marked flat_map marked_of]. rewrite E2. fold (marked (lex r)).
        now rewrite IH.
      * destruct k; [lia | discriminate].
      * unfold m_protect_hyphens. rewrite Hs, repeat_length, E2. reflexivity.
    + assert (k = 1) by (apply Nat.leb_gt in E2; lia). subst k.
      simpl. rewrite re_sub_keep.
      * rewrite IH. reflexivity.
      * unfold m_protect_hyphens. change (hyphen :: r) with (repeat hyphen 1 ++ r).
        rewrite Hs. reflexivity.
Qed.

Lemma wf_cons x r : wf (x :: r) = true -> ok_chunk x = true /\ ok_next x r = true /\ wf r = true.
Proof. simpl. rewrite !andb_true_iff. tauto. Qed.

Lemma wf_app_r a b : wf (a ++ b) = true -> wf b = true.
Proof.
  induction a as [|x a IH]; [auto|]. intros H. apply wf_cons in H. tauto.
Qed.

(** The first character of a chunk, as the text with markers has it. *)
Lemma marked_of_first x :
  ok_chunk x = true ->
  exists c t, marked_of x = c :: t /\
    match x with
    | Sp _ => is_space c = true
    | Hy k => if 2 <=? k then c = underscore else c = hyphen
    | Tx ch => c = ch
    | NH => c = underscore
    end.
Proof.
  destruct x as [w|k|ch|]; simpl; intros H.
  - destruct w as [|c w]; [discriminate|]. simpl in H.
    apply andb_true_iff in H as [H _]. eauto.
  - destruct k as [|[|k]]; [discriminate| |].
    + exists hyphen, []. auto.
    + exists underscore. eexists. split; [reflexivity|]. reflexivity.
  - eauto.
  - exists underscore. eexists. split; reflexivity.
Qed.

Lemma marked_stops_digit r :
  wf r = true ->
  match r with Tx c :: _ => is_digit c | _ => false end = false ->
  stops is_digit (marked r) = true.
Proof.
  destruct r as [|x r]; [reflexivity|]. intros H Hx. apply wf_cons in H as (Hc & _ & _).
  destruct (marked_of_first _ Hc) as (c & t & E & Hcl).
  cbn [marked flat_map]. rewrite E. cbn [app stops].
  apply negb_true_iff. destruct x as [w|k|ch|]; cbv beta iota in Hcl.
  - now apply space_not_digit.
  - destruct (2 <=? k); subst; reflexivity.
  - now subst.
  - now subst.
Qed.

Lemma marked_stops_space r :
  wf r = true ->
  match r with Sp _ :: _ => False | _ => True end ->
  stops is_space (marked r) = true.
Proof.
  destruct r as [|x r]; [reflexivity|]. intros H Hx. apply wf_cons in H as (Hc & _ & _).
  destruct (marked_of_first _ Hc) as (c & t & E & Hcl).
  cbn [marked flat_map]. rewrite E. cbn [app stops].
  apply negb_true_iff. destruct x as [w|k|ch|]; cbv beta iota in Hcl.
  - contradiction.
  - destruct (2 <=? k); subst; reflexivity.
  - subst. cbn [ok_chunk] in Hc.
    apply andb_true_iff in Hc as [Hc _]. apply andb_true_iff in Hc as [Hc _].
    now apply negb_true_iff.
  - now subst.
Qed.

Lemma marked_stops_hyphen r :
  wf r = true ->
  match r with Hy 1 :: _ => False | _ => True end ->
  stops is_hyphen (marked r) = true.
Proof.
  destruct r as [|x r]; [reflexivity|]. intros H Hx. apply wf_cons in H as (Hc & _ & _).
  destruct (marked_of_first _ Hc) as (c & t & E & Hcl).
  cbn [marked flat_map]. rewrite E. cbn [app stops].
  apply negb_true_iff. destruct x as [w|k|ch|]; cbv beta iota in Hcl.
  - now apply space_not_hyphen.
  - destruct k as [|[|k]]; [discriminate | contradiction |]. cbn in Hcl. now subst.
  - subst. cbn [ok_chunk] in Hc.
    apply andb_true_iff in Hc as [Hc _]. apply andb_true_iff in Hc as [_ Hc].
    now apply negb_true_iff.
  - now subst.
Qed.

Lemma marked_app a b : marked (a ++ b) = marked a ++ marked b.
Proof. apply flat_map_app. Qed.

Lemma plain_app a b : plain (a ++ b) = plain a ++ plain b.
Proof. apply flat_map_app. Qed.

Lemma restored_app a b : restored (a ++ b) = restored a ++ restored b.
Proof. apply flat_map_app. Qed.

Lemma marked_txs ds : marked (map Tx ds) = ds.
Proof.
  induction ds as [|d ds IH]; [reflexivity|].
  cbn [map marked flat_map marked_of app]. f_equal. exact IH.
Qed.

(** The leading digits of a list of chunks. *)
Lemma leading_digits (l : list chunk) :
  exists ds r,
    l = map Tx ds ++ r /\ forallb is_digit ds = true
    /\ match r with Tx c :: _ => is_digit c | _ => false end = false.
Proof.
  induction l as [|x l (ds & r & -> & Hds & Hr)].
  - exists [], []. auto.
  - destruct x as [w|k|c|].
    + exists [], (Sp w :: map Tx ds ++ r). auto.
    + exists [], (Hy k :: map Tx ds ++ r). auto.
    + destruct (is_digit c) eqn:E.
      * exists (c :: ds), r. simpl. rewrite E. auto.
      * exists [], (Tx c :: map Tx ds ++ r). simpl. auto.
    + exists [], (NH :: map Tx ds ++ r). auto.
Qed.

Lemma N3_txs c ds r :
  ds <> [] -> forallb is_digit ds = true ->
  N3 c (map Tx ds ++ r) = map Tx ds ++ N3 D r.
Proof.
  revert c. induction ds as [|d ds IH]; intros c Hne Hd; [congruence|].
  simpl in Hd. apply andb_true_iff in Hd as [Hd Hds].
  cbn [map app N3 next_ctx]. rewrite Hd.
  replace (bridge c (Tx d) (map Tx ds ++ r)) with false by now destruct c.
  f_equal. destruct ds as [|d' ds]; [reflexivity|]. apply IH; [discriminate | exact Hds].
Qed.

Lemma N3_N_cons x r :
  N3 N (x :: r) = x :: N3 (next_ctx N x) r.
Proof. reflexivity. Qed.

Lemma N3_Hy c k r : N3 c (Hy k :: r) = Hy k :: N3 N r.
Proof. now destruct c. Qed.

Lemma N3_NH c r : N3 c (NH :: r) = NH :: N3 N r.
Proof. now destruct c. Qed.

Lemma N3_Q_ahead r :
  N3 Q r = match r with
           | Sp w :: Hy 1 :: r4 => NH :: Hy 1 :: N3 N r4
           | _ => N3 N r
           end.
Proof.
  destruct r as [|[w|k|c|] r]; try reflexivity.
  destruct r as [|[w'|k|c|] r]; try reflexivity.
  destruct k as [|[|k]]; reflexivity.
Qed.

Lemma N3_D_ahead r :
  match r with Tx c :: _ => is_digit c | _ => false end = false ->
  N3 D r = match numhyph_ahead r with
           | Some (ap, _, r4) => ap ++ NH :: Hy 1 :: N3 N r4
           | None => N3 N r
           end.
Proof.
  intros Hr. destruct r as [|[w|k|c|] r]; try reflexivity.
  - destruct r as [|[w'|k|c|] r]; try reflexivity.
    destruct k as [|[|k]]; reflexivity.
  - cbn [N3 bridge next_ctx]. rewrite Hr.
    destruct (Ascii.eqb c apostrophe) eqn:E.
    + rewrite N3_Q_ahead. cbn [numhyph_ahead].
      destruct r as [|[w'|k|c'|] r]; try reflexivity.
      destruct r as [|[w''|k|c'|] r]; try reflexivity.
      destruct k as [|[|k]]; try reflexivity. now rewrite E.
    + cbn [numhyph_ahead].
      destruct r as [|[w'|k|c'|] r]; try reflexivity.
      destruct r as [|[w''|k|c'|] r]; try reflexivity.
      destruct k as [|[|k]]; try reflexivity. now rewrite E.
Qed.

(** Whitespace and a single hyphen at the start of the text with markers. *)
Lemma space_hyphen_ahead r :
  wf r = true ->
  match r with
  | Sp w :: Hy 1 :: r4 =>
      span is_space (marked r) = (w, hyphen :: marked r4) /\ w <> []
      /\ span is_hyphen (hyphen :: marked r4) = ([hyphen], marked r4)
  | _ =>
      fst (span is_space (marked r)) = []
      \/ fst (span is_hyphen (snd (span is_space (marked r)))) = []
  end.
Proof.
  intros H. destruct r as [|x r]; [left; reflexivity|].
  pose proof H as H'. apply wf_cons in H' as (Hc & Hn & Hr).
  assert (Hnosp : forall y, match y with Sp _ => False | _ => True end ->
                            x = y -> fst (span is_space (marked (x :: r))) = []).
  { intros y Hy ->. rewrite span_none; [reflexivity|].
    apply (marked_stops_space _ H). exact Hy. }
  destruct x as [w|k|c|];
    [|left; now apply (Hnosp (Hy k))|left; now apply (Hnosp (Tx c))
     |left; now apply (Hnosp NH)].
  cbn [ok_chunk] in Hc. apply andb_true_iff in Hc as [Hw1 Hw2].
  assert (Hsp : span is_space (marked (Sp w :: r)) = (w, marked r)).
  { cbn [marked flat_map marked_of]. apply span_all; [exact Hw2|].
    apply marked_stops_space; [exact Hr|].
    destruct r as [|[w'|k|c|] r]; try exact I. discriminate. }
  assert (Hother : match r with Hy 1 :: _ => False | _ => True end ->
                   fst (span is_hyphen (snd (span is_space (marked (Sp w :: r))))) = []).
  { intros Hy. rewrite Hsp. cbn [snd]. rewrite span_none; [reflexivity|].
    now apply marked_stops_hyphen. }
  destruct r as [|[w'|k|c|] r]; try (right; now apply Hother).
  destruct k as [|[|k]]; try (right; now apply Hother).
  split; [exact Hsp|]. split.
  - intros ->. discriminate.
  - apply (@span_all is_hyphen [hyphen]); [reflexivity|].
    apply wf_cons in Hr as (_ & Hn' & Hr').
    apply marked_stops_hyphen; [exact Hr'|].
    destruct r as [|[w'|k|c|] r]; try exact I. discriminate.
Qed.

Lemma take_apostrophe_marked r :
  wf r = true ->
  match r with Tx c :: _ => Ascii.eqb c apostrophe | _ => false end = false ->
  take_apostrophe (marked r) = ([], marked r).
Proof.
  destruct r as [|x r]; [reflexivity|]. intros H Hx. apply wf_cons in H as (Hc & _ & _).
  destruct (marked_of_first _ Hc) as (c & t & E & Hcl).
  cbn [marked flat_map]. rewrite E. cbn [app take_apostrophe].
  replace (Ascii.eqb c apostrophe) with false; [reflexivity|]. symmetry.
  destruct x as [w|k|ch|]; cbv beta iota in Hcl.
  - now apply space_not_apostrophe.
  - destruct (2 <=? k); subst; reflexivity.
  - now subst.
  - now subst.
Qed.

(** The end of a match of the third pattern, after the number and the
    apostrophe. *)
Lemma numhyph_tail (ds ap : str) r :
  wf r = true -> ds <> [] ->
  (let (ws, r3) := span is_space (marked r) in
   let (hs, _) := span is_hyphen r3 in
   match ds, ws, hs with
   | _ :: _, _ :: _, _ :: _ =>
       Some (ds ++ ap ++ py "__NUMHYPH__" ++ hs,
             length ds + length ap + length ws + length hs)
   | _, _, _ => None
   end)
  = match r with
    | Sp w :: Hy 1 :: _ =>
        Some (ds ++ ap ++ py "__NUMHYPH__" ++ [hyphen],
              length ds + length ap + length w + 1)
    | _ => None
    end.
Proof.
  intros H Hds. pose proof (space_hyphen_ahead _ H) as A.
  assert (Hnone : fst (span is_space (marked r)) = []
                  \/ fst (span is_hyphen (snd (span is_space (marked r)))) = [] ->
                  (let (ws, r3) := span is_space (marked r) in
                   let (hs, _) := span is_hyphen r3 in
                   match ds, ws, hs with
                   | _ :: _, _ :: _, _ :: _ =>
                       Some (ds ++ ap ++ py "__NUMHYPH__" ++ hs,
                             length ds + length ap + length ws + length hs)
                   | _, _, _ => None
                   end) = None).
  { destruct (span is_space (marked r)) as [ws r3]. cbn [fst snd].
    destruct (span is_hyphen r3) as [hs r4]. cbn [fst].
    intros [-> | ->]; destruct ds; try reflexivity. now destruct ws. }
  destruct r as [|[w|k|c|] r]; try (now apply Hnone).
  destruct r as [|[w'|k|c|] r]; try (now apply Hnone).
  destruct k as [|[|k]]; try (now apply Hnone).
  destruct A as (E1 & Hw & E2). rewrite E1, E2.
  destruct ds as [|d ds]; [congruence|]. destruct w as [|x w]; [congruence|].
  reflexivity.
Qed.

(** The third pattern at a number. *)
Lemma numhyph_match ds r1 :
  ds <> [] -> forallb is_digit ds = true -> wf r1 = true ->
  match r1 with Tx c :: _ => is_digit c | _ => false end = false ->
  m_protect_numhyph (ds ++ marked r1) =
    match numhyph_ahead r1 with
    | Some (ap, w, _) =>
        Some (ds ++ marked ap ++ py "__NUMHYPH__" ++ [hyphen],
              length ds + length (marked ap) + length w + 1)
    | None => None
    end.
Proof.
  intros Hne Hds Hwf Hr1. unfold m_protect_numhyph.
  rewrite (span_all _ _ _ Hds (marked_stops_digit _ Hwf Hr1)).
  destruct (match r1 with Tx c :: _ => Ascii.eqb c apostrophe | _ => false end) eqn:Eap.
  - destruct r1 as [|[w|k|c|] r2]; try discriminate.
    apply Ascii.eqb_eq in Eap. subst c.
    apply wf_cons in Hwf as (_ & _ & Hwf2).
    cbn [marked flat_map marked_of app take_apostrophe]. rewrite Ascii.eqb_refl.
    fold (marked r2). cbv beta iota.
    etransitivity; [exact (numhyph_tail [apostrophe] _ Hwf2 Hne)|].
    cbn [numhyph_ahead]. rewrite Ascii.eqb_refl.
    destruct r2 as [|[w|k|c|] r2]; try reflexivity.
    destruct r2 as [|[w'|k|c|] r2]; try reflexivity.
    destruct k as [|[|k]]; reflexivity.
  - rewrite (take_apostrophe_marked _ Hwf Eap).
    etransitivity; [exact (numhyph_tail [] _ Hwf Hne)|].
    destruct r1 as [|[w|k|c|] r2]; try reflexivity.
    + destruct r2 as [|[w'|k|c|] r2]; try reflexivity.
      destruct k as [|[|k]]; reflexivity.
    + cbn [numhyph_ahead]. rewrite Eap.
      destruct r2 as [|[w'|k|c'|] r2]; try reflexivity.
      destruct r2 as [|[w''|k|c'|] r2]; try reflexivity.
      destruct k as [|[|k]]; reflexivity.
Qed.

Lemma numhyph_inert c s : is_digit c = false -> m_protect_numhyph (c :: s) = None.
Proof.
  intros H. unfold m_protect_numhyph. simpl. rewrite H.
  destruct (take_apostrophe (c :: s)) as [ap r2].
  destruct (span is_space r2) as [ws r3]. now destruct (span is_hyphen r3).
Qed.

Lemma numhyph_digits_underscore u r :
  forallb is_digit u = true -> m_protect_numhyph (u ++ underscore :: r) = None.
Proof.
  intros H. unfold m_protect_numhyph.
  rewrite (@span_all is_digit u (underscore :: r) H eq_refl).
  cbn. destruct (span is_hyphen r). now destruct u.
Qed.

Lemma not_digit_of_space w :
  forallb is_space w = true -> forallb (fun c => negb (is_digit c)) w = true.
Proof.
  induction w as [|c w IH]; [reflexivity|]. simpl. intros H.
  apply andb_true_iff in H as [Hc H]. now rewrite (space_not_digit _ Hc), IH.
Qed.

(** The third pass goes through a marker of hyphens. *)
Lemma numhyph_through_marker k s :
  re_sub m_protect_numhyph (hyphen_marker k ++ s)
  = hyphen_marker k ++ re_sub m_protect_numhyph s.
Proof.
  unfold hyphen_marker. rewrite <- !app_assoc.
  rewrite (@re_sub_inert _ is_digit (py "__HYPHEN_")); [|exact numhyph_inert|reflexivity].
  f_equal. rewrite re_sub_keep_app.
  - f_equal.
  - intros a1 c a2 E. pose proof (str_of_N_digits (N.of_nat k)) as Hd.
    rewrite E, forallb_app in Hd. apply andb_true_iff in Hd as [_ Hd].
    apply (@numhyph_digits_underscore (c :: a2)). exact Hd.
Qed.

(** The third pass keeps a chunk that is not a digit. *)
Lemma numhyph_keeps x s :
  ok_chunk x = true ->
  match x with Tx c => is_digit c | _ => false end = false ->
  re_sub m_protect_numhyph (marked_of x ++ s)
  = marked_of x ++ re_sub m_protect_numhyph s.
Proof.
  intros Hc Hx. destruct x as [w|k|c|]; cbn [marked_of].
  - apply (@re_sub_inert _ is_digit); [exact numhyph_inert|].
    cbn [ok_chunk] in Hc. apply andb_true_iff in Hc as [_ Hc].
    now apply not_digit_of_space.
  - destruct (2 <=? k) eqn:E; [apply numhyph_through_marker|].
    apply (@re_sub_inert _ is_digit); [exact numhyph_inert|].
    clear. induction k; simpl; auto.
  - apply (@re_sub_inert _ is_digit [c]); [exact numhyph_inert|].
    simpl. now rewrite Hx.
  - apply (@re_sub_inert _ is_digit); [exact numhyph_inert | reflexivity].
Qed.

Lemma numhyph_ahead_Some r ap w r4 :
  numhyph_ahead r = Some (ap, w, r4) ->
  r = ap ++ Sp w :: Hy 1 :: r4.
Proof.
  destruct r as [|[w1|k|c|] r]; try discriminate.
  - destruct r as [|[w'|k|c|] r]; try discriminate.
    destruct k as [|[|k]]; try discriminate. now intros [= <- <- <-].
  - destruct r as [|[w'|k|c'|] r]; try discriminate.
    destruct r as [|[w''|k|c'|] r]; try discriminate.
    destruct k as [|[|k]]; try discriminate. cbn [numhyph_ahead].
    destruct (Ascii.eqb c apostrophe); [|discriminate]. now intros [= <- <- <-].
Qed.

(** The third pass: a run of whitespace between a number and a single hyphen
    is taken out. *)
Lemma protect_numhyph_marked l :
  wf l = true -> re_sub m_protect_numhyph (marked l) = marked (N3 N l).
Proof.
  induction l as [l IH] using (induction_ltof1 _ (@length chunk)). unfold ltof in IH.
  intros Hwf. destruct (leading_digits l) as (ds & r1 & El & Hds & Hr1).
  destruct ds as [|d ds].
  - (* no digit first *)
    simpl in El. subst r1. destruct l as [|x r]; [reflexivity|].
    apply wf_cons in Hwf as (Hc & _ & Hr).
    assert (Hx : match x with Tx c => is_digit c | _ => false end = false)
      by (destruct x; auto).
    cbn [marked flat_map]. rewrite (@numhyph_keeps x _ Hc Hx).
    fold (marked r). rewrite IH by (simpl; lia || exact Hr).
    rewrite N3_N_cons. cbn [marked flat_map].
    replace (next_ctx N x) with N; [reflexivity|].
    destruct x as [w|k|c|]; try reflexivity. cbn [next_ctx]. rewrite Hx.
    now destruct (Ascii.eqb c apostrophe).
  - (* a number first *)
    assert (Hne : d :: ds <> []) by discriminate.
    set (n := d :: ds) in *. clearbody n.
    assert (Hwf1 : wf r1 = true) by (rewrite El in Hwf; now apply wf_app_r in Hwf).
    assert (Hlen : length r1 < length l).
    { rewrite El, length_app, length_map. destruct n; [congruence | simpl; lia]. }
    rewrite El, marked_app, marked_txs, (@N3_txs N n r1 Hne Hds), marked_app, marked_txs.
    rewrite (@N3_D_ahead r1 Hr1).
    pose proof (@numhyph_match n r1 Hne Hds Hwf1 Hr1) as Hm.
    destruct (numhyph_ahead r1) as [[[ap w] r4]|] eqn:Ea.
    + apply numhyph_ahead_Some in Ea. subst r1.
      assert (Hwf4 : wf r4 = true).
      { apply wf_app_r in Hwf1. apply wf_cons in Hwf1 as (_ & _ & H).
        apply wf_cons in H. tauto. }
      rewrite !marked_app. cbn [marked flat_map marked_of]. fold (marked r4).
      fold (marked (N3 N r4)). cbn [Nat.leb].
      replace (n ++ marked ap ++ w ++ repeat hyphen 1 ++ marked r4)
        with ((n ++ marked ap ++ w ++ [hyphen]) ++ marked r4)
        by (rewrite <- !app_assoc; reflexivity).
      rewrite re_sub_match_app
        with (repl := n ++ marked ap ++ py "__NUMHYPH__" ++ [hyphen]).
      * rewrite IH; [|rewrite !length_app in Hlen; simpl in Hlen; lia|exact Hwf4].
        rewrite <- !app_assoc. reflexivity.
      * destruct n; [congruence | discriminate].
      * replace (length (n ++ marked ap ++ w ++ [hyphen]))
          with (length n + length (marked ap) + length w + 1)
          by (rewrite !length_app; simpl; lia).
        etransitivity; [|exact Hm]. f_equal.
        rewrite !marked_app. cbn [marked flat_map marked_of]. fold (marked r4).
        cbn [Nat.leb]. rewrite <- !app_assoc. reflexivity.
    + rewrite re_sub_keep_app.
      * now rewrite IH.
      * intros a1 c a2 E. rewrite E, forallb_app in Hds.
        apply andb_true_iff in Hds as [_ Hds].
        change (c :: a2 ++ marked r1) with ((c :: a2) ++ marked r1).
        rewrite numhyph_match; [now rewrite Ea | discriminate | exact Hds | exact Hwf1 | exact Hr1].
Qed.

(** *** The fifth and the sixth pass *)

Lemma restore_hyphens_inert c s :
  Ascii.eqb c underscore = false -> m_restore_hyphens (c :: s) = None.
Proof.
  intros H. unfold m_restore_hyphens. cbn [py list_ascii_of_string strip_prefix].
  rewrite Ascii.eqb_sym. fold underscore. now rewrite H.
Qed.

Lemma restore_numhyph_inert c s :
  Ascii.eqb c underscore = false -> m_restore_numhyph (c :: s) = None.
Proof.
  intros H. unfold m_restore_numhyph. cbn [py list_ascii_of_string strip_prefix].
  rewrite Ascii.eqb_sym. fold underscore. now rewrite H.
Qed.

Lemma no_underscore_of_space w :
  forallb is_space w = true ->
  forallb (fun c => negb (Ascii.eqb c underscore)) w = true.
Proof.
  induction w as [|c w IH]; [reflexivity|]. simpl. intros H.
  apply andb_true_iff in H as [Hc H]. now rewrite (space_not_underscore _ Hc), IH.
Qed.

Lemma no_underscore_hyphens k :
  forallb (fun c => negb (Ascii.eqb c underscore)) (repeat hyphen k) = true.
Proof. induction k; simpl; auto. Qed.

(** The text of a chunk that is not a marker has no underscore. *)
Lemma plain_of_no_underscore x :
  ok_chunk x = true ->
  forallb (fun c => negb (Ascii.eqb c underscore)) (plain_of x) = true.
Proof.
  destruct x as [w|k|c|]; cbn [ok_chunk plain_of]; intros H.
  - apply andb_true_iff in H as [_ H]. now apply no_underscore_of_space.
  - apply no_underscore_hyphens.
  - apply andb_true_iff in H as [_ H]. simpl. now rewrite H.
  - reflexivity.
Qed.

Lemma hyphen_marker_length k :
  length (hyphen_marker k) = 9 + length (str_of_N (N.of_nat k)) + 2.
Proof. unfold hyphen_marker. rewrite !length_app. simpl. lia. Qed.

(** The fifth pattern at a marker of hyphens. *)
Lemma restore_hyphens_marker k s :
  m_restore_hyphens (hyphen_marker k ++ s)
  = Some (repeat hyphen k, length (hyphen_marker k)).
Proof.
  unfold m_restore_hyphens, hyphen_marker. rewrite <- !app_assoc, strip_prefix_app.
  rewrite (@span_all is_digit (str_of_N (N.of_nat k)) (py "__" ++ s));
    [|apply str_of_N_digits|reflexivity].
  pose proof (str_of_N_nonempty (N.of_nat k)) as Hne.
  destruct (str_of_N (N.of_nat k)) as [|d ds] eqn:E; [congruence|].
  rewrite strip_prefix_app, <- E, digits_value_str_of_N, nat_N_Z, Nat2Z.id.
  f_equal. f_equal. rewrite !length_app. simpl. lia.
Qed.

(** The fifth pass: the markers of hyphens become hyphens again. *)
Lemma restore_hyphens_marked l :
  wf l = true -> re_sub m_restore_hyphens (marked l) = restored l.
Proof.
  induction l as [|x r IH]; [reflexivity|]. intros H.
  apply wf_cons in H as (Hc & Hn & Hr). specialize (IH Hr).
  cbn [marked restored flat_map]. fold (marked r) (restored r).
  destruct x as [w|k|c|]; cbn [marked_of restored_of plain_of].
  - rewrite (@re_sub_inert _ (fun c => Ascii.eqb c underscore));
      [now rewrite IH | exact restore_hyphens_inert |].
    now apply (plain_of_no_underscore (Sp w)).
  - destruct (2 <=? k) eqn:E.
    + rewrite re_sub_match_app with (repl := repeat hyphen k).
      * now rewrite IH.
      * unfold hyphen_marker. discriminate.
      * apply restore_hyphens_marker.
    + rewrite (@re_sub_inert _ (fun c => Ascii.eqb c underscore));
        [now rewrite IH | exact restore_hyphens_inert | apply no_underscore_hyphens].
  - rewrite (@re_sub_inert _ (fun c => Ascii.eqb c underscore) [c]);
      [now rewrite IH | exact restore_hyphens_inert |].
    now apply (plain_of_no_underscore (Tx c)).
  - destruct r as [|[w|k|c|] r]; try discriminate.
    destruct k as [|[|k]]; try discriminate.
    rewrite <- IH. reflexivity.
Qed.

(** The sixth pass: the other markers become one hyphen each. *)
Lemma restore_numhyph_restored l :
  wf l = true -> re_sub m_restore_numhyph (restored l) = plain l.
Proof.
  induction l as [|x r IH]; [reflexivity|]. intros H.
  apply wf_cons in H as (Hc & Hn & Hr). specialize (IH Hr).
  cbn [plain restored flat_map]. fold (plain r) (restored r).
  assert (Hk : forall y, match y with NH => False | _ => True end -> x = y ->
               re_sub m_restore_numhyph (restored_of x ++ restored r)
               = plain_of x ++ plain r).
  { intros y Hy ->.
    replace (restored_of y) with (plain_of y) by now destruct y.
    rewrite (@re_sub_inert _ (fun c => Ascii.eqb c underscore));
      [now rewrite IH | exact restore_numhyph_inert |].
    now apply plain_of_no_underscore. }
  destruct x as [w|k|c|];
    [now apply (Hk (Sp w)) | now apply (Hk (Hy k)) | now apply (Hk (Tx c)) |].
  cbn [restored_of plain_of].
  rewrite re_sub_match_app with (repl := [hyphen]); [now rewrite IH | discriminate |].
  reflexivity.
Qed.

(** *** The chunks stay well formed *)

Lemma wf_lex s : no_underscore s = true -> wf (lex s) = true.
Proof.
  induction s as [|c s IH]; [reflexivity|]. simpl. intros H.
  apply andb_true_iff in H as [Hc H]. specialize (IH H).
  pose proof (lex_head_not_NH s) as HNH.
  fold (lex s). unfold cons_char.
  destruct (is_space c) eqn:Es.
  - destruct (lex s) as [|[w|k|x|] r] eqn:E; cbn [wf ok_chunk ok_next truthy forallb];
      rewrite ?Es; try exact IH.
    cbn [wf ok_chunk ok_next] in IH.
    apply andb_true_iff in IH as [IH1 IH3]. apply andb_true_iff in IH1 as [IH1 IH2].
    apply andb_true_iff in IH1 as [_ IH1]. rewrite IH1, IH3. simpl.
    destruct r as [|[]]; (exact IH2 || reflexivity).
  - destruct (is_hyphen c) eqn:Eh.
    + destruct (lex s) as [|[w|k|x|] r] eqn:E; try contradiction;
        cbn [wf ok_chunk ok_next Nat.leb]; try exact IH.
      cbn [wf ok_chunk ok_next] in IH.
      apply andb_true_iff in IH as [IH1 IH3]. apply andb_true_iff in IH1 as [_ IH2].
      now rewrite IH2, IH3.
    + cbn [wf ok_chunk ok_next]. rewrite Es, Eh, Hc. exact IH.
Qed.

Lemma ok_next_N3 x r c :
  ok_next x r = true ->
  (c = N \/ match x with Tx _ => True | _ => False end) ->
  ok_next x (N3 c r) = true.
Proof.
  intros H Hc. destruct x as [w|k|ch|]; try reflexivity;
    destruct Hc as [->|[]];
    destruct r as [|[w'|k'|ch'|] r]; try exact H; try reflexivity.
Qed.

Lemma wf_N3 l : forall c, wf l = true -> wf (N3 c l) = true.
Proof.
  induction l as [|x r IH]; intros c H; [reflexivity|].
  apply wf_cons in H as (Hc & Hn & Hr).
  cbn [N3 wf]. rewrite (IH _ Hr), andb_true_r.
  destruct (bridge c x r) eqn:Eb.
  - destruct x as [w|k|ch|]; try (destruct c; discriminate).
    destruct r as [|[w'|k|ch|] r]; try (destruct c; discriminate).
    destruct k as [|[|k]]; try (destruct c; discriminate).
    reflexivity.
  - rewrite Hc. apply ok_next_N3; [exact Hn|].
    destruct x as [w|k|ch|]; auto.
Qed.

Lemma ok_next_WS1 x r :
  ok_next x r = true ->
  match x with Sp _ => False | _ => True end ->
  ok_next x (WS1 r) = true.
Proof.
  intros H Hx. destruct x as [w|k|ch|]; try contradiction; try reflexivity;
    destruct r as [|[w'|k'|ch'|] r]; try exact H; try reflexivity;
    destruct r as [|y r]; try reflexivity; try discriminate.
Qed.

Lemma WS1_head_not_Sp r :
  match r with Sp _ :: _ => False | _ => True end ->
  match WS1 r with Sp _ :: _ => False | _ => True end.
Proof. destruct r as [|[w|k|c|] r]; simpl; tauto. Qed.

Lemma wf_WS1 l : wf l = true -> wf (WS1 l) = true.
Proof.
  induction l as [|x r IH]; [reflexivity|]. intros H.
  apply wf_cons in H as (Hc & Hn & Hr). specialize (IH Hr).
  destruct x as [w|k|ch|].
  - cbn [WS1]. destruct r as [|y r]; [reflexivity|].
    cbn [wf]. rewrite IH, andb_true_r. cbn [ok_chunk truthy forallb andb].
    assert (Hy : match y :: r with Sp _ :: _ => False | _ => True end)
      by (destruct y; [discriminate | exact I ..]).
    apply WS1_head_not_Sp in Hy.
    destruct (WS1 (y :: r)) as [|[w'|k|c|] r']; (contradiction || reflexivity).
  - cbn [WS1 wf]. rewrite IH, Hc, andb_true_r. now apply ok_next_WS1.
  - cbn [WS1 wf]. rewrite IH, Hc, andb_true_r. now apply ok_next_WS1.
  - cbn [WS1 wf]. rewrite IH, andb_true_r. now apply ok_next_WS1.
Qed.

Lemma wf_WS l : wf l = true -> wf (WS l) = true.
Proof.
  intros H. unfold WS. apply wf_WS1.
  destruct l as [|[w|k|c|] r]; try exact H. apply wf_cons in H. tauto.
Qed.

(** *** The fourth pass *)

Lemma split_space c s : is_space c = true -> split (c :: s) = split s.
Proof. intros H. simpl. now rewrite H. Qed.

Lemma split_spaces g s : forallb is_space g = true -> split (g ++ s) = split s.
Proof.
  induction g as [|c g IH]; [reflexivity|]. simpl app. intros H.
  simpl in H. apply andb_true_iff in H as [Hc H].
  now rewrite split_space, IH.
Qed.

Lemma split_not_nil c s : is_space c = false -> split (c :: s) <> [].
Proof.
  intros H. simpl. rewrite H. destruct s as [|d s]; [discriminate|].
  destruct (is_space d); [discriminate|]. destruct (split (d :: s)); discriminate.
Qed.

(** A word at the start of a text. *)
Lemma split_word u s :
  u <> [] -> forallb (fun c => negb (is_space c)) u = true ->
  split (u ++ s) =
    match s with
    | [] => [u]
    | d :: _ =>
        if is_space d then u :: split s
        else match split s with
             | w :: ws => (u ++ w) :: ws
             | [] => [u]
             end
    end.
Proof.
  induction u as [|c u IH]; [congruence|]. intros _ H.
  simpl in H. apply andb_true_iff in H as [Hc H]. apply negb_true_iff in Hc.
  destruct u as [|c' u].
  - simpl. rewrite Hc. destruct s as [|d s]; [reflexivity|].
    destruct (is_space d); [reflexivity|]. now destruct (split (d :: s)).
  - specialize (IH ltac:(discriminate) H).
    assert (Hc' : is_space c' = false).
    { simpl in H. apply andb_true_iff in H as [H _]. now apply negb_true_iff. }
    change (split (c :: (c' :: u) ++ s)
            = match s with
              | [] => [c :: c' :: u]
              | d :: _ =>
                  if is_space d then (c :: c' :: u) :: split s
                  else match split s with
                       | w :: ws => ((c :: c' :: u) ++ w) :: ws
                       | [] => [c :: c' :: u]
                       end
              end).
    cbn [split]. rewrite Hc. cbn [app]. rewrite Hc'.
    change (c' :: u ++ s) with ((c' :: u) ++ s). rewrite IH.
    destruct s as [|d s]; [reflexivity|].
    destruct (is_space d); [reflexivity|]. now destruct (split (d :: s)).
Qed.

Lemma join_cons_app (sep u w : str) (ws : list str) :
  join sep ((u ++ w) :: ws) = u ++ join sep (w :: ws).
Proof. destruct ws; simpl; [reflexivity | now rewrite <- app_assoc]. Qed.

(** A word, then more text. *)
Lemma norm_word u s :
  u <> [] -> forallb (fun c => negb (is_space c)) u = true ->
  stops is_space s = true -> s <> [] ->
  join (py " ") (split (u ++ s)) = u ++ join (py " ") (split s).
Proof.
  intros Hu Hw Hs Hne. rewrite (split_word _ Hu Hw).
  destruct s as [|d s]; [congruence|]. simpl in Hs. apply negb_true_iff in Hs.
  rewrite Hs. pose proof (@split_not_nil d s Hs) as Hn.
  destruct (split (d :: s)) as [|w ws]; [congruence|]. apply join_cons_app.
Qed.

(** A word, whitespace, then more text. *)
Lemma norm_word_gap u g s :
  u <> [] -> forallb (fun c => negb (is_space c)) u = true ->
  g <> [] -> forallb is_space g = true ->
  join (py " ") (split (u ++ g ++ s)) =
    match split s with
    | [] => u
    | _ => u ++ py " " ++ join (py " ") (split s)
    end.
Proof.
  intros Hu Hw Hg Hgs. rewrite (split_word _ Hu Hw).
  destruct g as [|c g]; [congruence|]. simpl in Hgs.
  apply andb_true_iff in Hgs as [Hc Hgs]. cbn [app]. rewrite Hc.
  change (c :: g ++ s) with ((c :: g) ++ s).
  rewrite split_spaces by (simpl; now rewrite Hc).
  destruct (split s) as [|w ws]; reflexivity.
Qed.

(** The text of a chunk that is not whitespace is a word. *)
Lemma marked_of_word x :
  ok_chunk x = true -> match x with Sp _ => False | _ => True end ->
  marked_of x <> [] /\ forallb (fun c => negb (is_space c)) (marked_of x) = true.
Proof.
  intros Hc Hx. destruct x as [w|k|c|]; [contradiction| | |].
  - cbn [marked_of]. destruct (2 <=? k) eqn:E.
    + split; [unfold hyphen_marker; discriminate|].
      unfold hyphen_marker. rewrite !forallb_app. simpl. rewrite andb_true_r.
      pose proof (str_of_N_digits (N.of_nat k)) as Hd.
      induction (str_of_N (N.of_nat k)) as [|d ds IH]; [reflexivity|].
      simpl in *. apply andb_true_iff in Hd as [Hd Hds].
      now rewrite (digit_not_space _ Hd), IH.
    + destruct k as [|k]; [discriminate|]. split; [discriminate|].
      clear. induction (S k); simpl; auto.
  - cbn [ok_chunk] in Hc. apply andb_true_iff in Hc as [Hc _].
    apply andb_true_iff in Hc as [Hc _]. split; [discriminate|]. simpl. now rewrite Hc.
  - split; [discriminate | reflexivity].
Qed.

Lemma marked_not_nil x r : ok_chunk x = true -> marked (x :: r) <> [].
Proof.
  intros Hc. destruct (marked_of_first _ Hc) as (c & t & E & _).
  cbn [marked flat_map]. now rewrite E.
Qed.

(** The fourth pass on a text that does not start with whitespace. *)
Lemma normalise_marked1 l :
  wf l = true -> match l with Sp _ :: _ => False | _ => True end ->
  join (py " ") (split (marked l)) = marked (WS1 l).
Proof.
  induction l as [l IH] using (induction_ltof1 _ (@length chunk)). unfold ltof in IH.
  intros Hwf Hl. destruct l as [|x r]; [reflexivity|].
  apply wf_cons in Hwf as (Hc & Hn & Hr).
  assert (Hx : match x with Sp _ => False | _ => True end) by (destruct x; auto).
  destruct (marked_of_word _ Hc Hx) as [Hu Hw].
  assert (EW : WS1 (x :: r) = x :: WS1 r) by (destruct x; [contradiction | reflexivity ..]).
  rewrite EW. cbn [marked flat_map]. fold (marked r) (marked (WS1 r)).
  destruct r as [|y r'].
  - cbn [WS1 marked flat_map]. rewrite (split_word [] Hu Hw).
    cbn [join]. now rewrite app_nil_r.
  - assert (Hgen : match y with Sp _ => False | _ => True end ->
                   join (py " ") (split (marked_of x ++ marked (y :: r')))
                   = marked_of x ++ marked (WS1 (y :: r'))).
    { intros Hy.
      assert (Hy' : match y :: r' with Sp _ :: _ => False | _ => True end)
        by (destruct y; auto).
      rewrite norm_word;
        [rewrite IH; [reflexivity | simpl; lia | exact Hr | exact Hy']
        | exact Hu | exact Hw
        | now apply marked_stops_space
        | apply wf_cons in Hr as (Hcy & _ & _); now apply marked_not_nil]. }
    destruct y as [w|k|c|].
    + (* whitespace after the word *)
      pose proof Hr as Hr2. apply wf_cons in Hr2 as (Hcw & Hnw & Hr').
      cbn [ok_chunk] in Hcw. apply andb_true_iff in Hcw as [Hw1 Hw2].
      cbn [marked flat_map marked_of]. fold (marked r').
      rewrite (@norm_word_gap _ w (marked r') Hu Hw); trivial;
        [|destruct w; [discriminate | discriminate]].
      destruct r' as [|z r''].
      * cbn [marked flat_map split WS1]. now rewrite app_nil_r.
      * assert (Hz : match z :: r'' with Sp _ :: _ => False | _ => True end)
          by (destruct z; [discriminate | exact I ..]).
        rewrite IH; [|simpl; lia|exact Hr'|exact Hz].
        pose proof Hr' as Hr3. apply wf_cons in Hr3 as (Hcz & _ & _).
        assert (Hsz : stops is_space (marked (z :: r'')) = true)
          by (now apply marked_stops_space).
        pose proof (@marked_not_nil z r'' Hcz) as Hnz.
        destruct (marked (z :: r'')) as [|d s] eqn:Em; [congruence|].
        simpl in Hsz. apply negb_true_iff in Hsz.
        pose proof (@split_not_nil d s Hsz) as Hsn.
        destruct (split (d :: s)); [congruence|].
        cbn [WS1 marked flat_map marked_of]. reflexivity.
    + apply Hgen. exact I.
    + apply Hgen. exact I.
    + apply Hgen. exact I.
Qed.

(** The fourth pass: every run of whitespace becomes one space, and those
    at the ends go. *)
Lemma normalise_marked l :
  wf l = true -> join (py " ") (split (marked l)) = marked (WS l).
Proof.
  intros H. unfold WS. destruct l as [|x r]; [reflexivity|].
  destruct x as [w|k|c|]; try (now apply normalise_marked1).
  apply wf_cons in H as (Hc & Hn & Hr).
  cbn [ok_chunk] in Hc. apply andb_true_iff in Hc as [_ Hw].
  cbn [marked flat_map marked_of]. fold (marked r). rewrite split_spaces by exact Hw.
  apply normalise_marked1; [exact Hr|].
  destruct r as [|[]]; auto. discriminate.
Qed.

(** *** The first pass *)

Lemma escape_inert c s : Ascii.eqb c backslash = false -> m_escape (c :: s) = None.
Proof.
  intros H. unfold m_escape. destruct s as [|d s]; [reflexivity|]. now rewrite H.
Qed.

Lemma escape_same s : no_backslash s = true -> re_sub m_escape s = s.
Proof.
  intros H. rewrite <- (app_nil_r s) at 1.
  rewrite (@re_sub_inert _ (fun c => Ascii.eqb c backslash));
    [now rewrite app_nil_r | exact escape_inert | exact H].
Qed.

Lemma forallb_skipn {A : Type} (p : A -> bool) n (l : list A) :
  forallb p l = true -> forallb p (skipn n l) = true.
Proof.
  revert l. induction n as [|n IH]; intros l H; [exact H|].
  destruct l as [|x l]; [reflexivity|]. simpl in *.
  apply andb_true_iff in H as [_ H]. now apply IH.
Qed.

(** A pass whose replacements are in a class of characters keeps a text in
    that class. *)
Lemma re_sub_forallb (m : matcher) (p : ascii -> bool) :
  (forall s repl n, forallb p s = true -> m s = Some (repl, n) -> forallb p repl = true) ->
  forall s, forallb p s = true -> forallb p (re_sub m s) = true.
Proof.
  intros Hm s.
  induction s as [s IH] using (induction_ltof1 _ (@length ascii)). unfold ltof in IH.
  intros H. destruct s as [|c s]; [reflexivity|].
  destruct (m (c :: s)) as [[repl n]|] eqn:E.
  - pose proof (Hm _ _ _ H E) as Hr. unfold re_sub. simpl. rewrite E.
    rewrite re_sub_from_skipn, forallb_app, Hr. apply IH.
    + simpl. pose proof (length_skipn (n - 1) s). lia.
    + simpl in H. apply andb_true_iff in H as [_ H]. now apply forallb_skipn.
  - rewrite re_sub_keep by exact E. simpl in *.
    apply andb_true_iff in H as [Hc H]. rewrite Hc. apply IH; [simpl; lia | exact H].
Qed.

Lemma escape_no_underscore s :
  no_underscore s = true -> no_underscore (re_sub m_escape s) = true.
Proof.
  apply re_sub_forallb. clear s. intros s repl n H. unfold m_escape.
  destruct s as [|b [|c s]]; try discriminate.
  destruct (_ && _); [|discriminate]. intros [= <- _].
  simpl in H. apply andb_true_iff in H as [_ H]. apply andb_true_iff in H as [H _].
  cbn. destruct (_ || _); [reflexivity | now rewrite H].
Qed.

(** *** All the passes *)

(** [clean_text] on a text without underscore: the runs of whitespace
    between a number and a single hyphen are replaced by a hyphen, the
    others by one space, and those at the ends are dropped. *)
Lemma clean_str_chunks s :
  no_underscore s = true ->
  clean_str s = plain (WS (N3 N (lex (re_sub m_escape s)))).
Proof.
  intros H. apply escape_no_underscore in H. apply wf_lex in H.
  unfold clean_str. rewrite protect_hyphens_lex.
  rewrite (protect_numhyph_marked _ H).
  pose proof (wf_N3 _ N H) as H3. rewrite (normalise_marked _ H3).
  pose proof (wf_WS _ H3) as H4.
  rewrite (restore_hyphens_marked _ H4), (restore_numhyph_restored _ H4).
  apply tighten_same.
Qed.

(** *** A run of hyphens between two word characters *)

(** The first pass before a character that no backslash escapes. *)
Lemma escape_prefix pre c rest :
  (forall b s, m_escape (b :: c :: s) = None) ->
  exists pre', re_sub m_escape (pre ++ c :: rest) = pre' ++ re_sub m_escape (c :: rest).
Proof.
  intros Hc.
  induction pre as [pre IH] using (induction_ltof1 _ (@length ascii)). unfold ltof in IH.
  destruct pre as [|b pre]; [now exists []|].
  destruct (m_escape ((b :: pre) ++ c :: rest)) as [[repl n]|] eqn:E.
  - destruct pre as [|d pre].
    + cbn [app] in E. now rewrite Hc in E.
    + assert (n = 2).
      { unfold m_escape in E. simpl in E. destruct (_ && _); now inversion E. }
      subst n. destruct (IH pre) as [pre' Hp]; [simpl; lia|].
      exists (repl ++ pre'). cbn [app] in *.
      rewrite (@re_sub_match m_escape b _ repl 1 E). cbn [skipn].
      now rewrite Hp, app_assoc.
  - destruct (IH pre) as [pre' Hp]; [simpl; lia|].
    exists (b :: pre'). cbn [app] in *. rewrite re_sub_keep by exact E. now rewrite Hp.
Qed.

Lemma word_not_escaped c :
  is_word c = true -> forall b s, m_escape (b :: c :: s) = None.
Proof.
  intros H b s. unfold m_escape.
  replace (Ascii.eqb c apostrophe || Ascii.eqb c quote || Ascii.eqb c newline
           || Ascii.eqb c cr || Ascii.eqb c tab) with false;
    [now rewrite andb_false_r|].
  revert H. clear. ascii_cases c.
Qed.

Lemma fold_cons_char_Tx a c l :
  fold_right cons_char (Tx c :: l) a = fold_right cons_char [] a ++ Tx c :: l.
Proof.
  induction a as [|x a IH]; [reflexivity|]. cbn [fold_right]. rewrite IH.
  generalize (fold_right cons_char [] a). intros L. unfold cons_char.
  destruct L as [|[w|k|y|] r];
    destruct (is_space x); destruct (is_hyphen x); reflexivity.
Qed.

(** The chunks before and after a character that is no whitespace and no
    hyphen. *)
Lemma lex_app_Tx a c z :
  is_space c = false -> is_hyphen c = false ->
  lex (a ++ c :: z) = lex a ++ Tx c :: lex z.
Proof.
  intros Hs Hh. unfold lex. rewrite fold_right_app. simpl.
  unfold cons_char at 2. rewrite Hs, Hh. apply fold_cons_char_Tx.
Qed.

Lemma bridge_not_Sp c x r :
  match x with Sp _ => False | _ => True end -> bridge c x r = false.
Proof. destruct c, x; (contradiction || reflexivity). Qed.

Lemma N3_app a : forall c b,
  exists a' c', N3 c (a ++ b) = a' ++ N3 c' b.
Proof.
  induction a as [|x a IH]; intros c b.
  - now exists [], c.
  - destruct (IH (next_ctx c x) b) as (a' & c' & E).
    eexists (_ :: a'), c'. cbn [app N3]. rewrite E. reflexivity.
Qed.

Lemma WS1_app a : forall x b,
  match x with Sp _ => False | _ => True end ->
  exists a', WS1 (a ++ x :: b) = a' ++ x :: WS1 b.
Proof.
  induction a as [|y a IH]; intros x b Hx.
  - exists []. destruct x; [contradiction | reflexivity ..].
  - destruct (IH x b Hx) as [a' E]. cbn [app].
    destruct y as [w|k|c|].
    + cbn [WS1]. destruct (a ++ x :: b) eqn:E'; [now destruct a|].
      rewrite E. now exists (Sp [space] :: a').
    + cbn [WS1]. rewrite E. now exists (Hy k :: a').
    + cbn [WS1]. rewrite E. now exists (Tx c :: a').
    + cbn [WS1]. rewrite E. now exists (NH :: a').
Qed.

Lemma WS_app a x b :
  match x with Sp _ => False | _ => True end ->
  exists a', WS (a ++ x :: b) = a' ++ x :: WS1 b.
Proof.
  intros Hx. unfold WS. destruct a as [|y a].
  - destruct (@WS1_app [] x b Hx) as [a' E]. exists a'.
    destruct x; [contradiction | exact E ..].
  - destruct y as [w|k|c|].
    + apply WS1_app. exact Hx.
    + apply (@WS1_app (Hy k :: a)). exact Hx.
    + apply (@WS1_app (Tx c :: a)). exact Hx.
    + apply (@WS1_app (NH :: a)). exact Hx.
Qed.

Lemma contains_app z a b : Alto.contains z (a ++ z ++ b) = true.
Proof.
  induction a as [|x a IH].
  - cbn [app]. pose proof (strip_prefix_app z b) as S.
    destruct (z ++ b) as [|x l]; cbn [Alto.contains]; now rewrite S.
  - cbn [app Alto.contains]. now destruct (strip_prefix z (x :: a ++ z ++ b)).
Qed.

End Passes.

Section Idempotence.
Import CleanText Chunks.

Lemma nob_fix l : forall c, nob c l = true -> N3 c l = l.
Proof.
  induction l as [|x r IH]; intros c H; [reflexivity|].
  cbn [nob] in H. apply andb_true_iff in H as [Hb H].
  apply negb_true_iff in Hb. cbn [N3]. now rewrite Hb, IH.
Qed.

Lemma bridge_hd1 c x r r' : hd1 r = hd1 r' -> bridge c x r = bridge c x r'.
Proof.
  intros H. destruct c, x; try reflexivity;
    destruct r as [|[?|[|[|?]]|?|] ?]; destruct r' as [|[?|[|[|?]]|?|] ?];
      (reflexivity || discriminate).
Qed.

Lemma hd1_N3 c r : hd1 (N3 c r) = hd1 r.
Proof.
  destruct r as [|x r]; [reflexivity|]. cbn [N3].
  destruct (bridge c x r) eqn:E; [|reflexivity].
  destruct x as [w|k|ch|]; [reflexivity | | |]; now rewrite bridge_not_Sp in E.
Qed.

(** The third pass leaves no run of whitespace to take out. *)
Lemma nob_N3 l : forall c, nob c (N3 c l) = true.
Proof.
  induction l as [|x r IH]; intros c; [reflexivity|].
  cbn [N3 nob]. destruct (bridge c x r) eqn:E.
  - rewrite bridge_not_Sp by exact I. cbn [negb andb next_ctx].
    destruct x as [w|k|ch|]; [apply IH | | |]; now rewrite bridge_not_Sp in E.
  - rewrite (@bridge_hd1 c x _ r (hd1_N3 _ r)), E. apply IH.
Qed.

Lemma hd1_WS1 r : hd1 (WS1 r) = hd1 r.
Proof.
  destruct r as [|[w|k|ch|] r]; try reflexivity. cbn [WS1]. now destruct r.
Qed.

Lemma nob_WS1 l : forall c, nob c l = true -> nob c (WS1 l) = true.
Proof.
  induction l as [|x r IH]; intros c H; [reflexivity|].
  cbn [nob] in H. apply andb_true_iff in H as [Hb H]. specialize (IH _ H).
  destruct x as [w|k|ch|].
  - cbn [WS1]. destruct r as [|y r]; [reflexivity|]. cbn [nob].
    rewrite (@bridge_hd1 c _ _ (y :: r) (hd1_WS1 _)).
    replace (bridge c (Sp [space]) (y :: r)) with (bridge c (Sp w) (y :: r))
      by now destruct c.
    rewrite Hb. exact IH.
  - cbn [WS1 nob]. now rewrite bridge_not_Sp, IH.
  - cbn [WS1 nob]. now rewrite bridge_not_Sp, IH.
  - cbn [WS1 nob]. now rewrite bridge_not_Sp, IH.
Qed.

Lemma nob_WS l : nob N l = true -> nob N (WS l) = true.
Proof.
  intros H. unfold WS. apply nob_WS1.
  destruct l as [|[w|k|ch|] r]; exact H.
Qed.

(** Reasoning on well-formed chunks, a taken-out run of whitespace together
    with the hyphen after it. *)
Lemma wf_ind (P : list chunk -> Prop) :
  P [] ->
  (forall x r, match x with NH => False | _ => True end ->
               wf (x :: r) = true -> P r -> P (x :: r)) ->
  (forall r, wf (NH :: Hy 1 :: r) = true -> P r -> P (NH :: Hy 1 :: r)) ->
  forall l, wf l = true -> P l.
Proof.
  intros H0 Hx HN l.
  induction l as [l IH] using (induction_ltof1 _ (@length chunk)). unfold ltof in IH.
  intros Hwf. destruct l as [|x r]; [exact H0|].
  pose proof Hwf as Hwf'. apply wf_cons in Hwf' as (Hc & Hn & Hr).
  destruct x as [w|k|ch|].
  - apply Hx; [exact I | exact Hwf | apply IH; [simpl; lia | exact Hr]].
  - apply Hx; [exact I | exact Hwf | apply IH; [simpl; lia | exact Hr]].
  - apply Hx; [exact I | exact Hwf | apply IH; [simpl; lia | exact Hr]].
  - destruct r as [|[w|k|ch|] r]; try discriminate.
    destruct k as [|[|k]]; try discriminate.
    apply HN; [exact Hwf|]. apply IH; [simpl; lia|].
    apply wf_cons in Hr. tauto.
Qed.

Ltac wf_induction l Hwf :=
  pattern l; revert l Hwf; apply wf_ind; cbv beta;
  [ | intros x r Hx Hw IH | intros r Hw IH ].

Lemma G_cons x r :
  match x with NH => False | _ => True end -> G (x :: r) = x :: G r.
Proof. destruct x; (contradiction || reflexivity). Qed.

Lemma hd1_G l : wf l = true -> hd1 (G l) = hd1 l.
Proof.
  intros H. destruct l as [|[w|k|ch|] r]; try reflexivity.
  destruct r as [|[w|k|ch|] r]; try discriminate.
  destruct k as [|[|k]]; try discriminate. reflexivity.
Qed.

Lemma nob_G l : wf l = true -> forall c, nob c l = true -> nob c (G l) = true.
Proof.
  intros Hwf. wf_induction l Hwf; trivial; intros c H.
  - rewrite (@G_cons _ _ Hx). cbn [nob] in *.
    apply andb_true_iff in H as [Hb H]. apply wf_cons in Hw as (_ & _ & Hr).
    rewrite (@bridge_hd1 c x _ r (@hd1_G _ Hr)), Hb. now apply IH.
  - cbn [G nob] in *. rewrite !bridge_not_Sp in * by exact I. now apply IH.
Qed.

Lemma plain_G l : wf l = true -> plain (G l) = plain l.
Proof.
  intros Hwf. wf_induction l Hwf; trivial.
  - rewrite (@G_cons _ _ Hx). cbn [plain flat_map]. f_equal. exact IH.
  - cbn [G plain flat_map plain_of repeat app]. do 2 f_equal. exact IH.
Qed.

Lemma G_not_nil x r : G (x :: r) <> [].
Proof.
  destruct x as [w|k|ch|]; try discriminate.
  cbn [G]. destruct r as [|[w|k|ch|] r]; discriminate.
Qed.

Lemma WS1_G l : wf l = true -> WS1 (G l) = G (WS1 l).
Proof.
  intros Hwf. wf_induction l Hwf; trivial.
  - rewrite (@G_cons _ _ Hx). destruct x as [w|k|ch|]; [| | |contradiction].
    + cbn [WS1]. destruct r as [|y r]; [reflexivity|].
      pose proof (@G_not_nil y r) as Hne.
      destruct (G (y :: r)) as [|z l'] eqn:E; [congruence|].
      rewrite IH. now rewrite @G_cons.
    + cbn [WS1]. now rewrite IH, @G_cons.
    + cbn [WS1]. now rewrite IH, @G_cons.
  - cbn [G WS1]. now rewrite IH.
Qed.

Lemma WS_G l : wf l = true -> WS (G l) = G (WS l).
Proof.
  intros Hwf. unfold WS. destruct l as [|x r]; [reflexivity|].
  destruct x as [w|k|ch|].
  - cbn [G]. apply WS1_G. apply wf_cons in Hwf. tauto.
  - cbn [G]. now apply (@WS1_G (Hy k :: r)).
  - cbn [G]. now apply (@WS1_G (Tx ch :: r)).
  - destruct r as [|[w|k|ch|] r]; try discriminate.
    now apply (@WS1_G (NH :: Hy k :: r)).
Qed.

Lemma WS1_same l :
  wf l = true -> WS1 (WS1 l) = WS1 l.
Proof.
  induction l as [|x r IH]; [reflexivity|]. intros H.
  apply wf_cons in H as (Hc & Hn & Hr). specialize (IH Hr).
  destruct x as [w|k|ch|]; cbn [WS1]; try (now rewrite IH).
  destruct r as [|y r]; [reflexivity|].
  assert (Hy : exists z l', WS1 (y :: r) = z :: l').
  { destruct y as [w'|k|ch|]; [discriminate | cbn [WS1]; eauto ..]. }
  destruct Hy as (z & l' & E). rewrite E in *.
  change (WS1 (Sp [space] :: z :: l')) with (Sp [space] :: WS1 (z :: l')).
  now rewrite IH.
Qed.

(** The fourth pass changes nothing the second time. *)
Lemma WS_same l : wf l = true -> WS (WS l) = WS l.
Proof.
  intros H. unfold WS at 2.
  set (l0 := match l with Sp _ :: r => r | _ => l end).
  assert (H0 : wf l0 = true).
  { subst l0. destruct l as [|[w|k|c|] r]; try exact H. apply wf_cons in H. tauto. }
  assert (Hh : match l0 with Sp _ :: _ => False | _ => True end).
  { subst l0. destruct l as [|[w|k|c|] r]; try exact I.
    apply wf_cons in H as (_ & Hn & _). destruct r as [|[]]; try exact I. discriminate. }
  unfold WS. pose proof (@WS1_head_not_Sp _ Hh) as Hh'.
  destruct (WS1 l0) as [|[w|k|c|] r] eqn:E; try contradiction; rewrite <- E;
    now apply WS1_same.
Qed.

Lemma lex_spaces w l :
  w <> [] -> forallb is_space w = true ->
  match l with Sp _ :: _ => False | _ => True end ->
  fold_right cons_char l w = Sp w :: l.
Proof.
  intros Hne Hw Hl. induction w as [|c w IH]; [congruence|].
  simpl in Hw. apply andb_true_iff in Hw as [Hc Hw]. cbn [fold_right].
  destruct w as [|c' w].
  - cbn [fold_right]. unfold cons_char. rewrite Hc.
    destruct l as [|[w'|k|ch|] l]; (contradiction || reflexivity).
  - rewrite IH by (discriminate || exact Hw). unfold cons_char. now rewrite Hc.
Qed.

Lemma plain_stops_hyphen r :
  wf r = true ->
  match r with Hy _ :: _ => False | NH :: _ => False | _ => True end ->
  match_leading_hyphens (plain r) = false.
Proof.
  destruct r as [|x r]; [reflexivity|]. intros H Hx. apply wf_cons in H as (Hc & _ & _).
  destruct x as [w|k|c|]; try contradiction; cbn [ok_chunk] in Hc.
  - destruct w as [|c w]; [discriminate|]. simpl in Hc.
    apply andb_true_iff in Hc as [Hc _]. cbn. now apply space_not_hyphen.
  - cbn. apply andb_true_iff in Hc as [Hc _]. apply andb_true_iff in Hc as [_ Hc].
    now apply negb_true_iff.
Qed.

Lemma G_head_not_Sp r :
  match r with Sp _ :: _ => False | _ => True end ->
  match G r with Sp _ :: _ => False | _ => True end.
Proof.
  destruct r as [|[w|k|c|] r]; cbn [G]; try tauto.
  destruct r as [|[w|k|c|] r]; tauto.
Qed.

(** The chunks of the text of a list of chunks. *)
Lemma lex_plain l : wf l = true -> lex (plain l) = G l.
Proof.
  intros Hwf. wf_induction l Hwf; trivial.
  - rewrite (@G_cons _ _ Hx). apply wf_cons in Hw as (Hc & Hn & Hr).
    cbn [plain flat_map]. fold (plain r). destruct x as [w|k|c|]; [| | |contradiction].
    + cbn [plain_of ok_chunk] in *. apply andb_true_iff in Hc as [Hw1 Hw2].
      unfold lex. rewrite fold_right_app. fold (lex (plain r)). rewrite IH.
      apply lex_spaces; [now destruct w | exact Hw2 |].
      apply G_head_not_Sp. destruct r as [|[]]; try exact I. discriminate.
    + cbn [plain_of ok_chunk] in *. rewrite lex_run, IH; [reflexivity | now apply Nat.leb_le |].
      apply plain_stops_hyphen; [exact Hr|]. destruct r as [|[]]; try exact I; discriminate.
    + cbn [plain_of ok_chunk app] in *. rewrite lex_cons, IH. unfold cons_char.
      apply andb_true_iff in Hc as [Hc _]. apply andb_true_iff in Hc as [Hs Hh].
      apply negb_true_iff in Hs, Hh. now rewrite Hs, Hh.
  - change (plain (NH :: Hy 1 :: r)) with (repeat hyphen 2 ++ plain r).
    apply wf_cons in Hw as (_ & _ & Hw). apply wf_cons in Hw as (_ & Hn & Hr).
    rewrite lex_run, IH; [reflexivity | lia |].
    apply plain_stops_hyphen; [exact Hr|]. destruct r as [|[]]; try exact I; discriminate.
Qed.

(** The text keeps its characters, hyphens and spaces apart. *)
Lemma plain_N3_forallb (p : ascii -> bool) l :
  p hyphen = true ->
  forall c, forallb p (plain l) = true -> forallb p (plain (N3 c l)) = true.
Proof.
  intros Hp. induction l as [|x r IH]; intros c H; [reflexivity|].
  cbn [plain flat_map N3] in *. rewrite forallb_app in *.
  apply andb_true_iff in H as [Hx H]. rewrite (IH _ H), andb_true_r.
  destruct (bridge c x r); [cbn; now rewrite Hp | exact Hx].
Qed.

Lemma plain_WS1_forallb (p : ascii -> bool) l :
  p space = true ->
  forallb p (plain l) = true -> forallb p (plain (WS1 l)) = true.
Proof.
  intros Hp. induction l as [|x r IH]; intros H; [reflexivity|].
  cbn [plain flat_map] in H. rewrite forallb_app in H.
  apply andb_true_iff in H as [Hx H]. specialize (IH H).
  destruct x as [w|k|ch|]; cbn [WS1];
    try (cbn [plain flat_map]; rewrite forallb_app; fold (plain (WS1 r));
         now rewrite Hx, IH).
  destruct r as [|y r]; [reflexivity|].
  cbn [plain flat_map]. rewrite forallb_app. fold (plain (WS1 (y :: r))).
  rewrite IH. cbn. now rewrite Hp.
Qed.

Lemma plain_WS_forallb (p : ascii -> bool) l :
  p space = true ->
  forallb p (plain l) = true -> forallb p (plain (WS l)) = true.
Proof.
  intros Hp H. unfold WS. apply plain_WS1_forallb; [exact Hp|].
  destruct l as [|[w|k|c|] r]; try exact H.
  cbn [plain flat_map] in H. rewrite forallb_app in H.
  now apply andb_true_iff in H as [_ H].
Qed.

(** A text without underscore and without backslash, once normalised, is
    not changed by a second normalisation. *)
Lemma clean_str_idempotent s :
  no_underscore s = true -> no_backslash s = true ->
  clean_str (clean_str s) = clean_str s.
Proof.
  intros Hu Hb.
  rewrite (@clean_str_chunks _ Hu), (@escape_same _ Hb).
  pose proof (@wf_lex _ Hu) as W0.
  pose proof (@wf_N3 _ N W0) as W3.
  pose proof (@wf_WS _ W3) as W4.
  set (y := WS (N3 N (lex s))) in *.
  assert (Hu' : no_underscore (plain y) = true).
  { subst y. apply plain_WS_forallb; [reflexivity|].
    apply plain_N3_forallb; [reflexivity|]. now rewrite plain_lex. }
  assert (Hb' : no_backslash (plain y) = true).
  { subst y. apply plain_WS_forallb; [reflexivity|].
    apply plain_N3_forallb; [reflexivity|]. now rewrite plain_lex. }
  rewrite (@clean_str_chunks _ Hu'), (@escape_same _ Hb'), (@lex_plain _ W4).
  rewrite (nob_fix (G y) N).
  - rewrite (@WS_G _ W4). subst y. rewrite (@WS_same _ W3).
    apply plain_G. exact W4.
  - apply nob_G; [exact W4|]. subst y. apply nob_WS, nob_N3.
Qed.

Lemma nosp_lex t :
  forallb (fun c => negb (is_space c)) t = true -> nosp (lex t) = true.
Proof.
  induction t as [|c t IH]; [reflexivity|]. simpl. intros H.
  apply andb_true_iff in H as [Hc H]. apply negb_true_iff in Hc.
  specialize (IH H). fold (lex t). unfold cons_char. rewrite Hc.
  destruct (is_hyphen c); [|exact IH].
  destruct (lex t) as [|[w|k|ch|] r]; exact IH.
Qed.

Lemma nosp_N3 l : nosp l = true -> forall c, N3 c l = l.
Proof.
  induction l as [|x r IH]; intros H c; [reflexivity|].
  simpl in H. apply andb_true_iff in H as [Hx H]. cbn [N3].
  rewrite (IH H). destruct x; [discriminate | now rewrite bridge_not_Sp ..].
Qed.

Lemma nosp_WS l : nosp l = true -> WS l = l.
Proof.
  intros H. unfold WS.
  assert (E : WS1 l = l).
  { induction l as [|x r IH]; [reflexivity|]. simpl in H.
    apply andb_true_iff in H as [Hx H]. destruct x; [discriminate | ..];
      cbn [WS1]; now rewrite (IH H). }
  destruct l as [|[w|k|c|] r]; try exact E. discriminate.
Qed.

(** A text without whitespace, underscore and backslash is not changed. *)
Lemma clean_str_no_space t :
  no_underscore t = true -> no_backslash t = true ->
  forallb (fun c => negb (is_space c)) t = true ->
  clean_str t = t.
Proof.
  intros Hu Hb Hs. rewrite (@clean_str_chunks _ Hu), (@escape_same _ Hb).
  pose proof (@nosp_lex _ Hs) as Hn.
  rewrite (@nosp_N3 _ Hn N), (@nosp_WS _ Hn). apply plain_lex.
Qed.

Lemma digits_plain ds :
  forallb is_digit ds = true ->
  no_underscore ds = true /\ no_backslash ds = true
  /\ forallb (fun c => negb (is_space c)) ds = true.
Proof.
  induction ds as [|d ds IH]; [auto|]. simpl. intros H.
  apply andb_true_iff in H as [Hd H]. destruct (IH H) as (-> & -> & ->).
  rewrite (@digit_not_underscore _ Hd), (@digit_not_space _ Hd).
  replace (Ascii.eqb d backslash) with false; [auto|].
  revert Hd. clear. ascii_cases d.
Qed.

Lemma str_of_Z_plain z :
  no_underscore (str_of_Z z) = true /\ no_backslash (str_of_Z z) = true
  /\ forallb (fun c => negb (is_space c)) (str_of_Z z) = true.
Proof.
  destruct z as [|p|p]; unfold str_of_Z;
    try (apply digits_plain, str_of_N_digits).
  destruct (@digits_plain _ (str_of_N_digits (N.pos p))) as (H1 & H2 & H3).
  simpl. now rewrite H1, H2, H3.
Qed.

(** C3 (as amended).  [clean_text] applied to its own result gives the same
    result, for [None], for an integer or a Boolean value, and for every
    string that has no underscore and no backslash. *)
Theorem clean_text_idempotent (text : pyval) :
  (forall s, text = PyStr s -> no_underscore s = true /\ no_backslash s = true) ->
  clean_text (PyStr (clean_text text)) = clean_text text.
Proof.
  intros H. destruct text as [|s|z|b]; cbn [clean_text py_str].
  - reflexivity.
  - destruct (H s eq_refl) as [Hu Hb]. now apply clean_str_idempotent.
  - destruct (str_of_Z_plain z) as (H1 & H2 & H3). now apply clean_str_no_space.
  - destruct b; reflexivity.
Qed.

Lemma clean_text_idempotent_witness :
  clean_text (PyStr (clean_text (PyStr (py "  12'   - a ---  b "))))
  = clean_text (PyStr (py "  12'   - a ---  b "))
  /\ clean_text (PyStr (py "  12'   - a ---  b ")) = py "12'-- a --- b".
Proof.
  split; [|reflexivity].
  apply clean_text_idempotent. intros s [= <-]. split; reflexivity.
Defined.

(** C3 as stated fails: two backslashes and an apostrophe lose one
    backslash at each normalisation. *)
Lemma clean_text_not_idempotent :
  ~ (forall text : pyval, clean_text (PyStr (clean_text text)) = clean_text text).
Proof.
  intros H. specialize (H (PyStr [backslash; backslash; apostrophe])).
  vm_compute in H. discriminate.
Qed.

End Idempotence.

Section HyphenRuns.
Import CleanText Chunks.

(** X27.  In a text without underscore, a run of two or more hyphens
    between two word characters is in the normalised text as it is: the
    same word characters with exactly as many hyphens between them. *)
Theorem hyphen_run_survives (pre post : str) (w1 w2 : ascii) (k : nat) :
  2 <= k ->
  is_word w1 = true -> is_word w2 = true ->
  no_underscore (pre ++ [w1] ++ repeat hyphen k ++ [w2] ++ post) = true ->
  exists pre' post',
    clean_str (pre ++ [w1] ++ repeat hyphen k ++ [w2] ++ post)
    = pre' ++ [w1] ++ repeat hyphen k ++ [w2] ++ post'
    /\ is_hyphen w1 = false /\ is_hyphen w2 = false.
Proof.
  intros Hk H1 H2 Hnu.
  destruct (word_class _ H1) as (Hs1 & Hh1 & Hb1).
  destruct (word_class _ H2) as (Hs2 & Hh2 & Hb2).
  rewrite (clean_str_chunks _ Hnu).
  (* the first pass *)
  destruct (@escape_prefix pre w1 (repeat hyphen k ++ [w2] ++ post)
              (word_not_escaped _ H1)) as [pre1 E1].
  cbn [app] in E1 |- *. rewrite E1. clear E1.
  assert (E2 : re_sub m_escape (w1 :: repeat hyphen k ++ w2 :: post)
               = (w1 :: repeat hyphen k ++ [w2]) ++ re_sub m_escape post).
  { replace (w1 :: repeat hyphen k ++ w2 :: post)
      with ((w1 :: repeat hyphen k ++ [w2]) ++ post)
      by (cbn [app]; now rewrite <- app_assoc).
    apply (@re_sub_inert _ (fun c => Ascii.eqb c backslash)); [exact escape_inert|].
    cbn [forallb]. rewrite Hb1, forallb_app. cbn [forallb]. rewrite Hb2.
    cbn [negb andb]. rewrite andb_true_r. clear. induction k; simpl; auto. }
  rewrite E2. clear E2. set (post1 := re_sub m_escape post).
  (* the chunks *)
  assert (EL : lex (pre1 ++ (w1 :: repeat hyphen k ++ [w2]) ++ post1)
               = lex pre1 ++ Tx w1 :: Hy k :: Tx w2 :: lex post1).
  { cbn [app]. rewrite (@lex_app_Tx pre1 w1 _ Hs1 Hh1). f_equal. f_equal.
    rewrite <- app_assoc. cbn [app]. rewrite lex_run; [|lia|cbn; exact Hh2].
    f_equal. rewrite lex_cons. unfold cons_char. now rewrite Hs2, Hh2. }
  rewrite EL. clear EL.
  destruct (N3_app (lex pre1) N (Tx w1 :: Hy k :: Tx w2 :: lex post1))
    as (a3 & c3 & E3).
  rewrite E3. clear E3.
  assert (E3' : exists b3, N3 c3 (Tx w1 :: Hy k :: Tx w2 :: lex post1)
                           = Tx w1 :: Hy k :: Tx w2 :: b3).
  { eexists. cbn [N3]. rewrite !bridge_not_Sp by exact I. reflexivity. }
  destruct E3' as [b3 E3']. rewrite E3'. clear E3'.
  destruct (@WS_app a3 (Tx w1) (Hy k :: Tx w2 :: b3) I) as [a4 E4].
  rewrite E4. clear E4. cbn [WS1].
  exists (plain a4), (plain (WS1 b3)).
  split; [|split; assumption].
  rewrite plain_app. cbn [plain flat_map plain_of app].
  fold (plain (WS1 b3)). reflexivity.
Qed.

Lemma hyphen_run_survives_witness :
  exists pre' post',
    clean_str (py "see  a---b \'x") = pre' ++ py "a---b" ++ post'.
Proof.
  destruct (@hyphen_run_survives (py "see  ") (py " \'x") "a" "b" 3)
    as (pre' & post' & E & _); try reflexivity; [lia|].
  exists pre', post'. exact E.
Defined.

(** C9, on the code.  The run of two hyphens of ["__HYPHEN_1--a"], between
    the word characters [1] and [a], is not kept.  The second pass writes
    the run as its marker in the text itself; with the characters before
    it, the fifth pass then reads a marker for one hyphen where the text
    had none, and what is left of the marker of the run stays in the text.
    The normalised text has no two hyphens in a row. *)
Theorem hyphen_run_lost_by_marker_collision :
  is_word "1"%char = true /\ is_word "a"%char = true
  /\ re_sub m_protect_hyphens (py "__HYPHEN_1--a") = py "__HYPHEN_1__HYPHEN_2__a"
  /\ clean_text (PyStr (py "__HYPHEN_1--a")) = py "-HYPHEN_2__a"
  /\ Alto.contains (py "--") (clean_text (PyStr (py "__HYPHEN_1--a"))) = false.
Proof. vm_compute. repeat split; reflexivity. Qed.

(** So the run of hyphens is not kept in every text. *)
Lemma hyphen_run_lost_after_marker_text :
  ~ (forall (pre post : str) (w1 w2 : ascii) (k : nat),
        2 <= k -> is_word w1 = true -> is_word w2 = true ->
        exists pre' post',
          clean_str (pre ++ [w1] ++ repeat hyphen k ++ [w2] ++ post)
          = pre' ++ [w1] ++ repeat hyphen k ++ [w2] ++ post').
Proof.
  intros H.
  destruct (H (py "__HYPHEN_") [] "1"%char "a"%char 2 (le_n 2) eq_refl eq_refl)
    as (pre' & post' & E).
  apply (f_equal (Alto.contains (py "--"))) in E.
  change ([ "1"%char ] ++ repeat hyphen 2 ++ ["a"%char] ++ post')
    with ("1"%char :: py "--" ++ "a"%char :: post') in E.
  replace (pre' ++ "1"%char :: py "--" ++ "a"%char :: post')
    with ((pre' ++ ["1"%char]) ++ py "--" ++ "a"%char :: post') in E
    by (now rewrite <- app_assoc).
  rewrite contains_app in E. vm_compute in E. discriminate.
Qed.

End HyphenRuns.

(** * Further properties *)

(** ** [clean_text] *)

Section CleanTextPasses.
Import CleanText Chunks.

(** X1.  The last substitution of [clean_text], the one that is to fix the
    spacing around hyphens after a number, puts back what it matched: it
    changes no text. *)
Theorem last_substitution_changes_nothing (s : str) :
  re_sub m_tighten s = s.
Proof. apply tighten_same. Qed.

Lemma restored_cons_char c l : restored (cons_char c l) = c :: restored l.
Proof.
  unfold cons_char.
  destruct (is_space c); [destruct l as [|[w|k|x|] l]; reflexivity|].
  destruct (is_hyphen c) eqn:H; [|reflexivity].
  apply hyphen_class in H as [-> _].
  destruct l as [|[w|k|x|] l]; reflexivity.
Qed.

Lemma restored_lex s : restored (lex s) = s.
Proof.
  induction s as [|c s IH]; [reflexivity|].
  now rewrite lex_cons, restored_cons_char, IH.
Qed.

(** X2.  In a text without underscore, protecting the runs of hyphens and
    restoring them gives the text back. *)
Theorem hyphen_markers_round_trip (s : str) :
  no_underscore s = true ->
  re_sub m_restore_hyphens (re_sub m_protect_hyphens s) = s.
Proof.
  intros H. rewrite protect_hyphens_lex.
  rewrite (@restore_hyphens_marked _ (@wf_lex _ H)). apply restored_lex.
Qed.

Lemma hyphen_markers_round_trip_witness :
  re_sub m_restore_hyphens (re_sub m_protect_hyphens (py "a--b ---- c-d")) = py "a--b ---- c-d"
  /\ re_sub m_protect_hyphens (py "a--b ---- c-d") = py "a__HYPHEN_2__b __HYPHEN_4__ c-d".
Proof.
  split; [apply hyphen_markers_round_trip|]; reflexivity.
Defined.

Lemma lex_all_spaces w :
  forallb is_space w = true -> lex w = match w with [] => [] | _ => [Sp w] end.
Proof.
  intros H. destruct w as [|c w]; [reflexivity|].
  unfold lex. rewrite <- (app_nil_r (c :: w)) at 1. rewrite fold_right_app.
  apply lex_spaces; [discriminate | exact H | exact I].
Qed.

Lemma no_backslash_of_space w :
  forallb is_space w = true -> no_backslash w = true.
Proof.
  induction w as [|c w IH]; [reflexivity|]. simpl. intros H.
  apply andb_true_iff in H as [Hc H]. rewrite (IH H), andb_true_r.
  revert Hc. clear. ascii_cases c.
Qed.

(** X3.  A text of whitespace only is normalised to the empty string. *)
Theorem clean_text_of_whitespace (s : str) :
  forallb is_space s = true -> clean_text (PyStr s) = [].
Proof.
  intros H. cbn [clean_text].
  rewrite (@clean_str_chunks s (no_underscore_of_space _ H)).
  rewrite (@escape_same s (no_backslash_of_space _ H)).
  rewrite (lex_all_spaces _ H). now destruct s.
Qed.

Lemma clean_text_of_whitespace_witness :
  clean_text (PyStr [space; tab; newline; cr; space]) = [].
Proof. apply clean_text_of_whitespace. reflexivity. Defined.

(** The text of a list of chunks, for any spelling of the chunks that
    are not whitespace. *)
Section Rendering.
Variable f : chunk -> str.
Hypothesis f_space : forall w, f (Sp w) = w.
Hypothesis f_word : forall x,
  ok_chunk x = true -> match x with Sp _ => False | _ => True end ->
  f x <> [] /\ forallb (fun c => negb (is_space c)) (f x) = true.

Lemma render_not_nil x r : ok_chunk x = true -> flat_map f (x :: r) <> [].
Proof.
  intros Hc. cbn [flat_map]. destruct x as [w|k|c|].
  - rewrite f_space. cbn [ok_chunk] in Hc. apply andb_true_iff in Hc as [Hc _].
    destruct w; [discriminate | discriminate].
  - destruct (f_word (Hy k) Hc I) as [H _]. destruct (f (Hy k)); [congruence | discriminate].
  - destruct (f_word (Tx c) Hc I) as [H _]. destruct (f (Tx c)); [congruence | discriminate].
  - destruct (f_word NH Hc I) as [H _]. destruct (f NH); [congruence | discriminate].
Qed.

Lemma render_stops_space r :
  wf r = true -> match r with Sp _ :: _ => False | _ => True end ->
  stops is_space (flat_map f r) = true.
Proof.
  destruct r as [|x r]; [reflexivity|]. intros H Hx.
  apply wf_cons in H as (Hc & _ & _).
  assert (Hx' : match x with Sp _ => False | _ => True end) by (destruct x; auto).
  destruct (f_word x Hc Hx') as [Hn Hw].
  cbn [flat_map]. destruct (f x) as [|c t]; [congruence|].
  simpl in Hw. apply andb_true_iff in Hw as [Hw _]. exact Hw.
Qed.

Lemma normalise_render1 l :
  wf l = true -> match l with Sp _ :: _ => False | _ => True end ->
  join (py " ") (split (flat_map f l)) = flat_map f (WS1 l).
Proof.
  induction l as [l IH] using (induction_ltof1 _ (@length chunk)). unfold ltof in IH.
  intros Hwf Hl. destruct l as [|x r]; [reflexivity|].
  apply wf_cons in Hwf as (Hc & Hn & Hr).
  assert (Hx : match x with Sp _ => False | _ => True end) by (destruct x; auto).
  destruct (f_word x Hc Hx) as [Hu Hw].
  assert (EW : WS1 (x :: r) = x :: WS1 r) by (destruct x; [contradiction | reflexivity ..]).
  rewrite EW. cbn [flat_map].
  destruct r as [|y r'].
  - cbn [WS1 flat_map]. rewrite (@split_word _ [] Hu Hw).
    cbn [join]. now rewrite app_nil_r.
  - assert (Hgen : match y with Sp _ => False | _ => True end ->
                   join (py " ") (split (f x ++ flat_map f (y :: r')))
                   = f x ++ flat_map f (WS1 (y :: r'))).
    { intros Hy.
      assert (Hy' : match y :: r' with Sp _ :: _ => False | _ => True end)
        by (destruct y; auto).
      rewrite norm_word;
        [rewrite IH; [reflexivity | simpl; lia | exact Hr | exact Hy']
        | exact Hu | exact Hw
        | now apply render_stops_space
        | apply wf_cons in Hr as (Hcy & _ & _); now apply render_not_nil]. }
    destruct y as [w|k|c|].
    + pose proof Hr as Hr2. apply wf_cons in Hr2 as (Hcw & Hnw & Hr').
      cbn [ok_chunk] in Hcw. apply andb_true_iff in Hcw as [Hw1 Hw2].
      cbn [flat_map]. rewrite f_space.
      rewrite (@norm_word_gap _ w (flat_map f r') Hu Hw); trivial;
        [|destruct w; [discriminate | discriminate]].
      destruct r' as [|z r''].
      * cbn [flat_map split WS1]. now rewrite app_nil_r.
      * assert (Hz : match z :: r'' with Sp _ :: _ => False | _ => True end)
          by (destruct z; [discriminate | exact I ..]).
        rewrite IH; [|simpl; lia|exact Hr'|exact Hz].
        pose proof Hr' as Hr3. apply wf_cons in Hr3 as (Hcz & _ & _).
        assert (Hsz : stops is_space (flat_map f (z :: r'')) = true)
          by (now apply render_stops_space).
        pose proof (@render_not_nil z r'' Hcz) as Hnz.
        destruct (flat_map f (z :: r'')) as [|d s] eqn:Em; [congruence|].
        simpl in Hsz. apply negb_true_iff in Hsz.
        pose proof (@split_not_nil d s Hsz) as Hsn.
        destruct (split (d :: s)); [congruence|].
        cbn [WS1 flat_map]. rewrite f_space. reflexivity.
    + apply Hgen. exact I.
    + apply Hgen. exact I.
    + apply Hgen. exact I.
Qed.

Lemma normalise_render l :
  wf l = true -> join (py " ") (split (flat_map f l)) = flat_map f (WS l).
Proof.
  intros H. unfold WS. destruct l as [|x r]; [reflexivity|].
  destruct x as [w|k|c|]; try (now apply normalise_render1).
  apply wf_cons in H as (Hc & Hn & Hr).
  cbn [ok_chunk] in Hc. apply andb_true_iff in Hc as [_ Hw].
  cbn [flat_map]. rewrite f_space.
  rewrite split_spaces by exact Hw.
  apply normalise_render1; [exact Hr|].
  destruct r as [|[]]; auto. discriminate.
Qed.

End Rendering.

Lemma plain_of_word x :
  ok_chunk x = true -> match x with Sp _ => False | _ => True end ->
  plain_of x <> [] /\ forallb (fun c => negb (is_space c)) (plain_of x) = true.
Proof.
  intros Hc Hx. destruct x as [w|k|c|]; [contradiction| | |].
  - cbn [plain_of ok_chunk] in *. destruct k as [|k]; [discriminate|].
    split; [discriminate|]. clear. induction (S k); simpl; auto.
  - cbn [ok_chunk] in Hc. apply andb_true_iff in Hc as [Hc _].
    apply andb_true_iff in Hc as [Hc _]. split; [discriminate|]. simpl. now rewrite Hc.
  - split; [discriminate | reflexivity].
Qed.

(** X4.  The result for a text without underscore has its words one
    space apart and no whitespace at its ends: splitting it at whitespace
    and joining the words with one space gives it back. *)
Theorem clean_text_spacing (s : str) :
  no_underscore s = true ->
  join (py " ") (split (clean_text (PyStr s))) = clean_text (PyStr s).
Proof.
  intros H. cbn [clean_text]. rewrite (@clean_str_chunks s H).
  pose proof (@wf_N3 _ N (@wf_lex _ (@escape_no_underscore _ H))) as W.
  change (plain (WS (N3 N (lex (re_sub m_escape s)))))
    with (flat_map plain_of (WS (N3 N (lex (re_sub m_escape s))))).
  rewrite (@normalise_render plain_of (fun w => eq_refl) plain_of_word _ (@wf_WS _ W)).
  now rewrite (@WS_same _ W).
Qed.

Lemma clean_text_spacing_witness :
  join (py " ") (split (clean_text (PyStr (py "  a   b - c  "))))
  = clean_text (PyStr (py "  a   b - c  "))
  /\ clean_text (PyStr (py "  a   b - c  ")) = py "a b - c".
Proof. split; [apply clean_text_spacing|]; reflexivity. Defined.

(** X5.  The first substitution only takes backslashes out; it puts no
    space, also not for an escaped newline, carriage return or tab. *)
Theorem escapes_only_lose_backslashes (s : str) :
  filter (fun c => negb (Ascii.eqb c backslash)) (re_sub m_escape s)
  = filter (fun c => negb (Ascii.eqb c backslash)) s.
Proof.
  induction s as [s IH] using (induction_ltof1 _ (@length ascii)). unfold ltof in IH.
  destruct s as [|b s]; [reflexivity|].
  destruct (m_escape (b :: s)) as [[repl n]|] eqn:E.
  - unfold m_escape in E. destruct s as [|c s]; [discriminate|].
    destruct (Ascii.eqb b backslash) eqn:Eb; [|discriminate]. cbn [andb] in E.
    destruct (_ || _) eqn:Ec in E; [|discriminate]. injection E as <- <-.
    rewrite (@re_sub_match m_escape b (c :: s) _ 1 ltac:(unfold m_escape; now rewrite Eb, Ec)).
    cbn [skipn app filter]. rewrite Eb. cbn [negb].
    rewrite <- (IH s) by (simpl; lia).
    assert (Hx : existsb (Ascii.eqb c) (py "nrt") = false).
    { revert Ec. clear. ascii_cases c. }
    rewrite Hx. reflexivity.
  - rewrite (@re_sub_keep m_escape b s E). cbn [filter].
    now rewrite (IH s) by (simpl; lia).
Qed.

End CleanTextPasses.

(** ** [process_text_block] *)

Section TextBlockLoop.
Import TextBlock.

Variable block_strings : list element.

Ltac look_ahead :=
  match goal with
  | |- context [match ?x with Some _ => _ | None => _ end] => destruct x
  end.

Lemma case34_emits st s :
  exists w b, case34 block_strings st s = emit st w (word_confidence s) b.
Proof.
  unfold case34.
  look_ahead; [|do 2 eexists; reflexivity].
  destruct (str_eqb (subs_type _) _); [|do 2 eexists; reflexivity].
  destruct (merge_guard s _); do 2 eexists; reflexivity.
Qed.

(** A pass over a token that is looked at emits one word. *)
Lemma body_emits st :
  skip_next st = false -> i st < length block_strings ->
  exists s w b, nth_error block_strings (i st) = Some s
                /\ body block_strings st = emit st w (word_confidence s) b.
Proof.
  intros Hsk Hlt.
  destruct (nth_error block_strings (i st)) as [s|] eqn:Hs;
    [|apply nth_error_None in Hs; lia].
  exists s. rewrite (@body_at block_strings st s Hsk Hs).
  destruct (truthy (content s) && match_multi_hyphen (content s));
    [do 2 eexists; split; reflexivity|].
  look_ahead.
  - destruct (numeric_next _); [do 2 eexists; split; reflexivity|].
    destruct (case34_emits st s) as (w & b & E). exists w, b. now split.
  - destruct (case34_emits st s) as (w & b & E). exists w, b. now split.
Qed.

Lemma body_skips st :
  skip_next st = true ->
  body block_strings st
  = {| i := S (i st); skip_next := false;
       words := words st; word_confidences := word_confidences st |}.
Proof. intros H. unfold body. now rewrite H. Qed.

Lemma while_stop fuel st :
  length block_strings <= i st -> while fuel block_strings st = st.
Proof.
  intros H. destruct fuel; [reflexivity|]. simpl.
  apply Nat.ltb_ge in H. now rewrite H.
Qed.

Lemma while_add a : forall b st,
  while (a + b) block_strings st = while b block_strings (while a block_strings st).
Proof.
  induction a as [|a IH]; intros b st; [reflexivity|]. simpl.
  destruct (i st <? length block_strings) eqn:E; [apply IH|].
  apply Nat.ltb_ge in E. now rewrite while_stop.
Qed.

(** X6.  The loop of [process_text_block] ends: after as many passes as
    there are tokens the index is the number of tokens, and no further
    pass is made. *)
Theorem loop_ends_after_len_passes (extra : nat) :
  while (length block_strings + extra) block_strings init = final block_strings
  /\ i (final block_strings) = length block_strings
  /\ skip_next (final block_strings) = false.
Proof.
  pose proof (final_exits block_strings) as Hi.
  split; [|split; [exact Hi|]].
  - rewrite while_add. fold (final block_strings). apply while_stop. lia.
  - destruct (skip_next (final block_strings)) eqn:E; [|reflexivity].
    rewrite final_run in E. apply skip_run in E; [|lia].
    destruct E as (t & Ht & _).
    assert (length block_strings < length block_strings)
      by (apply nth_error_Some; congruence).
    lia.
Qed.

Lemma count_run k :
  k <= length block_strings ->
  length (words (run block_strings k)) <= k
  /\ k + (if skip_next (run block_strings k) then 1 else 0)
     <= 2 * length (words (run block_strings k)).
Proof.
  induction k as [|k IH]; intros Hk; [simpl; lia|].
  destruct IH as [IH1 IH2]; [lia|]. rewrite run_S.
  destruct (skip_next (run block_strings k)) eqn:Hsk.
  - rewrite (body_skips _ Hsk). simpl. lia.
  - destruct (@body_emits (run block_strings k) Hsk) as (s & w & b & _ & E).
    { rewrite i_run; lia. }
    rewrite E. simpl. rewrite length_app. simpl. destruct b; lia.
Qed.

(** X7.  There are at most as many words as tokens and at least half as
    many, and one confidence value for each word. *)
Theorem word_count_bounds :
  length (words (final block_strings)) <= length block_strings
  /\ length block_strings <= 2 * length (words (final block_strings))
  /\ length (snd (process_text_block block_strings))
     = length (words (final block_strings)).
Proof.
  rewrite process_text_block_final. cbn [snd].
  rewrite final_run, <- lengths_run.
  destruct (count_run (Nat.le_refl (length block_strings))) as [H1 H2].
  repeat split; lia.
Qed.

Lemma skip_case34_pair st s :
  skip_next (case34 block_strings st s) = true ->
  exists t, nth_error block_strings (i st + 1) = Some t
            /\ subs_type s = py "HypPart1" /\ subs_type t = py "HypPart2"
            /\ merge_guard s t = true
            /\ words (case34 block_strings st s) = words st ++ [subs_content s].
Proof.
  unfold case34.
  destruct (str_eqb (subs_type s) (py "HypPart1")) eqn:E1; [|discriminate].
  destruct (i st + 1 <? length block_strings); [|discriminate]. cbn [andb].
  destruct (nth_error block_strings (i st + 1)) as [t|]; [|discriminate].
  destruct (str_eqb (subs_type t) (py "HypPart2")) eqn:E2; [|discriminate].
  destruct (merge_guard s t) eqn:G; [|discriminate].
  intros _. exists t. apply str_eqb_eq in E1, E2. auto.
Qed.

(** X8.  A token is passed over without a word only as the second half
    of a pair that was merged in the pass before: the token before it is
    a first half, it is a second half itself, the guard of the merge holds
    for the pair, and the word of the pass before is the substituted
    content. *)
Theorem skipped_token_is_merged_second_half (k : nat) :
  k <= length block_strings ->
  skip_next (run block_strings k) = true ->
  exists j s t,
    k = S j
    /\ nth_error block_strings j = Some s /\ nth_error block_strings k = Some t
    /\ subs_type s = py "HypPart1" /\ subs_type t = py "HypPart2"
    /\ merge_guard s t = true
    /\ words (run block_strings k) = words (run block_strings j) ++ [subs_content s].
Proof.
  destruct k as [|j]; intros Hk; [discriminate|].
  rewrite run_S. intros H. exists j.
  destruct (skip_next (run block_strings j)) eqn:Hsk.
  { rewrite (body_skips _ Hsk) in H. discriminate. }
  destruct (nth_error block_strings j) as [s|] eqn:Hs;
    [|apply nth_error_None in Hs; lia].
  assert (Hi : i (run block_strings j) = j) by (apply i_run; lia).
  assert (Hb : nth_error block_strings (i (run block_strings j)) = Some s)
    by now rewrite Hi.
  rewrite (@body_at block_strings _ s Hsk Hb) in *.
  destruct (truthy (content s) && match_multi_hyphen (content s)); [discriminate|].
  assert (Hc : skip_next (case34 block_strings (run block_strings j) s) = true ->
               exists t, nth_error block_strings (S j) = Some t
                 /\ subs_type s = py "HypPart1" /\ subs_type t = py "HypPart2"
                 /\ merge_guard s t = true
                 /\ words (case34 block_strings (run block_strings j) s)
                    = words (run block_strings j) ++ [subs_content s]).
  { intros H'. apply skip_case34_pair in H'. destruct H' as (t & Ht & H').
    rewrite Hi in Ht. replace (j + 1) with (S j) in Ht by lia. eauto. }
  revert H.
  match goal with
  | |- context [match ?x with Some _ => _ | None => _ end] => destruct x as [n|]
  end.
  - destruct (numeric_next n); [discriminate|].
    intros H. destruct (Hc H) as (t & Ht & H'). exists s, t. tauto.
  - intros H. destruct (Hc H) as (t & Ht & H'). exists s, t. tauto.
Qed.

End TextBlockLoop.

Section TextBlockPlain.
Import TextBlock.

Lemma skipped_token_is_merged_second_half_witness :
  exists j s t,
    1 = S j
    /\ nth_error [String_ "com-" "HypPart1" "computer" "0.5";
                  String_ "puter" "HypPart2" "computer" "0.25"] j = Some s
    /\ nth_error [String_ "com-" "HypPart1" "computer" "0.5";
                  String_ "puter" "HypPart2" "computer" "0.25"] 1 = Some t
    /\ subs_type s = py "HypPart1" /\ subs_type t = py "HypPart2"
    /\ merge_guard s t = true
    /\ words (run [String_ "com-" "HypPart1" "computer" "0.5";
                   String_ "puter" "HypPart2" "computer" "0.25"] 1)
       = words (run [String_ "com-" "HypPart1" "computer" "0.5";
                     String_ "puter" "HypPart2" "computer" "0.25"] j)
         ++ [subs_content s].
Proof.
  apply (@skipped_token_is_merged_second_half
           [String_ "com-" "HypPart1" "computer" "0.5";
            String_ "puter" "HypPart2" "computer" "0.25"] 1);
    [simpl; lia | reflexivity].
Defined.

Lemma firstn_S_nth {A : Type} (l : list A) : forall k x,
  nth_error l k = Some x -> firstn (S k) l = firstn k l ++ [x].
Proof.
  induction l as [|a l IH]; intros [|k] x H; try discriminate.
  - injection H as <-. now destruct l.
  - simpl in H. change (firstn (S (S k)) (a :: l)) with (a :: firstn (S k) l).
    now rewrite (IH _ _ H).
Qed.

Lemma run_untagged (block_strings : list element) :
  forallb (fun s => negb (str_eqb (subs_type s) (py "HypPart1"))) block_strings = true ->
  forall k, k <= length block_strings ->
  run block_strings k
  = {| i := k; skip_next := false;
       words := map content (firstn k block_strings);
       word_confidences := map word_confidence (firstn k block_strings) |}.
Proof.
  intros Hall. induction k as [|k IH]; intros Hk; [reflexivity|].
  rewrite run_S, IH by lia.
  destruct (nth_error block_strings k) as [s|] eqn:Hs;
    [|apply nth_error_None in Hs; lia].
  rewrite (@body_at block_strings
             {| i := k; skip_next := false;
                words := map content (firstn k block_strings);
                word_confidences := map word_confidence (firstn k block_strings) |}
             s eq_refl Hs).
  rewrite (firstn_S_nth _ _ Hs), !map_app. cbn [map].
  assert (H1 : str_eqb (subs_type s) (py "HypPart1") = false).
  { apply nth_error_In in Hs. rewrite forallb_forall in Hall.
    apply negb_true_iff. now apply Hall. }
  destruct (truthy (content s) && match_multi_hyphen (content s)); [reflexivity|].
  rewrite H1, andb_false_r. cbn [andb].
  unfold case34. rewrite H1. reflexivity.
Qed.

(** X9.  When no token is tagged as the first half of a pair, the text is
    the contents of the tokens, one space apart, and the confidence values
    are those of the tokens. *)
Theorem untagged_tokens_pass_through (block_strings : list element) :
  forallb (fun s => negb (str_eqb (subs_type s) (py "HypPart1"))) block_strings = true ->
  process_text_block block_strings
  = (join (py " ") (map content block_strings), map word_confidence block_strings).
Proof.
  intros H. rewrite process_text_block_final, final_run.
  rewrite (run_untagged _ H (Nat.le_refl _)). cbn [words word_confidences].
  now rewrite firstn_all.
Qed.

Lemma untagged_tokens_pass_through_witness :
  process_text_block
    [String_ "12" "" "" "1"; String_ "--" "" "" "1"; String_ "puter" "HypPart2" "x" "1"]
  = (join (py " ")
       (map content
          [String_ "12" "" "" "1"; String_ "--" "" "" "1"; String_ "puter" "HypPart2" "x" "1"]),
     map word_confidence
       [String_ "12" "" "" "1"; String_ "--" "" "" "1"; String_ "puter" "HypPart2" "x" "1"]).
Proof. apply untagged_tokens_pass_through. reflexivity. Defined.

End TextBlockPlain.

(** ** Sorting with a key *)

Section SortingProperties.
Variable A : Type.
Variable key : A -> Z.

Lemma insert_by_perm x l : Permutation (insert_by key x l) (x :: l).
Proof.
  induction l as [|y l IH]; simpl; [apply Permutation_refl|].
  destruct (key x <? key y)%Z; [apply Permutation_refl|].
  eapply perm_trans; [apply perm_skip, IH | apply perm_swap].
Qed.

Lemma fold_insert_perm l : forall acc,
  Permutation (fold_left (fun acc x => insert_by key x acc) l acc) (acc ++ l).
Proof.
  induction l as [|x l IH]; intros acc; simpl.
  - rewrite app_nil_r. apply Permutation_refl.
  - eapply perm_trans; [apply IH|].
    eapply perm_trans; [apply Permutation_app_tail, insert_by_perm|].
    simpl. apply Permutation_middle.
Qed.

Lemma insert_by_sorted x l :
  StronglySorted (fun a b : A => (key a <= key b)%Z) l -> StronglySorted (fun a b : A => (key a <= key b)%Z) (insert_by key x l).
Proof.
  induction l as [|y l IH]; intros H; simpl.
  - constructor; constructor.
  - inversion H as [|y' l' Hs Hf]; subst.
    destruct (key x <? key y)%Z eqn:E.
    + apply Z.ltb_lt in E. constructor; [exact H|].
      constructor; [lia|].
      apply Forall_forall. intros z Hz. rewrite Forall_forall in Hf.
      specialize (Hf z Hz). simpl in Hf. lia.
    + apply Z.ltb_ge in E. constructor; [now apply IH|].
      apply Forall_forall. intros z Hz.
      apply (Permutation_in _ (insert_by_perm x l)) in Hz.
      destruct Hz as [<-|Hz]; [exact E|].
      rewrite Forall_forall in Hf. now apply Hf.
Qed.

Lemma fold_insert_sorted l : forall acc,
  StronglySorted (fun a b : A => (key a <= key b)%Z) acc ->
  StronglySorted (fun a b : A => (key a <= key b)%Z) (fold_left (fun acc x => insert_by key x acc) l acc).
Proof.
  induction l as [|x l IH]; intros acc H; simpl; [exact H|].
  apply IH. now apply insert_by_sorted.
Qed.

Lemma insert_by_filter z x l :
  StronglySorted (fun a b : A => (key a <= key b)%Z) l ->
  filter (fun a => (key a =? z)%Z) (insert_by key x l)
  = filter (fun a => (key a =? z)%Z) l ++ (if (key x =? z)%Z then [x] else []).
Proof.
  induction l as [|y l IH]; intros H; simpl.
  - now destruct (key x =? z)%Z.
  - inversion H as [|y' l' Hs Hf]; subst.
    destruct (key x <? key y)%Z eqn:E.
    + apply Z.ltb_lt in E. cbn [filter].
      destruct (key x =? z)%Z eqn:Ex; [|now rewrite app_nil_r].
      apply Z.eqb_eq in Ex.
      assert (Hy : (key y =? z)%Z = false) by (apply Z.eqb_neq; lia).
      rewrite Hy.
      assert (Hl : filter (fun a => (key a =? z)%Z) l = []).
      { clear - Hf E Ex. induction l as [|a l IHl]; [reflexivity|].
        inversion Hf as [|a' l' Ha Hl]; subst. simpl.
        assert (Hz : (key a =? key x)%Z = false) by (apply Z.eqb_neq; lia).
        rewrite Hz. now apply IHl. }
      now rewrite Hl.
    + cbn [filter]. rewrite (IH Hs).
      now destruct (key y =? z)%Z.
Qed.

Lemma fold_insert_filter z l : forall acc,
  StronglySorted (fun a b : A => (key a <= key b)%Z) acc ->
  filter (fun a => (key a =? z)%Z) (fold_left (fun acc x => insert_by key x acc) l acc)
  = filter (fun a => (key a =? z)%Z) acc ++ filter (fun a => (key a =? z)%Z) l.
Proof.
  induction l as [|x l IH]; intros acc H; simpl; [now rewrite app_nil_r|].
  rewrite (IH _ (insert_by_sorted x H)), (insert_by_filter z x H), <- app_assoc.
  now destruct (key x =? z)%Z.
Qed.

Lemma sort_by_spec (l : list A) :
  Permutation (sort_by key l) l
  /\ StronglySorted (fun a b : A => (key a <= key b)%Z) (sort_by key l)
  /\ forall z, filter (fun a => (key a =? z)%Z) (sort_by key l)
               = filter (fun a => (key a =? z)%Z) l.
Proof.
  unfold sort_by. split; [|split].
  - apply (fold_insert_perm l []).
  - apply fold_insert_sorted. constructor.
  - intros z. apply (fold_insert_filter z l (SSorted_nil _)).
Qed.

(** X10.  [list.sort(key=...)], as the program uses it for the content
    areas, for the blocks of an article and for the page files: the result
    has the elements of the list, is in ascending order of the key, and
    keeps the elements of equal key in the order they had. *)
Theorem sort_by_is_a_stable_sort (l : list A) :
  Permutation (sort_by key l) l
  /\ StronglySorted (fun a b : A => (key a <= key b)%Z) (sort_by key l)
  /\ forall z, filter (fun a => (key a =? z)%Z) (sort_by key l)
               = filter (fun a => (key a =? z)%Z) l.
Proof. apply sort_by_spec. Qed.

End SortingProperties.

(** ** [mets2codes_inner]: the block ids of an article *)

Section MetsIds.
Import Mets.

Lemma mem_In x l : mem x l = true <-> In x l.
Proof.
  unfold mem. rewrite existsb_exists. split.
  - intros (y & Hy & E). apply str_eqb_eq in E. now subst.
  - intros H. exists x. split; [exact H | apply str_eqb_refl].
Qed.

Lemma mem_not_In x l : mem x l = false <-> ~ In x l.
Proof.
  rewrite <- mem_In. destruct (mem x l); split; congruence.
Qed.

Lemma dict_set_new {V : Type} (d : dict V) k v :
  ~ In k (dict_keys d) -> dict_set d k v = d ++ [(k, v)].
Proof.
  induction d as [|[k' v'] d IH]; simpl; intros H; [reflexivity|].
  destruct (str_eqb k' k) eqn:E.
  - apply str_eqb_eq in E. tauto.
  - f_equal. apply IH. tauto.
Qed.

Lemma NoDup_snoc (l : list str) x : NoDup l -> ~ In x l -> NoDup (l ++ [x]).
Proof.
  intros Hl Hx. apply NoDup_app; [exact Hl | repeat constructor; auto |].
  intros y Hy [<-|[]]. contradiction.
Qed.

Lemma fold_left_inv {S B : Type} (P : S -> Prop) (f : S -> B -> S) (l : list B) :
  (forall s b, P s -> P (f s b)) -> forall s, P s -> P (fold_left f l s).
Proof.
  intros Hf. induction l as [|b l IH]; intros s Hs; simpl; [exact Hs|].
  apply IH, Hf, Hs.
Qed.

Lemma keyed_add ids (om : dict Z) x v :
  keyed_by ids om -> ~ In x ids -> keyed_by (ids ++ [x]) (dict_set om x v).
Proof.
  intros [Hn Hk] Hx. split; [now apply NoDup_snoc|].
  rewrite dict_keys_set_new by now rewrite Hk. now rewrite Hk.
Qed.

Lemma number_from_keyed l : forall idx ids om,
  keyed_by ids om ->
  keyed_by (fst (number_from idx l (ids, om))) (snd (number_from idx l (ids, om))).
Proof.
  induction l as [|[[d block_id] o] l IH]; intros idx ids om H; [exact H|].
  cbn [number_from]. destruct (mem block_id ids) eqn:E.
  - now apply IH.
  - apply IH. apply keyed_add; [exact H | now apply mem_not_In].
Qed.

Lemma add_area_keyed a area_ :
  keyed_by (text_block_ids a) (order_map a) ->
  keyed_by (text_block_ids (add_area a area_)) (order_map (add_area a area_)).
Proof.
  intros H. unfold add_area. destruct (begin_of area_) as [block_id|]; [|exact H].
  destruct (mem block_id (text_block_ids a)) eqn:E; [exact H|].
  cbn [text_block_ids order_map]. apply keyed_add; [exact H | now apply mem_not_In].
Qed.

Lemma visit_sub_div_inv (P : list str -> dict Z -> Prop) :
  (forall a area_, P (text_block_ids a) (order_map a) ->
                   P (text_block_ids (add_area a area_)) (order_map (add_area a area_))) ->
  forall a sub_div, P (text_block_ids a) (order_map a) ->
    P (text_block_ids (visit_sub_div a sub_div)) (order_map (visit_sub_div a sub_div)).
Proof.
  intros Hadd a sub_div H. unfold visit_sub_div.
  destruct (truthy _ && negb _); [|exact H].
  destruct (negb (mem _ exclude_content_types)); [|exact H].
  apply (fold_left_inv (fun a => P (text_block_ids a) (order_map a)));
    [intros; now apply Hadd | exact H].
Qed.

Lemma visit_child_div_inv (P : list str -> dict Z -> Prop) :
  (forall a area_, P (text_block_ids a) (order_map a) ->
                   P (text_block_ids (add_area a area_)) (order_map (add_area a area_))) ->
  forall a child_div, P (text_block_ids a) (order_map a) ->
    P (text_block_ids (visit_child_div a child_div))
      (order_map (visit_child_div a child_div)).
Proof.
  intros Hadd a child_div H. unfold visit_child_div.
  destruct (truthy _ && negb _); [|exact H].
  apply (fold_left_inv (fun a => P (text_block_ids a) (order_map a)));
    [intros; now apply visit_sub_div_inv|].
  destruct (str_eqb _ (py "BODY")); [|exact H].
  destruct (divs_of_type "TEXT" child_div); exact H.
Qed.

Lemma article_entry_inv (P : list str -> dict Z -> Prop) article_ :
  (forall a area_, P (text_block_ids a) (order_map a) ->
                   P (text_block_ids (add_area a area_)) (order_map (add_area a area_))) ->
  P (fst (ordered_ids (all_content_divs article_)))
    (snd (ordered_ids (all_content_divs article_))) ->
  P (codes_text_block_ids (article_entry article_))
    (codes_order_map (article_entry article_)).
Proof.
  intros Hadd H. unfold article_entry.
  destruct (ordered_ids (all_content_divs article_)) as [ids om].
  cbn [codes_text_block_ids codes_order_map].
  apply (fold_left_inv (fun a => P (text_block_ids a) (order_map a)));
    [intros; now apply visit_child_div_inv | exact H].
Qed.

Lemma add_new_NoDup ids x : NoDup ids -> NoDup (add_new ids x).
Proof.
  intros H. unfold add_new. destruct (mem x ids) eqn:E; [exact H|].
  apply NoDup_snoc; [exact H | now apply mem_not_In].
Qed.

(** X11.  In the entry of an article no title block id and no content
    block id is listed twice, and the order map has exactly the content
    block ids as its keys, in the order of the list. *)
Theorem block_ids_listed_once (article_ : element) :
  NoDup (codes_title_block_ids (article_entry article_))
  /\ NoDup (codes_text_block_ids (article_entry article_))
  /\ dict_keys (codes_order_map (article_entry article_))
     = codes_text_block_ids (article_entry article_).
Proof.
  split.
  - unfold article_entry. destruct (ordered_ids _) as [ids om].
    cbn [codes_title_block_ids]. unfold Mets.title_block_ids.
    apply (fold_left_inv (@NoDup str)); [|constructor].
    intros ids0 title_div H0.
    apply (fold_left_inv (@NoDup str)); [|exact H0].
    intros ids1 area_ H1. destruct (begin_of area_); [|exact H1].
    now apply add_new_NoDup.
  - assert (H : keyed_by (codes_text_block_ids (article_entry article_))
                         (codes_order_map (article_entry article_))).
    { apply (article_entry_inv keyed_by); [apply add_area_keyed|].
      apply number_from_keyed. split; [constructor | reflexivity]. }
    destruct H as [H1 H2]. split; [exact H1 | exact H2].
Qed.

Lemma dense_add (om : dict Z) x :
  dense om -> ~ In x (dict_keys om) ->
  dense (dict_set om x (Z.of_nat (length om))).
Proof.
  unfold dense. intros H Hx. rewrite dict_set_new by exact Hx.
  rewrite map_app, length_app, H. cbn [map length].
  rewrite Nat.add_1_r, seq_S, map_app. reflexivity.
Qed.

Lemma number_from_dense l : forall ids om,
  keyed_by ids om -> dense om ->
  NoDup (map block_id_of l) ->
  (forall x, In x (map block_id_of l) -> ~ In x ids) ->
  dense (snd (number_from (length om) l (ids, om))).
Proof.
  induction l as [|[[d block_id] o] l IH]; intros ids om Hk Hd Hn Hdis; [exact Hd|].
  cbn [number_from]. cbn [map] in Hn, Hdis.
  change (block_id_of (d, block_id, o)) with block_id in Hn, Hdis.
  inversion Hn as [|x l' Hx Hn']; subst.
  assert (Hnew : ~ In block_id ids) by (apply Hdis; now left).
  apply mem_not_In in Hnew as E. rewrite E.
  assert (Hlen : S (length om) = length (dict_set om block_id (Z.of_nat (length om)))).
  { destruct Hk as [_ Hk]. rewrite dict_set_new by now rewrite Hk.
    rewrite length_app. simpl. lia. }
  rewrite Hlen. apply IH.
  - now apply keyed_add.
  - apply dense_add; [exact Hd|]. destruct Hk as [_ Hk]. now rewrite Hk.
  - exact Hn'.
  - intros x Hx' Hin. apply in_app_or in Hin as [Hin|[<-|[]]].
    + apply (Hdis x); [now right | exact Hin].
    + contradiction.
Qed.

Lemma add_area_dense a area_ :
  keyed_by (text_block_ids a) (order_map a) /\ dense (order_map a) ->
  keyed_by (text_block_ids (add_area a area_)) (order_map (add_area a area_))
  /\ dense (order_map (add_area a area_)).
Proof.
  intros [Hk Hd]. split; [now apply add_area_keyed|].
  unfold add_area. destruct (begin_of area_) as [block_id|]; [|exact Hd].
  destruct (mem block_id (text_block_ids a)) eqn:E; [exact Hd|].
  cbn [order_map]. apply dense_add; [exact Hd|].
  destruct Hk as [_ Hk]. rewrite Hk. now apply mem_not_In.
Qed.

(** X12.  When no block id is repeated among the content areas of an
    article, the order map numbers the content block ids 0, 1, 2, ... in
    the order of the list, the ids added from tables and the like
    included. *)
Theorem order_map_positions_without_repetition (article_ : element) :
  NoDup (map block_id_of (all_content_divs article_)) ->
  map snd (codes_order_map (article_entry article_))
  = map Z.of_nat (seq 0 (length (codes_text_block_ids (article_entry article_)))).
Proof.
  intros Hn.
  assert (H : keyed_by (codes_text_block_ids (article_entry article_))
                       (codes_order_map (article_entry article_))
              /\ dense (codes_order_map (article_entry article_))).
  { apply (article_entry_inv (fun ids om => keyed_by ids om /\ dense om));
      [apply add_area_dense|].
    split.
    - apply number_from_keyed. split; [constructor | reflexivity].
    - apply (@number_from_dense (all_content_divs article_) [] []);
        [split; [constructor | reflexivity] | reflexivity | exact Hn | auto]. }
  destruct H as [[_ Hk] Hd]. unfold dense in Hd. rewrite Hd.
  rewrite <- Hk. unfold dict_keys. now rewrite length_map.
Qed.

Lemma order_map_positions_without_repetition_witness :
  map snd
    (codes_order_map
       (article_entry
          (article "MODSMD_ARTICLE1"
             [div "TEXT" "3" [area "a"]; div "TEXT" "1" [area "b"];
              div "BODY" "" [div "TABLE" "1" [Element (mets "fptr") [] [area "c"]]];
              div "TEXT" "2" [area "d"]])))
  = map Z.of_nat (seq 0 4)
  /\ codes_text_block_ids
       (article_entry
          (article "MODSMD_ARTICLE1"
             [div "TEXT" "3" [area "a"]; div "TEXT" "1" [area "b"];
              div "BODY" "" [div "TABLE" "1" [Element (mets "fptr") [] [area "c"]]];
              div "TEXT" "2" [area "d"]]))
     = [py "b"; py "d"; py "a"; py "c"].
Proof.
  split; [|vm_compute; reflexivity].
  apply (order_map_positions_without_repetition
           (article "MODSMD_ARTICLE1"
             [div "TEXT" "3" [area "a"]; div "TEXT" "1" [area "b"];
              div "BODY" "" [div "TABLE" "1" [Element (mets "fptr") [] [area "c"]]];
              div "TEXT" "2" [area "d"]])).
  vm_compute. repeat constructor; simpl; intuition discriminate.
Defined.

End MetsIds.

(** ** [process_block] and the assembly of an issue: exceptions *)

Section Exceptions.
Import Mets Alto.

Lemma dimensions_overflow e name :
  (forall n, In n geometry_attributes -> attr_int e n <> Raise ValueError) ->
  In name geometry_attributes ->
  attr_int e name = Raise OverflowError ->
  dimensions e = Raise OverflowError.
Proof.
  intros Hno Hin Hname. unfold dimensions.
  fold (attr_int e "HPOS") (attr_int e "VPOS") (attr_int e "WIDTH") (attr_int e "HEIGHT").
  assert (Hx : forall n x, In n geometry_attributes ->
                           attr_int e n = Raise x -> x = OverflowError).
  { intros n x Hn E. pose proof E as E'. unfold attr_int in E'.
    destruct (@int_float_exn _ _ E') as [->| ->]; [|reflexivity].
    exfalso. now apply (Hno n). }
  destruct (attr_int e "HPOS") as [h|x] eqn:E1;
    [|rewrite (Hx "HPOS" x); [reflexivity | simpl; auto | exact E1]].
  destruct (attr_int e "VPOS") as [v|x] eqn:E2;
    [|rewrite (Hx "VPOS" x); [reflexivity | simpl; auto | exact E2]].
  destruct (attr_int e "WIDTH") as [w|x] eqn:E3;
    [|rewrite (Hx "WIDTH" x); [reflexivity | simpl; auto | exact E3]].
  destruct (attr_int e "HEIGHT") as [ht|x] eqn:E4;
    [|rewrite (Hx "HEIGHT" x); [reflexivity | simpl; auto 6 | exact E4]].
  exfalso. destruct Hin as [<-|[<-|[<-|[<-|[]]]]]; congruence.
Qed.

(** X13.  A geometry attribute of a block that reads as an infinite
    number is not handled as an invalid value: when none of the four
    geometry attributes is invalid and one of them is infinite, [process_block]
    does not return, it raises [OverflowError]. *)
Theorem infinite_dimension_aborts_block
    (block_id : str) (pages : page_info) (bt : block_type)
    (digits : str) (page_root : element) (alto_block_type : string)
    (xml_block : element) (others : list element) (name : string) :
  match_page block_id = Some digits ->
  dict_get pages ("P"%char :: digits) = Some page_root ->
  alto_block_type_of block_id = Some alto_block_type ->
  find_blocks alto_block_type block_id page_root = Ok (xml_block :: others) ->
  (forall n, In n geometry_attributes -> attr_int xml_block n <> Raise ValueError) ->
  In name geometry_attributes ->
  attr_int xml_block name = Raise OverflowError ->
  process_block block_id pages bt = ([], Raise OverflowError).
Proof.
  intros Hp Hd Ht Hf Hno Hin Hname.
  unfold process_block. rewrite Hp, Hd, Ht, Hf.
  unfold lift, bind at 1. cbv beta iota.
  destruct (match by_local_name "String" xml_block with
            | [] => ([], [])
            | _ :: _ => let (t, c) := TextBlock.process_text_block
                                        (by_local_name "String" xml_block) in ([t], c)
            end) as [text confs].
  unfold dimensions_or_zero. rewrite (@dimensions_overflow _ _ Hno Hin Hname).
  reflexivity.
Qed.

Lemma infinite_dimension_aborts_block_witness :
  process_block (py "P1_TB1")
    [(py "P1", page [TextBlock_ "P1_TB1" "1" "7" "1e400" "20" []])] content
  = ([], Raise OverflowError).
Proof.
  apply (@infinite_dimension_aborts_block (py "P1_TB1")
           [(py "P1", page [TextBlock_ "P1_TB1" "1" "7" "1e400" "20" []])] content
           (py "1") (page [TextBlock_ "P1_TB1" "1" "7" "1e400" "20" []]) "TextBlock"
           (TextBlock_ "P1_TB1" "1" "7" "1e400" "20" []) [] "WIDTH"
           eq_refl eq_refl eq_refl eq_refl).
  - intros n [<-|[<-|[<-|[<-|[]]]]]; vm_compute; discriminate.
  - simpl. auto.
  - vm_compute. reflexivity.
Defined.

Lemma raises_bind {A B : Type} (m : M A) (f : A -> M B) :
  raises m -> raises (bind m f).
Proof. intros (l & e & ->). now exists l, e. Qed.

Lemma raises_bind_then {A B : Type} (m : M A) (f : A -> M B) :
  (forall a, raises (f a)) -> raises (bind m f).
Proof.
  intros Hf. destruct m as [l [a|e]]; [|now exists l, e].
  destruct (Hf a) as (l' & e & E). exists (l ++ l'), e. unfold bind. now rewrite E.
Qed.

(** A loop raises when its body raises at one element, whatever the state
    it is reached in. *)
Lemma raises_for_each {A S : Type} (xs : list A) (f : S -> A -> M S) x :
  In x xs -> (forall s, raises (f s x)) -> forall s, raises (for_each xs f s).
Proof.
  intros Hin Hx. induction xs as [|y xs IH]; [contradiction|]. intros s.
  cbn [for_each]. destruct Hin as [->|Hin].
  - apply raises_bind, Hx.
  - apply raises_bind_then. intros s'. now apply IH.
Qed.

Lemma raises_title_blocks ids pages block_id :
  In block_id ids -> raises (process_block block_id pages title) ->
  raises (process_title_blocks ids pages).
Proof.
  intros Hin Hr. unfold process_title_blocks.
  apply (@raises_for_each _ _ ids _ block_id Hin).
  intros s. now apply raises_bind.
Qed.

Lemma raises_content_blocks ids pages om block_id :
  In block_id ids -> raises (process_block block_id pages content) ->
  raises (process_content_blocks ids pages om).
Proof.
  intros Hin Hr. unfold process_content_blocks. apply raises_bind.
  apply (@raises_for_each _ _ ids _ block_id Hin).
  intros s. now apply raises_bind.
Qed.

Lemma raises_extract_step pages st article_id data block_id :
  In block_id (codes_title_block_ids data ++ codes_text_block_ids data) ->
  (forall bt, raises (process_block block_id pages bt)) ->
  raises (extract_step pages st (article_id, data)).
Proof.
  intros Hin Hr. destruct st as [texts sk].
  assert (E : extract_step pages (texts, sk) (article_id, data) =
              bind (process_title_blocks (codes_title_block_ids data) pages)
                (fun title_data =>
                   bind (process_content_blocks (codes_text_block_ids data) pages
                           (codes_order_map data))
                     (fun content_data =>
                        ret (dict_set texts article_id
                               (combine_article_data (article_title data) title_data
                                  content_data (codes_non_text_elements data)), sk)))).
  { unfold extract_step.
    destruct (codes_title_block_ids data); [|reflexivity].
    destruct (codes_text_block_ids data); [contradiction | reflexivity]. }
  rewrite E. apply in_app_or in Hin as [Hin|Hin].
  - apply raises_bind. now apply (@raises_title_blocks _ _ block_id).
  - apply raises_bind_then. intros title_data. apply raises_bind.
    now apply (@raises_content_blocks _ _ _ block_id).
Qed.

(** X14.  There is no partial result for an issue: when the lookup of one
    block that an article of the issue lists raises, on any page it is
    looked up in, [extract_text_from_alto] raises, and [process_issue]
    reports the failure of the whole issue, with no article and no page
    counted. *)
Theorem failing_block_fails_the_issue
    (issue_code : str) (files : issue_files) (mets_text : parsed)
    (log1 log2 : list log_entry) (codes : dict article_codes) (pages : page_info)
    (article_id : str) (data : article_codes) (block_id : str) :
  mets_file files = Some mets_text ->
  mets2codes_inner mets_text issue_code = (log1, Ok codes) ->
  parse_pages (page_files files) = (log2, Ok pages) ->
  In (article_id, data) codes ->
  In block_id (codes_title_block_ids data ++ codes_text_block_ids data) ->
  (forall bt, raises (process_block block_id pages bt)) ->
  raises (extract_text_from_alto codes pages issue_code)
  /\ snd (process_issue issue_code files) = failed.
Proof.
  intros Hm Hc Hp Hin Hb Hr.
  assert (Hx : raises (extract_text_from_alto codes pages issue_code)).
  { unfold extract_text_from_alto. apply raises_bind.
    apply (@raises_for_each _ _ codes _ (article_id, data) Hin).
    intros st. now apply (@raises_extract_step _ _ _ _ block_id). }
  split; [exact Hx|]. unfold process_issue.
  destruct (tar_found files); [|reflexivity]. cbn [negb].
  assert (H : raises (process_tar issue_code files)
              \/ exists l, process_tar issue_code files = (l, Ok failed)).
  { unfold process_tar. rewrite Hm.
    destruct (page_files files) as [|p ps] eqn:Epf; [right; eexists; reflexivity|].
    destruct Hx as (l & e & Hx).
    rewrite Hc. unfold bind at 1.
    destruct codes as [|c cs]; [contradiction|]. cbv iota.
    rewrite Hp. unfold bind at 1.
    destruct pages as [|pg pgs]; [right; eexists; reflexivity|]. cbv iota.
    left. rewrite Hx. now exists (log1 ++ log2 ++ l), e. }
  destruct H as [(l & e & ->)|(l & ->)]; reflexivity.
Qed.

Lemma failing_block_fails_the_issue_witness :
  snd (process_issue (py "X_18990101")
         {| tar_found := true;
            mets_file :=
              Some (Root (Element (py "mets") []
                            [article "MODSMD_ARTICLE1" [div "TEXT" "1" [area "P1_TB1"]]]));
            page_files := [Root (page [TextBlock_ "P1_TB1" "1" "7" "1e400" "20" []])];
            to_parquet_ok := true |})
  = failed.
Proof.
  refine (proj2 (@failing_block_fails_the_issue (py "X_18990101")
            {| tar_found := true;
               mets_file :=
                 Some (Root (Element (py "mets") []
                               [article "MODSMD_ARTICLE1" [div "TEXT" "1" [area "P1_TB1"]]]));
               page_files := [Root (page [TextBlock_ "P1_TB1" "1" "7" "1e400" "20" []])];
               to_parquet_ok := true |}
            _ _ _ _ _ (py "X_18990101_ARTICLE1")
            (article_entry (article "MODSMD_ARTICLE1" [div "TEXT" "1" [area "P1_TB1"]]))
            (py "P1_TB1") eq_refl eq_refl eq_refl _ _ _)).
  - vm_compute. left. reflexivity.
  - vm_compute. left. reflexivity.
  - intros bt. exists [], OverflowError. vm_compute. reflexivity.
Defined.

End Exceptions.

(** ** The lists of a block, of a title and of a content *)

Section Alignment.
Import Mets Alto.

Lemma add_line_shape block_id g line l g' :
  add_line block_id g line = (l, Ok g') -> lines_added 1 g g'.
Proof.
  unfold add_line.
  destruct (dimensions_or_zero _ line) as [l1 [[[[h v] w] ht]|x]]; [|discriminate].
  unfold bind, ret. intros [= _ <-]. unfold lines_added. cbn.
  rewrite !length_app. cbn. repeat split; reflexivity.
Qed.

Lemma add_lines_shape block_id lines : forall g l g',
  for_each lines (add_line block_id) g = (l, Ok g') ->
  lines_added (length lines) g g'.
Proof.
  induction lines as [|line lines IH]; intros g l g'.
  - intros [= _ <-]. unfold lines_added. rewrite !Nat.add_0_r. repeat split; reflexivity.
  - cbn [for_each]. destruct (add_line block_id g line) as [l1 [g1|x]] eqn:E1;
      [|discriminate].
    unfold bind. destruct (for_each lines (add_line block_id) g1) as [l2 [g2|x]] eqn:E2;
      [|discriminate].
    intros [= _ <-]. apply add_line_shape in E1. apply IH in E2.
    unfold lines_added in *. cbn [length].
    destruct E1 as (A1 & A2 & A3 & A4 & E1a & E1b & E1c & E1d).
    destruct E2 as (B1 & B2 & B3 & B4 & E2a & E2b & E2c & E2d).
    repeat split; (congruence || lia).
Qed.

(** The dictionary of a block that is found. *)
Lemma process_block_some block_id pages bt log b :
  process_block block_id pages bt = (log, Ok (Some b)) ->
  processed_block_ids b = [block_id] /\ block_order_positions b = [] /\ aligned b.
Proof.
  unfold process_block.
  destruct (match_page block_id) as [digits|]; [|discriminate].
  destruct (dict_get pages _) as [page_root|]; [|discriminate].
  destruct (alto_block_type_of block_id) as [ty|]; [|discriminate].
  destruct (find_blocks ty block_id page_root) as [[|xml_block others]|x];
    [discriminate| |discriminate].
  unfold lift, bind at 1. cbv beta iota.
  set (tc := match by_local_name "String" xml_block with
             | [] => ([], [])
             | _ :: _ => let (t, c) := TextBlock.process_text_block
                                         (by_local_name "String" xml_block) in ([t], c)
             end).
  assert (Ht : length (fst tc) <= 1).
  { subst tc. destruct (by_local_name "String" xml_block); [simpl; lia|].
    destruct (TextBlock.process_text_block _). simpl. lia. }
  destruct tc as [text confs]. cbn [fst] in Ht.
  destruct (dimensions_or_zero _ xml_block) as [l1 [[[[h v] w] ht]|x]]; [|discriminate].
  unfold bind at 1.
  destruct (for_each _ (add_line block_id) _) as [l2 [g|x]] eqn:E; [|discriminate].
  unfold bind, ret. intros [= _ <-]. apply add_lines_shape in E.
  unfold lines_added in E. cbn in E.
  destruct E as (E1 & E2 & E3 & E4 & E5 & E6 & E7 & E8).
  split; [reflexivity|]. split; [reflexivity|].
  unfold aligned. cbn. rewrite E1, E2, E3, E4, E5, E6, E7, E8. cbn.
  repeat split; (reflexivity || exact Ht).
Qed.

Lemma aligned_empty : aligned empty_data.
Proof. unfold aligned. cbn. repeat split; lia. Qed.

Lemma aligned_extend a b : aligned a -> aligned b -> aligned (extend_data a b).
Proof.
  unfold aligned, extend_data, extend_layout. cbn. rewrite !length_app.
  intros (A1 & A2 & A3 & A4 & A5 & A6 & A7 & A8) (B1 & B2 & B3 & B4 & B5 & B6 & B7 & B8).
  repeat split; lia.
Qed.

Lemma resolves_some block_id pages bt log b :
  process_block block_id pages bt = (log, Ok (Some b)) ->
  resolves pages bt block_id = true.
Proof. intros H. unfold resolves. now rewrite H. Qed.

Lemma resolves_none block_id pages bt log :
  process_block block_id pages bt = (log, Ok None) ->
  resolves pages bt block_id = false.
Proof. intros H. unfold resolves. now rewrite H. Qed.

Lemma title_loop pages ids : forall acc log d,
  aligned acc ->
  for_each ids
    (fun title_data block_id =>
       bind (process_block block_id pages title)
            (fun r => match r with
                      | Some b => ret (extend_data title_data b)
                      | None => ret title_data
                      end)) acc = (log, Ok d) ->
  aligned d
  /\ processed_block_ids d = processed_block_ids acc ++ filter (resolves pages title) ids
  /\ block_order_positions d = block_order_positions acc.
Proof.
  induction ids as [|block_id ids IH]; intros acc log d Ha.
  - intros [= _ <-]. cbn. now rewrite app_nil_r.
  - cbn [for_each filter].
    destruct (process_block block_id pages title) as [l1 [[b|]|x]] eqn:E1;
      [| |discriminate].
    + unfold bind at 2. cbn [ret]. unfold bind.
      destruct (for_each ids _ (extend_data acc b)) as [l2 [d2|x]] eqn:E2; [|discriminate].
      intros [= _ <-]. destruct (process_block_some _ _ _ E1) as (Hb1 & Hb2 & Hb3).
      destruct (IH _ _ _ (aligned_extend Ha Hb3) E2) as (H1 & H2 & H3).
      rewrite (resolves_some _ _ _ E1). split; [exact H1|]. split.
      * rewrite H2. cbn. rewrite Hb1, <- app_assoc. reflexivity.
      * rewrite H3. cbn. now rewrite Hb2, app_nil_r.
    + unfold bind at 2. cbn [ret]. unfold bind.
      destruct (for_each ids _ acc) as [l2 [d2|x]] eqn:E2; [|discriminate].
      intros [= _ <-]. rewrite (resolves_none _ _ _ E1). now apply (IH _ _ _ Ha E2).
Qed.

(** X15.  The data of the title of an article: the processed ids are the
    listed ids that are found, in the order of the list; there is one entry
    in each of the four block lists for each of them, the four line lists
    have one length, and there is at most one text for each block. *)
Theorem title_data_is_aligned (ids : list str) (pages : page_info)
    (log : list log_entry) (d : block_data) :
  process_title_blocks ids pages = (log, Ok d) ->
  processed_block_ids d = filter (resolves pages title) ids /\ aligned d.
Proof.
  intros H. destruct (title_loop _ _ aligned_empty H) as (H1 & H2 & _).
  split; [exact H2 | exact H1].
Qed.

Lemma title_data_is_aligned_witness :
  exists log d,
    process_title_blocks [py "P1_TB1"; py "P1_TB9"; py "P1_TB2"]
      [(py "P1", page [TextBlock_ "P1_TB2" "1" "2" "3" "4" [];
                       TextBlock_ "P1_TB1" "abc" "7" "100" "20"
                         [TextLine_ "1.9" "2" "3" "4" []]])]
    = (log, Ok d)
    /\ processed_block_ids d = [py "P1_TB1"; py "P1_TB2"]
    /\ aligned d.
Proof.
  eexists _, _. split; [vm_compute; reflexivity|].
  match goal with
  | |- processed_block_ids ?d = _ /\ _ =>
      destruct (@title_data_is_aligned [py "P1_TB1"; py "P1_TB9"; py "P1_TB2"]
                  [(py "P1", page [TextBlock_ "P1_TB2" "1" "2" "3" "4" [];
                                   TextBlock_ "P1_TB1" "abc" "7" "100" "20"
                                     [TextLine_ "1.9" "2" "3" "4" []]])]
                  [(WARNING, py "Invalid dimension value for block P1_TB1")] d)
        as [H1 H2]
  end.
  - vm_compute. reflexivity.
  - split; [reflexivity | exact H2].
Defined.

End Alignment.

Section ContentOrder.
Import Mets Alto.

Lemma content_loop pages om ids : forall acc log bd,
  for_each ids
    (fun blocks_data block_id =>
       bind (process_block block_id pages content)
            (fun r => match r with
                      | Some b =>
                          let position :=
                            match om with
                            | [] => 999%Z
                            | _ => match dict_get om block_id with
                                   | Some p => p
                                   | None => 999%Z
                                   end
                            end in
                          ret (blocks_data ++ [(block_id, b, position)])
                      | None => ret blocks_data
                      end)) acc = (log, Ok bd) ->
  exists new,
    bd = acc ++ new
    /\ map (fun x : str * block_data * Z => fst (fst x)) new
       = filter (resolves pages content) ids
    /\ Forall (fun x : str * block_data * Z =>
                 processed_block_ids (snd (fst x)) = [fst (fst x)]
                 /\ aligned (snd (fst x))
                 /\ snd x = position_of om (fst (fst x))) new.
Proof.
  induction ids as [|block_id ids IH]; intros acc log bd.
  - intros [= _ <-]. exists []. rewrite app_nil_r. repeat split. constructor.
  - cbn [for_each filter].
    destruct (process_block block_id pages content) as [l1 [[b|]|x]] eqn:E1;
      [| |discriminate].
    + unfold bind at 2. cbn [ret]. unfold bind.
      match goal with
      | |- context [for_each ids ?f ?a] =>
          destruct (for_each ids f a) as [l2 [d2|x]] eqn:E2; [|discriminate]
      end.
      intros [= _ <-]. destruct (process_block_some _ _ _ E1) as (Hb1 & _ & Hb3).
      destruct (IH _ _ _ E2) as (new & -> & Hm & Hf).
      rewrite (resolves_some _ _ _ E1).
      eexists (_ :: new). split; [rewrite <- app_assoc; reflexivity|].
      split; [cbn [map fst]; now rewrite Hm|].
      constructor; [|exact Hf]. cbn [fst snd].
      split; [exact Hb1 | split; [exact Hb3 | reflexivity]].
    + unfold bind at 2. cbn [ret]. unfold bind.
      match goal with
      | |- context [for_each ids ?f ?a] =>
          destruct (for_each ids f a) as [l2 [d2|x]] eqn:E2; [|discriminate]
      end.
      intros [= _ <-]. rewrite (resolves_none _ _ _ E1). now apply (IH _ _ _ E2).
Qed.

Lemma fold_left_pointwise {S B : Type} (f g : S -> B -> S) (l : list B) :
  (forall s b, f s b = g s b) -> forall s, fold_left f l s = fold_left g l s.
Proof.
  intros H. induction l as [|b l IH]; intros s; [reflexivity|].
  cbn. now rewrite H, IH.
Qed.

Lemma aligned_placed x : aligned (snd (fst x)) -> aligned (placed x).
Proof. destruct x as [[i b] p]. exact (fun H => H). Qed.

Lemma fold_placed (l : list (str * block_data * Z)) : forall acc,
  let d := fold_left (fun content_data x => extend_data content_data (placed x)) l acc in
  processed_block_ids d
  = processed_block_ids acc ++ flat_map (fun x => processed_block_ids (snd (fst x))) l
  /\ text_blocks d
     = text_blocks acc ++ flat_map (fun x => text_blocks (snd (fst x))) l
  /\ block_order_positions d
     = block_order_positions acc
       ++ flat_map (fun x => repeat (snd x) (length (text_blocks (snd (fst x))))) l
  /\ (aligned acc -> Forall (fun x => aligned (snd (fst x))) l -> aligned d).
Proof.
  induction l as [|x l IH]; intros acc; cbv zeta; cbn [fold_left flat_map].
  - rewrite !app_nil_r.
    split; [reflexivity | split; [reflexivity | split; [reflexivity|]]].
    intros Ha _. exact Ha.
  - destruct (IH (extend_data acc (placed x))) as (H1 & H2 & H3 & H4).
    cbv zeta in H1, H2, H3, H4. rewrite H1, H2, H3.
    destruct x as [[i b] p]. cbn. rewrite <- !app_assoc.
    split; [reflexivity | split; [reflexivity | split; [reflexivity|]]].
    intros Ha Hf. inversion Hf as [|? ? Hx Hl]; subst.
    apply H4; [|exact Hl]. now apply aligned_extend.
Qed.

Lemma sorted_repeat_app p n rest :
  StronglySorted Z.le rest -> Forall (Z.le p) rest ->
  StronglySorted Z.le (repeat p n ++ rest).
Proof.
  intros Hs Hf. induction n as [|n IH]; [exact Hs|].
  cbn. constructor; [exact IH|].
  apply Forall_app. split; [|exact Hf].
  apply Forall_forall. intros z Hz. apply repeat_spec in Hz. subst. lia.
Qed.

Lemma positions_sorted (l : list (str * block_data * Z)) :
  StronglySorted (fun a b => (snd a <= snd b)%Z) l ->
  StronglySorted Z.le
    (flat_map (fun x => repeat (snd x) (length (text_blocks (snd (fst x))))) l).
Proof.
  induction l as [|x l IH]; intros H; [constructor|].
  inversion H as [|? ? Hs Hf]; subst. cbn [flat_map].
  apply sorted_repeat_app; [now apply IH|].
  apply Forall_forall. intros z Hz. apply in_flat_map in Hz as (y & Hy & Hz).
  apply repeat_spec in Hz. subst z. rewrite Forall_forall in Hf. now apply Hf.
Qed.

Lemma flat_map_singletons (l : list (str * block_data * Z)) :
  Forall (fun x => processed_block_ids (snd (fst x)) = [fst (fst x)]) l ->
  flat_map (fun x => processed_block_ids (snd (fst x))) l = map (fun x => fst (fst x)) l.
Proof.
  induction l as [|x l IH]; intros H; [reflexivity|].
  inversion H as [|? ? Hx Hl]; subst. cbn. now rewrite Hx, IH.
Qed.

Lemma positions_length (l : list (str * block_data * Z)) :
  length (flat_map (fun x => repeat (snd x) (length (text_blocks (snd (fst x))))) l)
  = length (flat_map (fun x => text_blocks (snd (fst x))) l).
Proof.
  induction l as [|x l IH]; [reflexivity|]. cbn.
  now rewrite !length_app, repeat_length, IH.
Qed.

(** The result of [process_content_blocks], from the sorted list of the
    blocks that are found. *)
Lemma content_blocks_spec ids pages om log d :
  process_content_blocks ids pages om = (log, Ok d) ->
  exists bd,
    map (fun x : str * block_data * Z => fst (fst x)) bd
    = filter (resolves pages content) ids
    /\ map snd bd = map (position_of om) (filter (resolves pages content) ids)
    /\ Forall (fun x : str * block_data * Z =>
                 processed_block_ids (snd (fst x)) = [fst (fst x)]
                 /\ aligned (snd (fst x))) bd
    /\ d = fold_left (fun content_data x => extend_data content_data (placed x))
             (sort_by (fun x : str * block_data * Z => snd x) bd) empty_data.
Proof.
  unfold process_content_blocks.
  match goal with
  | |- context [for_each ids ?f ?a] =>
      destruct (for_each ids f a) as [l1 [bd|x]] eqn:E; [|discriminate]
  end.
  unfold bind, ret. intros [= _ <-].
  apply content_loop in E. destruct E as (new & -> & Hm & Hf). cbn [app].
  exists new. split; [exact Hm|]. split; [|split].
  - rewrite <- Hm, map_map. apply map_ext_in. intros x Hx.
    rewrite Forall_forall in Hf. now apply Hf.
  - eapply Forall_impl; [|exact Hf]. cbv beta. intros x (H1 & H2 & _). split; assumption.
  - apply fold_left_pointwise. now intros acc [[i b] p].
Qed.

(** X16.  The data of the content of an article: the positions are in
    ascending order, one for each text; the processed ids are the listed
    ids that are found, possibly in another order; and the lists go
    together as for a title. *)
Theorem content_data_is_aligned (ids : list str) (pages : page_info) (om : dict Z)
    (log : list log_entry) (d : block_data) :
  process_content_blocks ids pages om = (log, Ok d) ->
  Permutation (processed_block_ids d) (filter (resolves pages content) ids)
  /\ StronglySorted Z.le (block_order_positions d)
  /\ length (block_order_positions d) = length (text_blocks d)
  /\ aligned d.
Proof.
  intros H. apply content_blocks_spec in H as (bd & Hm & _ & Hf & ->).
  destruct (sort_by_spec (fun x : str * block_data * Z => snd x) bd)
    as (Hp & Hs & _).
  set (sorted := sort_by (fun x : str * block_data * Z => snd x) bd) in *.
  destruct (fold_placed sorted empty_data) as (H1 & H2 & H3 & H4).
  cbv zeta in H1, H2, H3, H4.
  assert (Hf' : Forall (fun x : str * block_data * Z =>
                          processed_block_ids (snd (fst x)) = [fst (fst x)]
                          /\ aligned (snd (fst x))) sorted).
  { apply Forall_forall. intros x Hx. rewrite Forall_forall in Hf. apply Hf.
    now apply (Permutation_in _ Hp). }
  split; [|split; [|split]].
  - rewrite H1. cbn [processed_block_ids empty_data app].
    rewrite flat_map_singletons
      by (eapply Forall_impl; [|exact Hf']; cbv beta; intros x [Hx _]; exact Hx).
    rewrite <- Hm. now apply Permutation_map.
  - rewrite H3. cbn [block_order_positions empty_data app]. now apply positions_sorted.
  - rewrite H2, H3. cbn [block_order_positions text_blocks empty_data app].
    apply positions_length.
  - apply H4; [apply aligned_empty|].
    eapply Forall_impl; [|exact Hf']. cbv beta. intros x [_ Hx]. exact Hx.
Qed.

Lemma content_data_is_aligned_witness :
  exists log d,
    process_content_blocks [py "P1_TB1"; py "P1_TB9"; py "P1_TB2"]
      [(py "P1", page [TextBlock_ "P1_TB2" "1" "2" "3" "4" [];
                       TextBlock_ "P1_TB1" "5" "7" "100" "20" []])]
      [(py "P1_TB1", 4%Z); (py "P1_TB2", 0%Z)]
    = (log, Ok d)
    /\ processed_block_ids d = [py "P1_TB2"; py "P1_TB1"]
    /\ Permutation (processed_block_ids d) [py "P1_TB1"; py "P1_TB2"]
    /\ aligned d.
Proof.
  eexists _, _. split; [vm_compute; reflexivity|]. split; [reflexivity|].
  match goal with
  | |- Permutation (processed_block_ids ?d) _ /\ _ =>
      destruct (@content_data_is_aligned [py "P1_TB1"; py "P1_TB9"; py "P1_TB2"]
                  [(py "P1", page [TextBlock_ "P1_TB2" "1" "2" "3" "4" [];
                                   TextBlock_ "P1_TB1" "5" "7" "100" "20" []])]
                  [(py "P1_TB1", 4%Z); (py "P1_TB2", 0%Z)] [] d)
        as (H1 & _ & _ & H4)
  end.
  - vm_compute. reflexivity.
  - split; [exact H1 | exact H4].
Defined.

Lemma insert_by_last {A : Type} (key : A -> Z) x l :
  Forall (fun y => (key y <= key x)%Z) l -> insert_by key x l = l ++ [x].
Proof.
  induction l as [|y l IH]; intros H; [reflexivity|].
  inversion H as [|? ? Hy Hl]; subst. cbn.
  apply Z.ltb_ge in Hy. rewrite Hy. now rewrite IH.
Qed.

Lemma sorted_app_head {A : Type} (R : A -> A -> Prop) acc x l :
  StronglySorted R (acc ++ x :: l) -> Forall (fun y => R y x) acc.
Proof.
  induction acc as [|a acc IH]; intros H; [constructor|].
  cbn in H. inversion H as [|? ? Hs Hf]; subst. constructor.
  - rewrite Forall_forall in Hf. apply Hf. apply in_or_app. right. now left.
  - now apply IH.
Qed.

(** Sorting a list that is in order changes nothing. *)
Lemma sort_by_sorted {A : Type} (key : A -> Z) (l : list A) :
  StronglySorted (fun a b => (key a <= key b)%Z) l -> sort_by key l = l.
Proof.
  unfold sort_by. intros H.
  assert (G : forall l acc,
             StronglySorted (fun a b => (key a <= key b)%Z) (acc ++ l) ->
             fold_left (fun acc x => insert_by key x acc) l acc = acc ++ l).
  { clear. induction l as [|x l IH]; intros acc H; cbn; [now rewrite app_nil_r|].
    rewrite (@insert_by_last _ key x acc (@sorted_app_head _ _ acc x l H)).
    rewrite IH; rewrite <- app_assoc; [reflexivity | exact H]. }
  now apply (G l []).
Qed.

Lemma sorted_map {A : Type} (f : A -> Z) (l : list A) :
  StronglySorted Z.le (map f l) -> StronglySorted (fun a b => (f a <= f b)%Z) l.
Proof.
  induction l as [|x l IH]; intros H; [constructor|].
  cbn in H. inversion H as [|? ? Hs Hf]; subst. constructor; [now apply IH|].
  apply Forall_forall. intros y Hy. rewrite Forall_forall in Hf.
  apply Hf. now apply in_map.
Qed.

Lemma sorted_map_filter {A : Type} (f : A -> Z) (p : A -> bool) (l : list A) :
  StronglySorted Z.le (map f l) -> StronglySorted Z.le (map f (filter p l)).
Proof.
  induction l as [|x l IH]; intros H; [constructor|].
  cbn in H. inversion H as [|? ? Hs Hf]; subst. cbn [filter].
  destruct (p x); [|now apply IH]. cbn. constructor; [now apply IH|].
  apply Forall_forall. intros z Hz. apply in_map_iff in Hz as (y & <- & Hy).
  apply filter_In in Hy as [Hy _]. rewrite Forall_forall in Hf.
  apply Hf. now apply in_map.
Qed.

Lemma sorted_seq a n : StronglySorted Z.le (map Z.of_nat (seq a n)).
Proof.
  revert a. induction n as [|n IH]; intros a; [constructor|].
  cbn. constructor; [apply IH|].
  apply Forall_forall. intros z Hz. apply in_map_iff in Hz as (y & <- & Hy).
  apply in_seq in Hy. lia.
Qed.

Lemma dict_get_keys (om : dict Z) :
  NoDup (dict_keys om) ->
  map (dict_get om) (dict_keys om) = map (fun kv => Some (snd kv)) om.
Proof.
  induction om as [|[k v] om IH]; intros H; [reflexivity|].
  cbn in H. inversion H as [|? ? Hk Hn]; subst. cbn [dict_keys map fst snd].
  f_equal.
  - cbn. now rewrite str_eqb_refl.
  - fold (dict_keys om). rewrite <- (IH Hn). apply map_ext_in. intros k' Hk'.
    cbn. destruct (str_eqb k k') eqn:E; [|reflexivity].
    apply str_eqb_eq in E. subst. contradiction.
Qed.

Lemma positions_of_keys (om : dict Z) :
  NoDup (dict_keys om) -> map (position_of om) (dict_keys om) = map snd om.
Proof.
  intros H. pose proof (@dict_get_keys om H) as E.
  destruct om as [|kv om]; [reflexivity|].
  set (d := kv :: om) in *.
  assert (E' : map (position_of d) (dict_keys d)
               = map (fun o => match o with Some p => p | None => 999%Z end)
                     (map (dict_get d) (dict_keys d))).
  { rewrite map_map. reflexivity. }
  rewrite E', E, map_map. reflexivity.
Qed.

(** X17.  When the positions of the order map follow the order of the
    list of ids, as they do for an article without repeated areas, the
    blocks are not reordered: the processed ids are the listed ids that
    are found, in the order of the list. *)
Theorem content_order_is_list_order (ids : list str) (pages : page_info) (om : dict Z)
    (log : list log_entry) (d : block_data) :
  keyed_by ids om -> dense om ->
  process_content_blocks ids pages om = (log, Ok d) ->
  processed_block_ids d = filter (resolves pages content) ids.
Proof.
  intros [Hn Hk] Hd H. apply content_blocks_spec in H as (bd & Hm & Hp & Hf & ->).
  assert (Hs : StronglySorted (fun a b : str * block_data * Z => (snd a <= snd b)%Z) bd).
  { apply sorted_map. rewrite Hp. apply sorted_map_filter.
    rewrite <- Hk, positions_of_keys by now rewrite Hk.
    unfold dense in Hd. rewrite Hd. apply sorted_seq. }
  rewrite (@sort_by_sorted _ (fun x : str * block_data * Z => snd x) bd Hs).
  destruct (fold_placed bd empty_data) as (H1 & _). cbv zeta in H1.
  rewrite H1. cbn [processed_block_ids empty_data app].
  rewrite flat_map_singletons
    by (eapply Forall_impl; [|exact Hf]; cbv beta; intros x [Hx _]; exact Hx).
  exact Hm.
Qed.

Lemma content_order_is_list_order_witness :
  exists log d,
    process_content_blocks [py "P1_TB1"; py "P1_TB9"; py "P1_TB2"]
      [(py "P1", page [TextBlock_ "P1_TB2" "1" "2" "3" "4" [];
                       TextBlock_ "P1_TB1" "5" "7" "100" "20" []])]
      [(py "P1_TB1", 0%Z); (py "P1_TB9", 1%Z); (py "P1_TB2", 2%Z)]
    = (log, Ok d)
    /\ processed_block_ids d = [py "P1_TB1"; py "P1_TB2"].
Proof.
  eexists _, _. split; [vm_compute; reflexivity|].
  match goal with
  | |- processed_block_ids ?d = _ =>
      apply (@content_order_is_list_order [py "P1_TB1"; py "P1_TB9"; py "P1_TB2"]
               [(py "P1", page [TextBlock_ "P1_TB2" "1" "2" "3" "4" [];
                                TextBlock_ "P1_TB1" "5" "7" "100" "20" []])]
               [(py "P1_TB1", 0%Z); (py "P1_TB9", 1%Z); (py "P1_TB2", 2%Z)] [] d)
  end.
  - split; [|reflexivity].
    repeat constructor; simpl; intuition discriminate.
  - reflexivity.
  - vm_compute. reflexivity.
Defined.

End ContentOrder.

(** ** [parse_pages]: the keys of the pages *)

Section PageKeys.
Import Mets Alto.

Lemma dict_get_set {V : Type} (d : dict V) k v k' :
  dict_get (dict_set d k v) k' = if str_eqb k k' then Some v else dict_get d k'.
Proof.
  induction d as [|[k0 v0] d IH]; cbn; [reflexivity|].
  destruct (str_eqb k0 k) eqn:E0; cbn.
  - apply str_eqb_eq in E0. subst k0. now destruct (str_eqb k k').
  - rewrite IH. destruct (str_eqb k0 k') eqn:E1; [|reflexivity].
    destruct (str_eqb k k') eqn:E2; [|reflexivity].
    apply str_eqb_eq in E1, E2. subst. now rewrite str_eqb_refl in E0.
Qed.

Lemma str_of_N_inj n m : str_of_N n = str_of_N m -> n = m.
Proof.
  intros H. apply (f_equal digits_value) in H.
  rewrite !digits_value_str_of_N in H. lia.
Qed.

Lemma page_key_inj n m : page_key n = page_key m -> n = m.
Proof.
  unfold page_key. intros [= H]. apply str_of_N_inj in H. lia.
Qed.

Lemma page_key_neq n m : n <> m -> str_eqb (page_key n) (page_key m) = false.
Proof.
  intros H. apply str_eqb_neq. intros E. now apply page_key_inj in E.
Qed.

Lemma parse_pages_from_keys ps : forall i acc log pages,
  parse_pages_from i ps acc = (log, Ok pages) ->
  forall n,
    dict_get pages (page_key n)
    = match (if i <=? n then nth_error ps (n - i) else None) with
      | Some (Root r) => Some r
      | _ => dict_get acc (page_key n)
      end.
Proof.
  induction ps as [|p ps IH]; intros i acc log pages.
  - intros [= _ <-] n. destruct (i <=? n); [now destruct (n - i)|reflexivity].
  - destruct p as [root| |]; cbn [parse_pages_from].
    + intros H n. rewrite (IH _ _ _ _ H n).
      fold (page_key i). rewrite dict_get_set.
      destruct (Nat.compare_spec i n) as [->|Hlt|Hgt].
      * rewrite Nat.leb_refl, Nat.sub_diag. cbn [nth_error].
        replace (S n <=? n) with false by (symmetry; apply Nat.leb_gt; lia).
        now rewrite str_eqb_refl.
      * replace (S i <=? n) with true by (symmetry; apply Nat.leb_le; lia).
        replace (i <=? n) with true by (symmetry; apply Nat.leb_le; lia).
        replace (n - i) with (S (n - S i)) by lia. cbn [nth_error].
        now rewrite page_key_neq by lia.
      * replace (S i <=? n) with false by (symmetry; apply Nat.leb_gt; lia).
        replace (i <=? n) with false by (symmetry; apply Nat.leb_gt; lia).
        now rewrite page_key_neq by lia.
    + unfold logging, bind.
      destruct (parse_pages_from (S i) ps acc) as [l2 [pg|x]] eqn:E; [|discriminate].
      intros [= _ <-] n. rewrite (IH _ _ _ _ E n).
      destruct (Nat.compare_spec i n) as [->|Hlt|Hgt].
      * rewrite Nat.leb_refl, Nat.sub_diag. cbn [nth_error].
        now replace (S n <=? n) with false by (symmetry; apply Nat.leb_gt; lia).
      * replace (S i <=? n) with true by (symmetry; apply Nat.leb_le; lia).
        replace (i <=? n) with true by (symmetry; apply Nat.leb_le; lia).
        now replace (n - i) with (S (n - S i)) by lia.
      * replace (S i <=? n) with false by (symmetry; apply Nat.leb_gt; lia).
        now replace (i <=? n) with false by (symmetry; apply Nat.leb_gt; lia).
    + discriminate.
Qed.

Lemma parse_pages_keys (pages_tarinfo : list parsed)
    (log : list log_entry) (pages : page_info) (n : nat) :
  parse_pages pages_tarinfo = (log, Ok pages) ->
  dict_get pages (page_key n)
  = match nth_error pages_tarinfo n with
    | Some (Root root) => Some root
    | _ => None
    end.
Proof.
  intros H. unfold parse_pages in H.
  rewrite (@parse_pages_from_keys _ _ _ _ _ H n). cbn [Nat.leb].
  rewrite Nat.sub_0_r. now destruct (nth_error pages_tarinfo n) as [[r| |]|].
Qed.

(** X18.  A page is kept under the number of its place in the list of
    page files, counted from one, when it parses; a page that does not
    parse leaves its number unused, and the numbers of the pages after it
    do not move. *)
Theorem pages_are_numbered_by_position (pages_tarinfo : list parsed)
    (log : list log_entry) (pages : page_info) (n : nat) :
  parse_pages pages_tarinfo = (log, Ok pages) ->
  dict_get pages (page_key n)
  = match nth_error pages_tarinfo n with
    | Some (Root root) => Some root
    | _ => None
    end.
Proof. apply parse_pages_keys. Qed.

Lemma pages_are_numbered_by_position_witness :
  exists log pages,
    parse_pages [Root (page []); XMLSyntaxError; Root (page [page []])] = (log, Ok pages)
    /\ dict_get pages (page_key 2) = Some (page [page []])
    /\ dict_get pages (page_key 1) = None.
Proof.
  eexists _, _. split; [vm_compute; reflexivity|]. split.
  - match goal with
    | |- dict_get ?pages _ = _ =>
        apply (@pages_are_numbered_by_position
                 [Root (page []); XMLSyntaxError; Root (page [page []])]
                 [(ERROR, py "XML parsing error for page 2")] pages 2)
    end.
    vm_compute. reflexivity.
  - reflexivity.
Defined.

Lemma match_page_key n rest :
  match_page (page_key n ++ underscore :: rest) = Some (str_of_N (N.of_nat (n + 1))).
Proof.
  unfold match_page, page_key. cbn [app]. cbn [Ascii.eqb Bool.eqb].
  rewrite (@span_all is_digit (str_of_N (N.of_nat (n + 1))) (underscore :: rest)
             (str_of_N_digits _) eq_refl).
  pose proof (str_of_N_nonempty (N.of_nat (n + 1))) as Hne.
  destruct (str_of_N (N.of_nat (n + 1))); [congruence|]. reflexivity.
Qed.

(** X19.  A block whose id starts with [P], a number without leading
    zeros and an underscore is looked up in the page at that place in the
    list of page files, whatever the name of the file: [process_block]
    reads the digits of the id, and they are the key of that page. *)
Theorem block_is_looked_up_by_position (pages_tarinfo : list parsed)
    (log : list log_entry) (pages : page_info) (n : nat) (rest : str) (root : element) :
  parse_pages pages_tarinfo = (log, Ok pages) ->
  nth_error pages_tarinfo n = Some (Root root) ->
  exists digits,
    match_page (page_key n ++ underscore :: rest) = Some digits
    /\ dict_get pages ("P"%char :: digits) = Some root.
Proof.
  intros H Hn. exists (str_of_N (N.of_nat (n + 1))). split; [apply match_page_key|].
  fold (page_key n). rewrite (@parse_pages_keys _ _ _ n H). now rewrite Hn.
Qed.

Lemma block_is_looked_up_by_position_witness :
  exists digits,
    match_page (py "P3_TB00001") = Some digits
    /\ dict_get [(py "P1", page []); (py "P3", page [page []])] ("P"%char :: digits)
       = Some (page [page []]).
Proof.
  apply (@block_is_looked_up_by_position
           [Root (page []); XMLSyntaxError; Root (page [page []])]
           [(ERROR, py "XML parsing error for page 2")]
           [(py "P1", page []); (py "P3", page [page []])] 2 (py "TB00001")
           (page [page []]));
    vm_compute; reflexivity.
Defined.

End PageKeys.

(** ** The paths of issues *)

Section IssuePaths.
Import Chunks Paths.

Lemma split_on_from_not_nil sep s : forall skip cur, split_on_from sep skip cur s <> [].
Proof.
  induction s as [|c s IH]; intros skip cur; cbn; [discriminate|].
  destruct skip; [|apply IH].
  destruct (strip_prefix sep (c :: s)); [discriminate | apply IH].
Qed.

(** Where no character is the first of the separator, nothing is split. *)
Lemma split_on_from_inert d sep' a s : forall cur,
  forallb (fun c => negb (Ascii.eqb c d)) a = true ->
  split_on_from (d :: sep') 0 cur (a ++ s) = split_on_from (d :: sep') 0 (rev a ++ cur) s.
Proof.
  induction a as [|c a IH]; intros cur H; [reflexivity|].
  cbn in H. apply andb_true_iff in H as [Hc H]. apply negb_true_iff in Hc.
  cbn [app split_on_from strip_prefix]. rewrite Ascii.eqb_sym, Hc.
  rewrite (IH _ H). cbn [rev]. now rewrite <- app_assoc.
Qed.

Lemma split_on_from_skip sep a s cur :
  split_on_from sep (length a) cur (a ++ s) = split_on_from sep 0 cur s.
Proof.
  induction a as [|c a IH]; [reflexivity|]. exact IH.
Qed.

(** At an occurrence of the separator a piece ends. *)
Lemma split_on_from_match d sep' s cur :
  split_on_from (d :: sep') 0 cur ((d :: sep') ++ s)
  = rev cur :: split_on_from (d :: sep') 0 [] s.
Proof.
  cbn [app split_on_from].
  change (strip_prefix (d :: sep') (d :: sep' ++ s))
    with (strip_prefix (d :: sep') ((d :: sep') ++ s)).
  rewrite strip_prefix_app. cbn [length Nat.sub]. rewrite Nat.sub_0_r.
  now rewrite split_on_from_skip.
Qed.

Lemma split_on_from_end d sep' a cur :
  forallb (fun c => negb (Ascii.eqb c d)) a = true ->
  split_on_from (d :: sep') 0 cur a = [rev cur ++ a].
Proof.
  intros H. rewrite <- (app_nil_r a) at 1. rewrite (@split_on_from_inert d sep' a [] cur H).
  cbn. now rewrite rev_app_distr, rev_involutive.
Qed.

Lemma join_two (sep a : str) (l : list str) :
  l <> [] -> join sep (a :: l) = a ++ sep ++ join sep l.
Proof. destruct l; [congruence | reflexivity]. Qed.

Lemma forallb_rev_true (p : ascii -> bool) (l : str) :
  forallb p l = true -> forallb p (rev l) = true.
Proof.
  intros H. apply forallb_forall. intros x Hx. apply in_rev in Hx.
  rewrite forallb_forall in H. now apply H.
Qed.

(** The pieces of a text split at a character, joined with that
    character, are the text; no piece holds the character. *)
Lemma split_char_spec u s : forall cur,
  forallb (fun c => negb (Ascii.eqb c u)) cur = true ->
  join [u] (split_on_from [u] 0 cur s) = rev cur ++ s
  /\ Forall (fun p => forallb (fun c => negb (Ascii.eqb c u)) p = true)
            (split_on_from [u] 0 cur s).
Proof.
  induction s as [|c s IH]; intros cur Hcur.
  - cbn. rewrite app_nil_r. split; [reflexivity|]. constructor; [|constructor].
    now apply forallb_rev_true.
  - cbn [split_on_from strip_prefix]. destruct (Ascii.eqb u c) eqn:E.
    + apply Ascii.eqb_eq in E. subst c. cbn [length Nat.sub].
      destruct (IH [] eq_refl) as [H1 H2]. split.
      * rewrite join_two by apply split_on_from_not_nil. now rewrite H1.
      * constructor; [now apply forallb_rev_true | exact H2].
    + destruct (IH (c :: cur)) as [H1 H2].
      { cbn. now rewrite Ascii.eqb_sym, E. }
      split; [|exact H2]. rewrite H1. cbn [rev]. now rewrite <- app_assoc.
Qed.

Lemma split_char_two u a b :
  forallb (fun c => negb (Ascii.eqb c u)) a = true ->
  forallb (fun c => negb (Ascii.eqb c u)) b = true ->
  split_on [u] (a ++ u :: b) = [a; b].
Proof.
  intros Ha Hb. unfold split_on. rewrite (@split_on_from_inert u [] a (u :: b) [] Ha).
  change (u :: b) with ([u] ++ b).
  rewrite (@split_on_from_match u [] b (rev a ++ [])). rewrite app_nil_r, rev_involutive.
  now rewrite (@split_on_from_end u [] b [] Hb).
Qed.

(** X20.  [construct_issue_path] gives a path exactly for the issue codes
    with one underscore and at least four characters after it; for every
    other code it raises [ValueError]. *)
Theorem construct_issue_path_defined (issue_code : str) :
  (exists path, construct_issue_path issue_code = Ok path)
  <-> (exists title date,
         issue_code = title ++ py "_" ++ date
         /\ no_underscore title = true /\ no_underscore date = true
         /\ 4 <= length date).
Proof.
  unfold construct_issue_path. split.
  - intros [path H].
    destruct (@split_char_spec underscore issue_code [] eq_refl) as [Hj Hf].
    fold (split_on [underscore] issue_code) in Hj, Hf.
    change (py "_") with [underscore] in H.
    destruct (split_on [underscore] issue_code) as [|a [|b [|x l]]]; try discriminate.
    destruct (length b <? 4) eqn:E; [discriminate|]. apply Nat.ltb_ge in E.
    exists a, b. inversion Hf as [|? ? Ha Hf']; subst.
    inversion Hf' as [|? ? Hb _]; subst.
    cbn in Hj. repeat split; auto.
  - intros (title & date & -> & Ht & Hd & Hlen).
    change (py "_" ++ date) with (underscore :: date).
    change (py "_") with [underscore].
    rewrite (@split_char_two underscore title date Ht Hd).
    apply Nat.ltb_ge in Hlen. rewrite Hlen. eexists. reflexivity.
Qed.

Lemma before_last_none c t :
  forallb (fun x => negb (Ascii.eqb x c)) t = true -> before_last c t = None.
Proof.
  induction t as [|x t IH]; [reflexivity|]. cbn. intros H.
  apply andb_true_iff in H as [Hx H]. apply negb_true_iff in Hx.
  now rewrite (IH H), Hx.
Qed.

Lemma before_last_app c z t :
  forallb (fun x => negb (Ascii.eqb x c)) t = true ->
  before_last c (z ++ c :: t) = Some z.
Proof.
  intros H. induction z as [|x z IH]; cbn.
  - now rewrite (@before_last_none c t H), Ascii.eqb_refl.
  - now rewrite IH.
Qed.

Lemma no_dot_app a b : no_dot (a ++ b) = no_dot a && no_dot b.
Proof. apply forallb_app. Qed.

Lemma no_dot_firstn n s : no_dot s = true -> no_dot (firstn n s) = true.
Proof.
  revert n. induction s as [|c s IH]; intros [|n] H; try reflexivity.
  cbn in *. apply andb_true_iff in H as [Hc H]. now rewrite Hc, IH.
Qed.

(** X21.  For an issue code without a dot, the path that
    [construct_issue_path] gives is taken apart again by the first lines of
    [process_issue] into the name of the archive, [TITLE_YEAR.tar.gz], and
    the directory of the issue in it, [TITLE/YEAR/CODE/MM_01]. *)
Theorem issue_path_round_trip (title date : str) :
  no_underscore title = true -> no_underscore date = true ->
  no_dot title = true -> no_dot date = true ->
  4 <= length date ->
  exists path,
    construct_issue_path (title ++ py "_" ++ date) = Ok path
    /\ split_tar_path path
       = Some (title ++ py "_" ++ firstn 4 date ++ py ".tar.gz",
               title ++ py "/" ++ firstn 4 date ++ py "/"
               ++ (title ++ py "_" ++ date) ++ py "/MM_01").
Proof.
  intros Ht Hd Dt Dd Hlen.
  set (year := firstn 4 date). set (code := title ++ py "_" ++ date).
  exists ((title ++ py "_" ++ year ++ py ".tar.gz") ++ py "/"
          ++ title ++ py "/" ++ year ++ py "/" ++ code ++ py "/MM_01/mets.xml").
  split.
  - unfold construct_issue_path, code.
    change (py "_" ++ date) with (underscore :: date).
    change (py "_") with [underscore].
    rewrite (@split_char_two underscore title date Ht Hd).
    apply Nat.ltb_ge in Hlen. now rewrite Hlen.
  - unfold split_tar_path, split_on.
    assert (Dy : no_dot year = true) by now apply no_dot_firstn.
    assert (Dc : no_dot code = true).
    { unfold code. rewrite !no_dot_app, Dt, Dd. reflexivity. }
    set (X := title ++ py "_" ++ year).
    set (Z0 := title ++ py "/" ++ year ++ py "/" ++ code ++ py "/MM_01").
    assert (DX : no_dot X = true).
    { unfold X. rewrite !no_dot_app, Dt, Dy. reflexivity. }
    assert (DZ : no_dot (py "/" ++ Z0 ++ py "/mets") = true).
    { unfold Z0. rewrite !no_dot_app, Dt, Dy, Dc. reflexivity. }
    assert (E : (title ++ py "_" ++ year ++ py ".tar.gz") ++ py "/"
                ++ title ++ py "/" ++ year ++ py "/" ++ code ++ py "/MM_01/mets.xml"
                = X ++ py ".tar.gz" ++ (py "/" ++ Z0 ++ py "/mets") ++ py ".xml").
    { unfold X, Z0. rewrite <- !app_assoc. reflexivity. }
    rewrite E. change (py ".tar.gz") with (dot :: py "tar.gz").
    rewrite (@split_on_from_inert dot (py "tar.gz") X _ [] DX).
    rewrite (@split_on_from_match dot (py "tar.gz")).
    rewrite (@split_on_from_inert dot (py "tar.gz") _ (py ".xml") [] DZ).
    cbn [split_on_from strip_prefix py list_ascii_of_string Ascii.eqb Bool.eqb dot
         length Nat.sub].
    rewrite !app_nil_r, !rev_involutive. cbn [rev app].
    rewrite <- !app_assoc. cbn [app].
    rewrite rev_app_distr, rev_involutive. cbn [rev app skipn].
    unfold rsplit_head.
    rewrite <- (app_assoc Z0). cbn [app].
    pose proof (@before_last_app slash Z0 (py "mets.xml") eq_refl) as B.
    unfold slash in *. cbn [py list_ascii_of_string] in B. rewrite B.
    unfold X. rewrite <- !app_assoc. reflexivity.
Qed.

Lemma issue_path_round_trip_witness :
  exists path,
    construct_issue_path (py "CHP_19031228") = Ok path
    /\ split_tar_path path
       = Some (py "CHP_1903.tar.gz", py "CHP/1903/CHP_19031228/MM_01").
Proof.
  apply (@issue_path_round_trip (py "CHP") (py "19031228"));
    (reflexivity || (simpl; lia)).
Defined.

End IssuePaths.

(** ** The members of an archive *)

Section ArchiveMembers.
Import Archive.






End ArchiveMembers.

(** ** Many issues *)

Section BatchReports.
Import Batch.

(** X23.  Without a number of workers given, [batch_process_issues]
    raises [ValueError] exactly when there is no issue to process or the
    machine has one processor: the number of workers it works out is then
    zero or less, which the pool refuses. *)
Theorem auto_workers_need_an_issue_and_two_processors
    (run : str -> str -> report) (cpu_count : Z) (issues : dict str) :
  batch_process_issues run cpu_count issues None = Raise ValueError
  <-> (issues = [] \/ (cpu_count <= 1)%Z).
Proof.
  unfold batch_process_issues, pool.
  destruct (Z.min (cpu_count - 1) (Z.of_nat (length issues)) <? 1)%Z eqn:E.
  - split; [intros _|reflexivity]. apply Z.ltb_lt in E.
    destruct issues as [|kv issues]; [now left|right].
    cbn [length] in E. lia.
  - split; [discriminate|]. apply Z.ltb_ge in E. intros [->|H]; cbn [length] in E; lia.
Qed.

Lemma stats_fold_other (results : list (str * report)) code : forall acc,
  ~ In code (map fst results) ->
  dict_get
    (fold_left
       (fun (stats : dict stats_entry) (r : str * report) =>
          if flag_of (snd r) then dict_set stats (fst r) (stats_of (snd r)) else stats)
       results acc) code
  = dict_get acc code.
Proof.
  induction results as [|[c r] results IH]; intros acc H; [reflexivity|].
  cbn [fold_left fst snd]. simpl in H.
  rewrite IH by (intros HH; apply H; now right).
  destruct (flag_of r); [|reflexivity].
  rewrite dict_get_set. destruct (str_eqb c code) eqn:E; [|reflexivity].
  apply str_eqb_eq in E. subst. exfalso. apply H. now left.
Qed.

Lemma stats_fold (results : list (str * report)) code r : forall acc,
  NoDup (map fst results) -> In (code, r) results ->
  dict_get
    (fold_left
       (fun (stats : dict stats_entry) (r : str * report) =>
          if flag_of (snd r) then dict_set stats (fst r) (stats_of (snd r)) else stats)
       results acc) code
  = if flag_of r then Some (stats_of r) else dict_get acc code.
Proof.
  induction results as [|[c0 r0] results IH]; intros acc Hn Hin; [contradiction|].
  cbn [map fst] in Hn. inversion Hn as [|? ? Hc Hn']; subst.
  cbn [fold_left fst snd]. destruct Hin as [[= -> ->]|Hin].
  - rewrite stats_fold_other by exact Hc.
    destruct (flag_of r); [|reflexivity].
    now rewrite dict_get_set, str_eqb_refl.
  - rewrite (IH _ Hn' Hin). destruct (flag_of r); [reflexivity|].
    destruct (flag_of r0); [|reflexivity].
    rewrite dict_get_set. destruct (str_eqb c0 code) eqn:E; [|reflexivity].
    apply str_eqb_eq in E. subst. exfalso. apply Hc.
    apply in_map_iff. now exists (code, r).
Qed.

Lemma in_results (run : str -> str -> report) (issues : dict str) code path :
  In (code, path) issues ->
  In (code, run code path)
     (map (fun kv : str * str => (fst kv, run (fst kv) (snd kv))) issues).
Proof.
  intros H. apply in_map_iff. now exists (code, path).
Qed.

Lemma results_keys (run : str -> str -> report) (issues : dict str) :
  map fst (map (fun kv : str * str => (fst kv, run (fst kv) (snd kv))) issues)
  = dict_keys issues.
Proof. rewrite map_map. reflexivity. Qed.

Lemma in_filtered_keys (results : list (str * report)) (p : report -> bool) code r :
  NoDup (map fst results) -> In (code, r) results ->
  (In code (map fst (filter (fun x : str * report => p (snd x)) results))
   <-> p r = true).
Proof.
  intros Hn Hin. split.
  - intros H. apply in_map_iff in H as ([c r'] & Hc & Hf). cbn in Hc. subst c.
    apply filter_In in Hf as [Hin' Hp]. cbn in Hp.
    assert (r' = r); [|now subst].
    clear Hp. induction results as [|[c0 r0] results IH]; [contradiction|].
    cbn [map fst] in Hn. inversion Hn as [|? ? Hc Hn']; subst.
    destruct Hin as [Hin|Hin], Hin' as [Hin'|Hin'].
    + congruence.
    + inversion Hin; subst. exfalso. apply Hc. apply in_map_iff. now exists (code, r').
    + inversion Hin'; subst. exfalso. apply Hc. apply in_map_iff. now exists (code, r).
    + now apply IH.
  - intros Hp. apply in_map_iff. exists (code, r). split; [reflexivity|].
    apply filter_In. now split.
Qed.

(** X24.  When [batch_process_issues] returns, every issue is in exactly
    one of the two lists, by the flag of its report, and [stats] has an
    entry, with the three counts of the report, exactly for the issues
    that succeeded. *)
Theorem every_issue_is_reported_once
    (run : str -> str -> report) (cpu_count : Z) (issues : dict str)
    (max_workers : option Z)
    (successful failed : list str) (stats : dict stats_entry) (code path : str) :
  NoDup (dict_keys issues) ->
  batch_process_issues run cpu_count issues max_workers = Ok (successful, failed, stats) ->
  In (code, path) issues ->
  (In code successful <-> flag_of (run code path) = true)
  /\ (In code failed <-> flag_of (run code path) = false)
  /\ dict_get stats code
     = (if flag_of (run code path) then Some (stats_of (run code path)) else None)
  /\ length successful + length failed = length issues.
Proof.
  intros Hn H Hin. unfold batch_process_issues in H.
  destruct (pool _); [|discriminate]. injection H as <- <- <-.
  set (results := map (fun kv : str * str => (fst kv, run (fst kv) (snd kv))) issues).
  assert (Hn' : NoDup (map fst results)) by (unfold results; now rewrite results_keys).
  pose proof (@in_results run issues code path Hin) as Hr. fold results in Hr.
  split; [|split; [|split]].
  - apply (@in_filtered_keys results flag_of code (run code path) Hn' Hr).
  - rewrite (@in_filtered_keys results (fun r => negb (flag_of r)) code (run code path) Hn' Hr).
    apply negb_true_iff.
  - now rewrite (@stats_fold results code (run code path) [] Hn' Hr).
  - rewrite !length_map.
    rewrite (filter_partition_length (fun r : str * report => flag_of (snd r)) results).
    unfold results. now rewrite length_map.
Qed.

Lemma every_issue_is_reported_once_witness :
  exists successful failed stats,
    batch_process_issues
      (fun code path => (str_eqb code (py "A_18990101"), 3, 2, 1)%Z) 4
      [(py "A_18990101", py "a"); (py "B_18990101", py "b")] None
    = Ok (successful, failed, stats)
    /\ (In (py "B_18990101") failed <-> false = false)
    /\ dict_get stats (py "A_18990101") = Some (3, 2, 1)%Z.
Proof.
  eexists _, _, _. split; [vm_compute; reflexivity|].
  split.
  - refine (proj1 (proj2 (@every_issue_is_reported_once
             (fun code path => (str_eqb code (py "A_18990101"), 3, 2, 1)%Z) 4
             [(py "A_18990101", py "a"); (py "B_18990101", py "b")] None
             _ _ _ (py "B_18990101") (py "b") _ eq_refl _))).
    + repeat constructor; simpl; intuition discriminate.
    + simpl. auto.
  - reflexivity.
Defined.

End BatchReports.

(** ** The articles of an issue and the counts of [process_issue] *)

Section IssueCounts.
Import Mets Alto.

Lemma dict_keys_set_old {V : Type} (d : dict V) k v :
  In k (dict_keys d) -> dict_keys (dict_set d k v) = dict_keys d.
Proof.
  induction d as [|[k' v'] d IH]; cbn; intros H; [contradiction|].
  destruct (str_eqb k' k) eqn:E; [reflexivity|]. cbn. f_equal. apply IH.
  destruct H as [H|H]; [|exact H]. apply str_eqb_neq in E. congruence.
Qed.

Lemma dict_keys_set_cases {V : Type} (d : dict V) k v :
  dict_keys (dict_set d k v) = dict_keys d
  \/ (~ In k (dict_keys d) /\ dict_keys (dict_set d k v) = dict_keys d ++ [k]).
Proof.
  destruct (mem k (dict_keys d)) eqn:E.
  - left. apply dict_keys_set_old. now apply mem_In.
  - right. apply mem_not_In in E. split; [exact E|]. now apply dict_keys_set_new.
Qed.

Lemma issue_article_id_prefix issue_code article_id :
  article_id <> [] ->
  exists rest, rest <> [] /\ issue_article_id issue_code article_id
                             = issue_code ++ py "_" ++ rest.
Proof.
  intros H. unfold issue_article_id. destruct (7 <? length article_id) eqn:E.
  - exists (skipn 7 article_id). split; [|reflexivity].
    apply Nat.ltb_lt in E. intros E0. apply (f_equal (@length ascii)) in E0.
    rewrite length_skipn in E0. cbn in E0. lia.
  - now exists article_id.
Qed.

Lemma fold_left_inv_in {S B : Type} (P : S -> Prop) (f : S -> B -> S) (l : list B) :
  (forall s b, In b l -> P s -> P (f s b)) -> forall s, P s -> P (fold_left f l s).
Proof.
  induction l as [|b l IH]; intros Hf s Hs; simpl; [exact Hs|].
  apply IH.
  - intros s' b' Hb'. apply Hf. now right.
  - apply Hf; [now left | exact Hs].
Qed.

(** X25.  The dictionary of [mets2codes_inner] has one entry for each
    article id: its keys are distinct, and each is the issue code, an
    underscore and what is left of a [DMDID] that is not empty, the
    [DMDID] of an article of the document. *)
Theorem article_codes_have_distinct_ids (text : parsed) (issue_code : str)
    (log : list log_entry) (codes : dict article_codes) :
  mets2codes_inner text issue_code = (log, Ok codes) ->
  NoDup (dict_keys codes)
  /\ (forall k, In k (dict_keys codes) ->
        exists rest, rest <> [] /\ k = issue_code ++ py "_" ++ rest)
  /\ (forall k, In k (dict_keys codes) ->
        exists mets_root article_,
          text = Root mets_root
          /\ In article_ (divs_of_type "ARTICLE" mets_root)
          /\ get article_ "DMDID" "" <> []
          /\ k = issue_article_id issue_code (get article_ "DMDID" "")).
Proof.
  unfold mets2codes_inner. destruct text as [mets_root| |].
  - intros [= _ <-].
    apply (fold_left_inv_in
             (fun codes : dict article_codes =>
                NoDup (dict_keys codes)
                /\ (forall k, In k (dict_keys codes) ->
                      exists rest, rest <> [] /\ k = issue_code ++ py "_" ++ rest)
                /\ (forall k, In k (dict_keys codes) ->
                      exists mets_root0 article_,
                        Root mets_root = Root mets_root0
                        /\ In article_ (divs_of_type "ARTICLE" mets_root0)
                        /\ get article_ "DMDID" "" <> []
                        /\ k = issue_article_id issue_code (get article_ "DMDID" "")))).
    + intros codes article_ Hart (Hn & Hp & Hq).
      destruct (get article_ "DMDID" "") as [|c article_id] eqn:E;
        [split; [exact Hn | split; [exact Hp | exact Hq]]|].
      cbn [truthy negb].
      destruct (dict_keys_set_cases codes
                  (issue_article_id issue_code (c :: article_id))
                  (article_entry article_)) as [->|[Hnew ->]];
        [split; [exact Hn | split; [exact Hp | exact Hq]]|].
      split; [now apply NoDup_snoc|]. split.
      * intros k Hk. apply in_app_or in Hk as [Hk|[<-|[]]]; [now apply Hp|].
        apply issue_article_id_prefix. discriminate.
      * intros k Hk. apply in_app_or in Hk as [Hk|[<-|[]]]; [now apply Hq|].
        exists mets_root, article_. rewrite E.
        split; [reflexivity|]. split; [exact Hart|]. split; [discriminate | reflexivity].
    + split; [constructor|]. split; intros k [].
  - unfold logging, bind, ret. intros [= _ <-].
    split; [constructor|]. split; intros k [].
  - discriminate.
Qed.

Lemma article_codes_have_distinct_ids_witness :
  exists log codes,
    mets2codes_inner
      (Root (Element (py "mets") []
               [article "MODSMD_ARTICLE1" []; article "" []; article "MODSMD_ARTICLE1" []]))
      (py "X_18990101")
    = (log, Ok codes)
    /\ dict_keys codes = [py "X_18990101_ARTICLE1"]
    /\ NoDup (dict_keys codes).
Proof.
  eexists _, _. split; [vm_compute; reflexivity|]. split; [reflexivity|].
  match goal with
  | |- NoDup (dict_keys ?codes) =>
      apply (proj1 (@article_codes_have_distinct_ids
               (Root (Element (py "mets") []
                        [article "MODSMD_ARTICLE1" []; article "" [];
                         article "MODSMD_ARTICLE1" []]))
               (py "X_18990101") [] codes eq_refl))
  end.
Defined.

Lemma dict_set_length {V : Type} (d : dict V) k v :
  length (dict_set d k v) <= S (length d).
Proof.
  induction d as [|[k' v'] d IH]; cbn; [lia|].
  destruct (str_eqb k' k); cbn; lia.
Qed.

Lemma extract_step_length pages texts0 sk0 kv l texts sk :
  extract_step pages (texts0, sk0) kv = (l, Ok (texts, sk)) ->
  length texts <= S (length texts0).
Proof.
  destruct kv as [article_id data]. unfold extract_step.
  assert (G : bind (process_title_blocks (codes_title_block_ids data) pages)
                (fun title_data =>
                   bind (process_content_blocks (codes_text_block_ids data) pages
                           (codes_order_map data))
                     (fun content_data =>
                        ret (dict_set texts0 article_id
                               (combine_article_data (article_title data) title_data
                                  content_data (codes_non_text_elements data)), sk0)))
              = (l, Ok (texts, sk)) -> length texts <= S (length texts0)).
  { destruct (process_title_blocks _ pages) as [l1 [td|x]]; [|discriminate].
    unfold bind at 1.
    destruct (process_content_blocks _ pages _) as [l2 [cd|x]]; [|discriminate].
    unfold bind, ret. intros H. inversion H; subst. apply dict_set_length. }
  destruct (codes_title_block_ids data); [|exact G].
  destruct (codes_text_block_ids data); [|exact G].
  unfold logging, bind, ret. intros H. inversion H; subst. lia.
Qed.

Lemma extract_loop_length pages (cs : dict article_codes) : forall texts0 sk0 l texts sk,
  for_each cs (extract_step pages) (texts0, sk0) = (l, Ok (texts, sk)) ->
  length texts <= length texts0 + length cs.
Proof.
  induction cs as [|kv cs IH]; intros texts0 sk0 l texts sk.
  - intros H. inversion H; subst. cbn. lia.
  - cbn [for_each].
    destruct (extract_step pages (texts0, sk0) kv) as [l1 [[t1 s1]|x]] eqn:E1;
      [|discriminate].
    unfold bind.
    destruct (for_each cs (extract_step pages) (t1, s1)) as [l2 [[t2 s2]|x]] eqn:E2;
      [|discriminate].
    intros H. inversion H; subst. apply extract_step_length in E1. apply IH in E2.
    cbn [length]. lia.
Qed.

(** X26.  When [process_issue] reports a success, the archive was found
    and the table written; the numbers of extracted and of skipped
    articles add up to the number of articles of the structural document;
    and the number of pages is the number of page files, those that do not
    parse included. *)
Theorem success_counts (issue_code : str) (files : issue_files)
    (articles pages skipped : nat) :
  snd (process_issue issue_code files) = (true, articles, pages, skipped) ->
  exists mets_text log codes,
    mets_file files = Some mets_text
    /\ mets2codes_inner mets_text issue_code = (log, Ok codes)
    /\ articles + skipped = length codes
    /\ pages = length (page_files files)
    /\ tar_found files = true /\ to_parquet_ok files = true.
Proof.
  unfold process_issue. destruct (tar_found files); [|discriminate]. cbn [negb].
  unfold process_tar.
  destruct (mets_file files) as [mets_text|]; [|discriminate].
  destruct (page_files files) as [|p ps] eqn:Epf; [discriminate|].
  destruct (mets2codes_inner mets_text issue_code) as [l1 [codes|x]] eqn:Ec;
    [|discriminate].
  unfold bind at 1. destruct codes as [|c cs] eqn:Ecs; [discriminate|].
  rewrite <- Ecs in *. assert (Hcs : codes <> []) by (rewrite Ecs; discriminate).
  clear Ecs.
  destruct (parse_pages (p :: ps)) as [l2 [pgs|x]]; [|discriminate].
  unfold bind at 1. destruct pgs as [|pg pgs']; [discriminate|].
  unfold extract_text_from_alto.
  destruct (for_each codes (extract_step (pg :: pgs')) ([], 0))
    as [l3 [[texts sk]|x]] eqn:Ee; [|discriminate].
  apply extract_loop_length in Ee. cbn [length Nat.add] in Ee.
  unfold bind at 2. cbv zeta. cbn [fst].
  destruct (to_parquet_ok files).
  - intros H. exists mets_text, l1, codes.
    assert (E : articles = length texts /\ pages = S (length ps)
                /\ skipped = length codes - length texts).
    { revert H. destruct (0 <? sk); cbn [bind logging ret fst snd];
        destruct (0 <? length codes - length texts);
        cbn [bind logging ret fst snd length]; intros [= <- <- <-]; auto. }
    destruct E as (-> & -> & ->). repeat split; trivial. lia.
  - intros H. exfalso. revert H.
    destruct (0 <? sk); cbn [bind logging ret raise fst snd];
      destruct (0 <? length codes - length texts);
      cbn [bind logging ret raise fst snd]; discriminate.
Qed.

Lemma success_counts_witness :
  exists mets_text log codes,
    mets_file
      {| tar_found := true;
         mets_file := Some (Root (Element (py "mets") [] [article "MODSMD_ARTICLE1" []]));
         page_files := [Root (page []); XMLSyntaxError];
         to_parquet_ok := true |} = Some mets_text
    /\ mets2codes_inner mets_text (py "X_18990101") = (log, Ok codes)
    /\ 0 + 1 = length codes
    /\ 2 = length [Root (page []); XMLSyntaxError]
    /\ true = true /\ true = true.
Proof.
  apply (@success_counts (py "X_18990101")
           {| tar_found := true;
              mets_file := Some (Root (Element (py "mets") []
                                         [article "MODSMD_ARTICLE1" []]));
              page_files := [Root (page []); XMLSyntaxError];
              to_parquet_ok := true |} 0 2 1).
  vm_compute. reflexivity.
Defined.

End IssueCounts.
